(** * Changeset Chihuahua: the team governor and its persistent store

    A shallow embedding of [governor.go] (the [Governor] and [Team] types,
    the team file) and of [app/persistentdb.go] (the per-team
    [PersistentDB]), together with the parts of the Go standard library
    they call ([strings], [strconv], [bufio.Scanner]) and the formatter
    of [slack/slack.go].

    Go strings are byte strings; they are modelled as [string] (a list of
    8-bit [ascii] characters).  Go's [int], [int64] and [time.Duration] are
    64-bit; they are modelled as [Z] with the wrap-around written out.
    Go maps are [gmap]s.  A method that can fail returns its error next
    to its result, [None] for [nil].

    Every method of [PersistentDB] runs its statement under [dbLock], and
    [NewTeam] and [StartTeam] hold [teamsLock] from their first statement
    to their last, so each of them is one step here; what a goroutine
    does later is a step of its own.  ([GetPatchSetAnnouncements] and
    [RecordPatchSetAnnouncements] take no lock; a call of the latter is
    one step here all the same, that is, no other call comes between its
    INSERTs.) *)

From Stdlib Require Import ZArith Lia Bool Ascii String.
From stdpp Require Import gmap strings list fin_maps.

Local Open Scope Z_scope.

(** ** The [strings] package *)

Module Strings.

Definition LF : ascii := "010"%char.
Definition CR : ascii := "013"%char.
Definition TAB : ascii := "009"%char.
Definition VT : ascii := "011"%char.
Definition FF : ascii := "012"%char.
Definition SP : ascii := " "%char.

(** [strings.IndexByte(s, c) >= 0] *)
Fixpoint IndexByte (c : ascii) (s : string) : bool :=
  match s with
  | EmptyString => false
  | String d s' => Ascii.eqb c d || IndexByte c s'
  end.

(** [strings.ContainsAny(s, chars)].  The call site passes ASCII
    [chars], for which the code-point search of Go coincides with a
    search on bytes. *)
Fixpoint ContainsAny (s chars : string) : bool :=
  match s with
  | EmptyString => false
  | String c s' => IndexByte c chars || ContainsAny s' chars
  end.

(** [strings.HasPrefix(s, prefix)] *)
Fixpoint HasPrefix (s prefix : string) {struct prefix} : bool :=
  match prefix, s with
  | EmptyString, _ => true
  | String p prefix', String c s' => Ascii.eqb c p && HasPrefix s' prefix'
  | String _ _, EmptyString => false
  end.

(** [strings.Contains(s, substr)] *)
Fixpoint Contains (s substr : string) : bool :=
  HasPrefix s substr ||
  match s with
  | EmptyString => false
  | String _ s' => Contains s' substr
  end.

(** The [asciiSpace] table of package [strings]: tab, line feed,
    vertical tab, form feed, carriage return and space. *)
Definition asciiSpace (c : ascii) : bool :=
  Ascii.eqb c TAB || Ascii.eqb c LF || Ascii.eqb c VT ||
  Ascii.eqb c FF || Ascii.eqb c CR || Ascii.eqb c SP.

Fixpoint TrimLeftSpace (s : string) : string :=
  match s with
  | EmptyString => EmptyString
  | String c s' => if asciiSpace c then TrimLeftSpace s' else s
  end.

Fixpoint TrimRightSpace (s : string) : string :=
  match s with
  | EmptyString => EmptyString
  | String c s' =>
      match TrimRightSpace s' with
      | EmptyString => if asciiSpace c then EmptyString else String c EmptyString
      | r => String c r
      end
  end.

(** The last byte of a string, and the bytes below [utf8.RuneSelf]. *)
Fixpoint lastByte (s : string) : option ascii :=
  match s with
  | EmptyString => None
  | String c EmptyString => Some c
  | String _ s' => lastByte s'
  end.

Definition isASCII (c : ascii) : bool := Nat.ltb (nat_of_ascii c) 128.

(** The white space of [unicode.IsSpace] above U+007F, in UTF-8: U+0085
    and U+00A0 are [C2 85] and [C2 A0]; U+1680 is [E1 9A 80]; U+2000 to
    U+200A are [E2 80 80] to [E2 80 8A]; U+2028, U+2029 and U+202F are
    [E2 80 A8], [E2 80 A9] and [E2 80 AF]; U+205F is [E2 81 9F]; U+3000
    is [E3 80 80]. *)
Definition space2 (c1 c2 : ascii) : bool :=
  let n2 := nat_of_ascii c2 in
  Nat.eqb (nat_of_ascii c1) 194 && (Nat.eqb n2 133 || Nat.eqb n2 160).

Definition space3 (c1 c2 c3 : ascii) : bool :=
  let n1 := nat_of_ascii c1 in
  let n2 := nat_of_ascii c2 in
  let n3 := nat_of_ascii c3 in
  Nat.eqb n1 225 && Nat.eqb n2 154 && Nat.eqb n3 128
  || Nat.eqb n1 226 && Nat.eqb n2 128
     && (Nat.leb 128 n3 && Nat.leb n3 138
         || Nat.eqb n3 168 || Nat.eqb n3 169 || Nat.eqb n3 175)
  || Nat.eqb n1 226 && Nat.eqb n2 129 && Nat.eqb n3 159
  || Nat.eqb n1 227 && Nat.eqb n2 128 && Nat.eqb n3 128.

(** [strings.TrimLeftFunc(s, unicode.IsSpace)]: the runes are decoded
    from the left, a byte below [utf8.RuneSelf] being a rune of its
    own, and the text starts at the first rune that is no white space
    (a byte that starts no valid encoding decodes to [utf8.RuneError],
    which is none). *)
Fixpoint TrimLeftIsSpace (s : string) : string :=
  match s with
  | EmptyString => EmptyString
  | String c1 s1 =>
      if asciiSpace c1 then TrimLeftIsSpace s1
      else
        match s1 with
        | String c2 s2 =>
            if space2 c1 c2 then TrimLeftIsSpace s2
            else
              match s2 with
              | String c3 s3 => if space3 c1 c2 c3 then TrimLeftIsSpace s3 else s
              | EmptyString => s
              end
        | EmptyString => s
        end
  end.

Fixpoint revAppend (s acc : string) : string :=
  match s with
  | EmptyString => acc
  | String c s' => revAppend s' (String c acc)
  end.

Definition reverse (s : string) : string := revAppend s EmptyString.

(** [strings.TrimRightFunc(s, unicode.IsSpace)] on the bytes of [s] from
    the last to the first: [utf8.DecodeLastRuneInString] takes a last
    byte below [utf8.RuneSelf] as a rune of its own, and otherwise goes
    back to the byte that starts the encoding and decodes from there. *)
Fixpoint trimLastRunes (r : string) : string :=
  match r with
  | EmptyString => EmptyString
  | String c1 r1 =>
      if asciiSpace c1 then trimLastRunes r1
      else
        match r1 with
        | String c2 r2 =>
            if space2 c2 c1 then trimLastRunes r2
            else
              match r2 with
              | String c3 r3 => if space3 c3 c2 c1 then trimLastRunes r3 else r
              | EmptyString => r
              end
        | EmptyString => r
        end
  end.

Definition TrimRightIsSpace (s : string) : string :=
  reverse (trimLastRunes (reverse s)).

(** [strings.TrimSpace(s)]: the first loop goes over the ASCII white
    space at the start ([TrimLeftSpace]); at a byte that is not ASCII it
    hands the rest to [TrimFunc(s[start:], unicode.IsSpace)].  The
    second loop goes back over the ASCII white space at the end
    ([TrimRightSpace]); at a byte that is not ASCII it hands what is
    left to [TrimRightFunc(s[start:stop], unicode.IsSpace)]. *)
Definition TrimSpace (s : string) : string :=
  match TrimLeftSpace s with
  | EmptyString => EmptyString
  | String c rest =>
      if isASCII c
      then
        let t := TrimRightSpace (String c rest) in
        match lastByte t with
        | Some e => if isASCII e then t else TrimRightIsSpace t
        | None => t
        end
      else TrimRightIsSpace (TrimLeftIsSpace (String c rest))
  end.

(** [s[n:]] *)
Fixpoint drop (n : nat) (s : string) : string :=
  match n, s with
  | O, _ => s
  | S n', String _ s' => drop n' s'
  | S _, EmptyString => EmptyString
  end.

(** The text before the first [sep] in [s] and the text after it. *)
Fixpoint Cut (s sep : string) : option (string * string) :=
  if HasPrefix s sep then Some (EmptyString, drop (String.length sep) s)
  else match s with
       | EmptyString => None
       | String c s' =>
           match Cut s' sep with
           | Some (before, after) => Some (String c before, after)
           | None => None
           end
       end.

(** [strings.SplitN(s, sep, n)] for a non-empty [sep] and [n >= 0]: at
    most [n] substrings, the last one the unsplit remainder. *)
Fixpoint SplitN (s sep : string) (n : nat) : list string :=
  match n with
  | O => []
  | S O => [s]
  | S n' =>
      match Cut s sep with
      | Some (before, after) => before :: SplitN after sep n'
      | None => [s]
      end
  end.

(** [strings.ToLower] on the ASCII letters.  (Go also lowers non-ASCII
    letters; the only code points whose lower case is an ASCII letter
    are U+0130, giving [i], and U+212A, giving [k].) *)
Definition lowerByte (c : ascii) : ascii :=
  let n := nat_of_ascii c in
  if (Nat.leb 65 n && Nat.leb n 90)%bool then ascii_of_nat (n + 32) else c.

Fixpoint ToLower (s : string) : string :=
  match s with
  | EmptyString => EmptyString
  | String c s' => String (lowerByte c) (ToLower s')
  end.

End Strings.

(** ** The [strconv] package *)

Module Strconv.

Definition minInt64 : Z := - 2 ^ 63.
Definition maxInt64 : Z := 2 ^ 63 - 1.
Definition maxUint64 : Z := 2 ^ 64 - 1.

(** Conversion of an unbounded integer to a two's complement [int64]. *)
Definition wrap64 (z : Z) : Z := (z + 2 ^ 63) mod 2 ^ 64 - 2 ^ 63.

Inductive NumError := ErrSyntax | ErrRange | ErrBase.

(** [const digits = "0123456789abcdefghijklmnopqrstuvwxyz"] *)
Definition digits : string := "0123456789abcdefghijklmnopqrstuvwxyz".

Definition digit (d : Z) : ascii :=
  match String.get (Z.to_nat d) digits with
  | Some c => c
  | None => "0"%char
  end.

(** The loops of [formatBits].  For a base that is a power of two:
    [for u >= b { a[i] = digits[u&m]; u >>= shift }; a[i] = digits[u]];
    for another base: [for u >= b { q := u / b; a[i] = digits[u-q*b];
    u = q }; a[i] = digits[u]].  [fuel] bounds the number of digits; 64
    is enough for a [uint64]. *)
Fixpoint formatShift (fuel : nat) (u : Z) (shift : Z) (a : string) : string :=
  match fuel with
  | O => a
  | S fuel' =>
      if u <? Z.shiftl 1 shift
      then String (digit u) a
      else formatShift fuel' (Z.shiftr u shift) shift
             (String (digit (Z.land u (Z.shiftl 1 shift - 1))) a)
  end.

Fixpoint formatDiv (fuel : nat) (u : Z) (b : Z) (a : string) : string :=
  match fuel with
  | O => a
  | S fuel' =>
      if u <? b
      then String (digit u) a
      else let q := u / b in
           formatDiv fuel' q b (String (digit (u - q * b)) a)
  end.

Definition isPowerOfTwo (x : Z) : bool := Z.land x (x - 1) =? 0.

Definition formatBits (u : Z) (base : Z) : string :=
  if isPowerOfTwo base
  then formatShift 64 u (Z.log2 base) EmptyString
  else formatDiv 64 u base EmptyString.

(** [strconv.FormatInt(i, base)] for [2 <= base <= 36]: the magnitude
    in the base, after a minus sign when [i] is negative. *)
Definition FormatInt (i : Z) (base : Z) : string :=
  if i <? 0 then String "-"%char (formatBits (- i) base)
  else formatBits i base.

(** [lower(c) = c | ('x' - 'X')] *)
Definition lower (c : ascii) : Z := Z.lor (Z.of_nat (nat_of_ascii c)) 32.
Definition byte (c : ascii) : Z := Z.of_nat (nat_of_ascii c).

(** [underscoreOK]: underscores may only separate digits (or follow the
    base prefix).  [saw] is the last kind of character seen. *)
Inductive saw_t := SawStart | SawDigit | SawUnderscore | SawOther.

Fixpoint underscoreLoop (hex : bool) (saw : saw_t) (s : string) : bool :=
  match s with
  | EmptyString => match saw with SawUnderscore => false | _ => true end
  | String c s' =>
      if ((48 <=? byte c) && (byte c <=? 57)
          || hex && (97 <=? lower c) && (lower c <=? 102))%bool
      then underscoreLoop hex SawDigit s'
      else if Ascii.eqb c "_"%char
      then match saw with
           | SawDigit => underscoreLoop hex SawUnderscore s'
           | _ => false
           end
      else match saw with
           | SawUnderscore => false
           | _ => underscoreLoop hex SawOther s'
           end
  end.

Definition underscoreOK (s : string) : bool :=
  let s :=
    match s with
    | String c s' =>
        if (Ascii.eqb c "-"%char || Ascii.eqb c "+"%char)%bool then s' else s
    | _ => s
    end in
  match s with
  | String "0"%char (String p s') =>
      if ((lower p =? 98) || (lower p =? 111) || (lower p =? 120))%bool
      then underscoreLoop (lower p =? 120) SawDigit s'
      else underscoreLoop false SawStart s
  | _ => underscoreLoop false SawStart s
  end.

(** The digit loop of [ParseUint]; [n] is the value so far,
    [maxVal = 1<<bitSize - 1] and [cutoff = maxUint64/base + 1]. *)
Fixpoint parseDigits (base0 : bool) (base maxVal : Z) (s : string)
    (underscores : bool) (n : Z) : NumError + (Z * bool) :=
  match s with
  | EmptyString => inr (n, underscores)
  | String c s' =>
      if (Ascii.eqb c "_"%char && base0)%bool
      then parseDigits base0 base maxVal s' true n
      else
        let d :=
          if ((48 <=? byte c) && (byte c <=? 57))%bool then Some (byte c - 48)
          else if ((97 <=? lower c) && (lower c <=? 122))%bool
               then Some (lower c - 97 + 10)
               else None in
        match d with
        | None => inl ErrSyntax
        | Some d =>
            if base <=? d then inl ErrSyntax
            else if maxUint64 / base + 1 <=? n then inl ErrRange
            else
              let n1 := n * base + d in
              if (maxUint64 <? n1) || (maxVal <? n1) then inl ErrRange
              else parseDigits base0 base maxVal s' underscores n1
        end
  end.

(** [strconv.ParseUint(s, base, bitSize)]: base 0 selects the base
    from the prefix ([0b], [0o], [0x], a leading [0] for octal, else 10)
    and allows underscores. *)
Definition ParseUint (s : string) (base : Z) (bitSize : Z) : NumError + Z :=
  match s with
  | EmptyString => inl ErrSyntax
  | _ =>
      let base0 := base =? 0 in
      let chosen :=
        if (2 <=? base) && (base <=? 36) then Some (base, s)
        else if base0 then
          Some match s with
               | String "0"%char rest =>
                   match rest with
                   | String p (String c rest') =>
                       if lower p =? 98 then (2, String c rest')
                       else if lower p =? 111 then (8, String c rest')
                       else if lower p =? 120 then (16, String c rest')
                       else (8, rest)
                   | _ => (8, rest)
                   end
               | _ => (10, s)
               end
        else None in
      match chosen with
      | None => inl ErrBase
      | Some (base, digs) =>
          match parseDigits base0 base (2 ^ bitSize - 1) digs false 0 with
          | inl e => inl e
          | inr (n, underscores) =>
              if (underscores && negb (underscoreOK s))%bool then inl ErrSyntax
              else inr n
          end
      end
  end.

(** [strconv.ParseInt(s, base, bitSize)] *)
Definition ParseInt (s : string) (base : Z) (bitSize : Z) : NumError + Z :=
  match s with
  | EmptyString => inl ErrSyntax
  | String c s' =>
      let '(neg, body) :=
        if Ascii.eqb c "+"%char then (false, s')
        else if Ascii.eqb c "-"%char then (true, s')
        else (false, s) in
      match ParseUint body base bitSize with
      | inl e => inl e
      | inr un =>
          let cutoff := 2 ^ (bitSize - 1) in
          if (negb neg && (cutoff <=? un))%bool then inl ErrRange
          else if (neg && (cutoff <? un))%bool then inl ErrRange
          else inr (if neg then - un else un)
      end
  end.

(** What the digit loop of [ParseUint], in base 10 out of base 0, makes
    of a text [a] of [k] base-32 digits of value [V]: when it accepts
    the text, the number it gives ends in [k] decimal digits of a value
    of at most [V]. *)
Definition reads (maxVal : Z) (a : string) (k V : Z) : Prop :=
  forall n0 n und0 und,
    parseDigits true 10 maxVal a und0 n0 = inr (n, und) ->
    exists dec, n = n0 * 10 ^ k + dec /\ 0 <= dec <= V.

End Strconv.

(** ** [app/persistentdb.go]: the persistent store of one team *)

Module PersistentDB.

(** A [time.Time] is an instant, counted in nanoseconds; a
    [time.Duration] is an [int64] count of nanoseconds. *)
Definition Time := Z.
Definition Duration := Z.

(** [t.Add(d)] (the second count of a [Time] is a 64-bit number of
    seconds since year 1, which no realistic instant overflows). *)
Definition Time_Add (t : Time) (d : Duration) : Time := t + d.

Inductive error :=
| ErrNoRows                          (* sql.ErrNoRows *)
| ErrDBClosed                        (* sql: database is closed *)
| ErrUniqueViolation (table : string) (* primary key already present *)
| ErrInvalidBoolean (val : string)    (* invalid boolean value %q *)
| ErrNum (e : Strconv.NumError).

(** *** The schema, [app/dbx/persistent.dbx] *)

Record GerritUser := mkGerritUser {
  gerrit_username : string;           (* key *)
  chat_id : string;
  last_report : option Time           (* updatable, nullable *)
}.

Record InlineComment := mkInlineComment {
  comment_id : string;                (* key *)
  updated_at : Time                   (* updatable *)
}.

Record TeamConfig := mkTeamConfig {
  config_key : string;                (* key *)
  config_value : string               (* updatable *)
}.

Record PatchsetAnnouncement := mkPatchsetAnnouncement {
  num : Z;                            (* key, serial *)
  project_name : string;
  change_num : Z;
  patchset_num : Z;
  message_handle : string;
  ts : Time                           (* autoinsert *)
}.

(** The database: one list of rows per table, and whether [Close] has
    been called on the handle. *)
Record DB := mkDB {
  gerrit_users : list GerritUser;
  inline_comments : list InlineComment;
  team_configs : list TeamConfig;
  patchset_announcements : list PatchsetAnnouncement;
  closed : bool
}.

Definition set_gerrit_users (d : DB) (t : list GerritUser) : DB :=
  mkDB t (inline_comments d) (team_configs d) (patchset_announcements d) (closed d).
Definition set_inline_comments (d : DB) (t : list InlineComment) : DB :=
  mkDB (gerrit_users d) t (team_configs d) (patchset_announcements d) (closed d).
Definition set_team_configs (d : DB) (t : list TeamConfig) : DB :=
  mkDB (gerrit_users d) (inline_comments d) t (patchset_announcements d) (closed d).
Definition set_patchset_announcements (d : DB) (t : list PatchsetAnnouncement) : DB :=
  mkDB (gerrit_users d) (inline_comments d) (team_configs d) t (closed d).
Definition set_closed (d : DB) (b : bool) : DB :=
  mkDB (gerrit_users d) (inline_comments d) (team_configs d) (patchset_announcements d) b.

Definition emptyDB : DB := mkDB [] [] [] [] false.

(** The row of a user in the [gerrit_users] table, and the row of a key
    in the [team_configs] table. *)
Definition userRow (d : DB) (u : string) : option GerritUser :=
  List.find (fun r => String.eqb (gerrit_username r) u) (gerrit_users d).

Definition configRow (d : DB) (key : string) : option TeamConfig :=
  List.find (fun r => String.eqb (config_key r) key) (team_configs d).

(** [read one (select gerrit_user where gerrit_user.gerrit_username = ?)] *)
Definition Get_GerritUser_By_GerritUsername (d : DB) (u : string)
    : error + GerritUser :=
  if closed d then inl ErrDBClosed
  else match userRow d u with
       | Some r => inr r
       | None => inl ErrNoRows
       end.

(** [create gerrit_user ( noreturn )]: a plain INSERT; the key
    [gerrit_username] is the primary key of the table. *)
Definition CreateNoReturn_GerritUser (d : DB) (u c : string)
    : DB * option error :=
  if closed d then (d, Some ErrDBClosed)
  else match userRow d u with
       | Some _ => (d, Some (ErrUniqueViolation "gerrit_users"))
       | None => (set_gerrit_users d (gerrit_users d ++ [mkGerritUser u c None]), None)
       end.

(** [delete inline_comment (where inline_comment.updated_at < ?)] *)
Definition Delete_InlineComment_By_UpdatedAt_Less (d : DB) (t : Time)
    : DB * option error :=
  if closed d then (d, Some ErrDBClosed)
  else (set_inline_comments d
          (List.filter (fun r => negb (updated_at r <? t)) (inline_comments d)),
        None).

(** [delete patchset_announcement (where patchset_announcement.ts < ?)] *)
Definition Delete_PatchsetAnnouncement_By_Ts_Less (d : DB) (t : Time)
    : DB * option error :=
  if closed d then (d, Some ErrDBClosed)
  else (set_patchset_announcements d
          (List.filter (fun r => negb (ts r <? t)) (patchset_announcements d)),
        None).

(** [read one (select team_config.config_value where team_config.config_key = ?)] *)
Definition Get_TeamConfig_ConfigValue_By_ConfigKey (d : DB) (key : string)
    : error + string :=
  if closed d then inl ErrDBClosed
  else match configRow d key with
       | Some r => inr (config_value r)
       | None => inl ErrNoRows
       end.

(** [SELECT comment_id FROM inline_comments WHERE (comment_id = ? OR ...)],
    with one placeholder for each argument (the statement is not
    rebound, so this is how the sqlite3 driver reads it). *)
Definition Query_inline_comment_ids (d : DB) (queryArgs : list string)
    : error + list string :=
  if closed d then inl ErrDBClosed
  else inr (List.map comment_id
              (List.filter
                 (fun r => existsb (String.eqb (comment_id r)) queryArgs)
                 (inline_comments d))).

(** One row of [INSERT INTO inline_comments (comment_id, updated_at)
    VALUES ... ON CONFLICT (comment_id) DO UPDATE SET updated_at =
    EXCLUDED.updated_at]. *)
Fixpoint upsert_inline_comment (t : list InlineComment) (r : InlineComment)
    : list InlineComment :=
  match t with
  | [] => [r]
  | r' :: t' =>
      if String.eqb (comment_id r') (comment_id r)
      then mkInlineComment (comment_id r') (updated_at r) :: t'
      else r' :: upsert_inline_comment t' r
  end.

Definition Exec_upsert_inline_comments (d : DB) (values : list (string * Time))
    : DB * option error :=
  if closed d then (d, Some ErrDBClosed)
  else (set_inline_comments d
          (fold_left upsert_inline_comment
             (List.map (fun v => mkInlineComment v.1 v.2) values)
             (inline_comments d)),
        None).

(** [INSERT INTO team_configs (config_key, config_value) VALUES (?, ?)
    ON CONFLICT (config_key) DO UPDATE SET config_value =
    EXCLUDED.config_value] *)
Fixpoint upsert_team_config (t : list TeamConfig) (r : TeamConfig)
    : list TeamConfig :=
  match t with
  | [] => [r]
  | r' :: t' =>
      if String.eqb (config_key r') (config_key r)
      then mkTeamConfig (config_key r') (config_value r) :: t'
      else r' :: upsert_team_config t' r
  end.

Definition Exec_upsert_team_config (d : DB) (key value : string)
    : DB * option error :=
  if closed d then (d, Some ErrDBClosed)
  else (set_team_configs d (upsert_team_config (team_configs d) (mkTeamConfig key value)),
        None).

(** *** [type PersistentDB struct] *)

Record PersistentDB := mkPersistentDB {
  db : DB;
  cache : gmap string string;
  pruneCancelled : bool
}.

Definition set_db (ud : PersistentDB) (d : DB) : PersistentDB :=
  mkPersistentDB d (cache ud) (pruneCancelled ud).
Definition set_cache (ud : PersistentDB) (c : gmap string string) : PersistentDB :=
  mkPersistentDB (db ud) c (pruneCancelled ud).

(** [NewPersistentDB], once the database is open and migrated. *)
Definition NewPersistentDB (d : DB) : PersistentDB := mkPersistentDB d ∅ false.

(** [func (ud *PersistentDB) Close() error] *)
Definition Close (ud : PersistentDB) : PersistentDB * option error :=
  (mkPersistentDB (set_closed (db ud) true) (cache ud) true, None).

Definition LookupGerritUser (ud : PersistentDB) (gerritUsername : string)
    : error + GerritUser :=
  Get_GerritUser_By_GerritUsername (db ud) gerritUsername.

Definition LookupChatIDForGerritUser (ud : PersistentDB) (gerritUsername : string)
    : PersistentDB * (string * option error) :=
  match cache ud !! gerritUsername with
  | Some chatID => (ud, (chatID, None))
  | None =>
      match LookupGerritUser ud gerritUsername with
      | inl err => (ud, (EmptyString, Some err))
      | inr usermapRecord =>
          let chatID := chat_id usermapRecord in
          (set_cache ud (<[gerritUsername := chatID]> (cache ud)), (chatID, None))
      end
  end.

Definition AssociateChatIDWithGerritUser (ud : PersistentDB)
    (gerritUsername chatID : string) : PersistentDB * option error :=
  match CreateNoReturn_GerritUser (db ud) gerritUsername chatID with
  | (_, Some err) => (ud, Some err)
  | (d', None) =>
      (mkPersistentDB d' (<[gerritUsername := chatID]> (cache ud)) (pruneCancelled ud),
       None)
  end.

(** [IdentifyNewInlineComments].  The Go map [commentsByID] is shared
    with the caller and is updated in place, so the map as the call
    leaves it is part of the result. *)
Definition IdentifyNewInlineComments (ud : PersistentDB)
    (commentsByID : gmap string Time)
    : PersistentDB * gmap string Time * option error :=
  if decide (size commentsByID = 0%nat) then (ud, commentsByID, None)
  else
    let queryArgs := (map_to_list commentsByID).*1 in
    match Query_inline_comment_ids (db ud) queryArgs with
    | inl err => (ud, commentsByID, Some err)
    | inr rows =>
        let commentsByID :=
          fold_left (fun m foundCommentID => delete foundCommentID m) rows commentsByID in
        if decide (size commentsByID = 0%nat) then (ud, commentsByID, None)
        else
          match Exec_upsert_inline_comments (db ud) (map_to_list commentsByID) with
          | (_, Some err) => (ud, commentsByID, Some err)
          | (d', None) => (set_db ud d', commentsByID, None)
          end
    end.

Definition GetConfig (ud : PersistentDB) (key defaultValue : string)
    : string * option error :=
  match Get_TeamConfig_ConfigValue_By_ConfigKey (db ud) key with
  | inl ErrNoRows => (defaultValue, None)
  | inl err => (defaultValue, Some err)
  | inr value => (value, None)
  end.

Definition GetConfigInt (ud : PersistentDB) (key : string) (defaultValue : Z)
    : Z * option error :=
  match GetConfig ud key EmptyString with
  | (_, Some err) => (defaultValue, Some err)
  | (EmptyString, None) => (defaultValue, None)
  | (val, None) =>
      match Strconv.ParseInt val 0 32 with
      | inl e => (defaultValue, Some (ErrNum e))
      | inr numVal => (numVal, None)
      end
  end.

Definition GetConfigBool (ud : PersistentDB) (key : string) (defaultValue : bool)
    : bool * option error :=
  match GetConfig ud key EmptyString with
  | (_, Some err) => (defaultValue, Some err)
  | (EmptyString, None) => (defaultValue, None)
  | (val, None) =>
      let val := Strings.ToLower val in
      if existsb (String.eqb val) ["yes"; "y"; "1"; "on"; "true"; "t"]%string
      then (true, None)
      else if existsb (String.eqb val) ["no"; "n"; "0"; "off"; "false"; "f"]%string
      then (false, None)
      else (defaultValue, Some (ErrInvalidBoolean val))
  end.

Definition SetConfig (ud : PersistentDB) (key value : string)
    : PersistentDB * option error :=
  match Exec_upsert_team_config (db ud) key value with
  | (d', err) => (set_db ud d', err)
  end.

Definition SetConfigInt (ud : PersistentDB) (key : string) (value : Z)
    : PersistentDB * option error :=
  SetConfig ud key (Strconv.FormatInt value 32).

Section Prune.
(** The flags [inline-comment-max-age] (a [time.Duration], declared in
    [app/app.go]) and [build-lifetime-days] (an [int]), and
    [t.AddDate(years, months, days)] of package [time], which moves an
    instant by calendar days in the instant's own location. *)
Variable inlineCommentMaxAge : Duration.
Variable buildLifetimeDays : Z.
Variable AddDate : Time -> Z -> Z -> Z -> Time.

Definition Prune (ud : PersistentDB) (now : Time) : PersistentDB * option error :=
  let deleteInlineCommentsBefore :=
    Time_Add now (Strconv.wrap64 (-2 * inlineCommentMaxAge)) in
  match Delete_InlineComment_By_UpdatedAt_Less (db ud) deleteInlineCommentsBefore with
  | (d', Some err) => (set_db ud d', Some err)
  | (d', None) =>
      let deletePatchsetAnnouncementsBefore :=
        AddDate now 0 0 (Strconv.wrap64 (- buildLifetimeDays)) in
      match Delete_PatchsetAnnouncement_By_Ts_Less d' deletePatchsetAnnouncementsBefore with
      | (d'', err) => (set_db ud d'', err)
      end
  end.
End Prune.

(** A sequence of [AssociateChatIDWithGerritUser] calls for one user,
    with the error of each call. *)
Fixpoint AssociateAll (ud : PersistentDB) (gerritUsername : string)
    (chatIDs : list string) : PersistentDB * list (option error) :=
  match chatIDs with
  | [] => (ud, [])
  | chatID :: rest =>
      let '(ud1, err) := AssociateChatIDWithGerritUser ud gerritUsername chatID in
      let '(ud2, errs) := AssociateAll ud1 gerritUsername rest in
      (ud2, err :: errs)
  end.

(** Every cached chat ID is the one of the user's row. *)
Definition cacheAgrees (ud : PersistentDB) : Prop :=
  forall u c, cache ud !! u = Some c ->
    exists r, userRow (db ud) u = Some r /\ chat_id r = c.

(** The rows that the INSERT of [IdentifyNewInlineComments] carries
    for the entries of a map. *)
Definition newRows (m : gmap string Time) : list InlineComment :=
  List.map (fun v => mkInlineComment v.1 v.2) (map_to_list m).

(** The keys of the [inline_comments] table. *)
Definition commentIDs (d : DB) : list string :=
  List.map comment_id (inline_comments d).

(** *** The report times of the users *)

(** [read all (select gerrit_user where gerrit_user.last_report < ?)];
    the comparison with a NULL [last_report] is not true, so such a row
    is not selected. *)
Definition All_GerritUser_By_LastReport_Less (d : DB) (t : Time)
    : error + list GerritUser :=
  if closed d then inl ErrDBClosed
  else inr (List.filter
              (fun r => match last_report r with
                        | Some lr => lr <? t
                        | None => false
                        end)
              (gerrit_users d)).

(** [update gerrit_user (where gerrit_user.gerrit_username = ? noreturn)]
    with the one updatable field, [last_report], set: an UPDATE that
    matches no row is no error. *)
Definition update_last_report (u : string) (lastReport : Time) (r : GerritUser)
    : GerritUser :=
  if String.eqb (gerrit_username r) u
  then mkGerritUser (gerrit_username r) (chat_id r) (Some lastReport)
  else r.

Definition UpdateNoReturn_GerritUser_By_GerritUsername (d : DB) (u : string)
    (lastReport : Time) : DB * option error :=
  if closed d then (d, Some ErrDBClosed)
  else (set_gerrit_users d (List.map (update_last_report u lastReport) (gerrit_users d)),
        None).

Definition GetAllUsersWhoseLastReportWasBefore (ud : PersistentDB) (t : Time)
    : error + list GerritUser :=
  All_GerritUser_By_LastReport_Less (db ud) t.

Definition UpdateLastReportTime (ud : PersistentDB) (gerritUsername : string)
    (when : Time) : PersistentDB * option error :=
  match UpdateNoReturn_GerritUser_By_GerritUsername (db ud) gerritUsername when with
  | (d', err) => (set_db ud d', err)
  end.

(** *** The announcements of patch sets *)

(** [read all (select patchset_announcement.message_handle where
    project_name = ? where change_num = ? where patchset_num = ?)] *)
Record MessageHandle_Row := mkMessageHandle_Row { MessageHandle : string }.

Definition announces (projectName : string) (changeNum patchSetNum : Z)
    (r : PatchsetAnnouncement) : bool :=
  String.eqb (project_name r) projectName
  && (change_num r =? changeNum) && (patchset_num r =? patchSetNum).

Definition All_PatchsetAnnouncement_MessageHandle_By_ProjectName_And_ChangeNum_And_PatchsetNum
    (d : DB) (projectName : string) (changeNum patchSetNum : Z)
    : error + list MessageHandle_Row :=
  if closed d then inl ErrDBClosed
  else inr (List.map (fun r => mkMessageHandle_Row (message_handle r))
              (List.filter (announces projectName changeNum patchSetNum)
                 (patchset_announcements d))).

(** [create patchset_announcement ( noreturn )].  The database gives
    the row its [num] (the field is [serial]) and the generated code
    stamps [ts] with the clock ([autoinsert]); both come in from the
    environment here. *)
Definition CreateNoReturn_PatchsetAnnouncement (d : DB) (serial : Z) (now : Time)
    (projectName : string) (changeNum patchSetNum : Z) (handle : string)
    : DB * option error :=
  if closed d then (d, Some ErrDBClosed)
  else (set_patchset_announcements d
          (patchset_announcements d ++
           [mkPatchsetAnnouncement serial projectName changeNum patchSetNum handle now]),
        None).

Definition GetPatchSetAnnouncements (ud : PersistentDB) (projectName : string)
    (changeNum patchSetNum : Z) : error + list string :=
  match All_PatchsetAnnouncement_MessageHandle_By_ProjectName_And_ChangeNum_And_PatchsetNum
          (db ud) projectName changeNum patchSetNum with
  | inl err => inl err
  | inr rows => inr (List.map MessageHandle rows)
  end.

(** [errs.Combine(allErrors, err)]: a nil [err] is dropped; the errors
    collected so far are a list, and the nil error is the empty list. *)
Definition Combine (allErrors : list error) (err : option error) : list error :=
  match err with
  | Some e => allErrors ++ [e]
  | None => allErrors
  end.

(** [RecordPatchSetAnnouncements]: one INSERT for each handle, all of
    them attempted, the errors combined.  [env i] holds, for the INSERT
    of the handle at index [i], the serial number the database hands
    out and the reading of the clock. *)
Fixpoint RecordPatchSetAnnouncements_loop (d : DB) (env : nat -> Z * Time) (i : nat)
    (projectName : string) (changeNum patchSetNum : Z)
    (announcementHandles : list string) (allErrors : list error)
    : DB * list error :=
  match announcementHandles with
  | [] => (d, allErrors)
  | handle :: rest =>
      let '(d', err) :=
        CreateNoReturn_PatchsetAnnouncement d (env i).1 (env i).2
          projectName changeNum patchSetNum handle in
      RecordPatchSetAnnouncements_loop d' env (S i)
        projectName changeNum patchSetNum rest (Combine allErrors err)
  end.

Definition RecordPatchSetAnnouncements (ud : PersistentDB) (env : nat -> Z * Time)
    (projectName : string) (changeNum patchSetNum : Z)
    (announcementHandles : list string) : PersistentDB * list error :=
  let '(d', allErrors) :=
    RecordPatchSetAnnouncements_loop (db ud) env 0
      projectName changeNum patchSetNum announcementHandles [] in
  (set_db ud d', allErrors).

(** *** All config items *)

(** [read all (select team_config)] *)
Definition All_TeamConfig (d : DB) : error + list TeamConfig :=
  if closed d then inl ErrDBClosed else inr (team_configs d).

Definition GetAllConfigItems (ud : PersistentDB) : error + gmap string string :=
  match All_TeamConfig (db ud) with
  | inl err => inl err
  | inr items =>
      inr (fold_left (fun itemsMap item => <[config_key item := config_value item]> itemsMap)
             items ∅)
  end.

(** [JustGetConfig], [JustGetConfigInt] and [JustGetConfigBool] log the
    error and give the value. *)
Definition JustGetConfig (ud : PersistentDB) (key defaultValue : string) : string :=
  (GetConfig ud key defaultValue).1.
Definition JustGetConfigInt (ud : PersistentDB) (key : string) (defaultValue : Z) : Z :=
  (GetConfigInt ud key defaultValue).1.
Definition JustGetConfigBool (ud : PersistentDB) (key : string) (defaultValue : bool)
    : bool :=
  (GetConfigBool ud key defaultValue).1.

(** The keys of the [team_configs] and [gerrit_users] tables. *)
Definition configKeys (d : DB) : list string :=
  List.map config_key (team_configs d).
Definition usernames (d : DB) : list string :=
  List.map gerrit_username (gerrit_users d).

(** *** Opening the database *)

Inductive openError :=
| ErrInvalidDataSource (dbSource : string)   (* Invalid data source: %q *)
| ErrUnrecognizedDriver (driverName : string). (* unrecognized database driver name %q *)

(** [openPersistentDB] up to its call of [dbx.Open(driverName,
    dbSource)]: the two arguments of that call. *)
Definition openPersistentDB (dbSource : string) : openError + string * string :=
  match Strings.SplitN dbSource ":" 2 with
  | [driverName; location] =>
      if (String.eqb driverName "sqlite" || String.eqb driverName "sqlite3")%bool
      then inr ("sqlite3"%string, location)
      else if (String.eqb driverName "postgres" || String.eqb driverName "postgresql")%bool
      then inr ("postgres"%string, dbSource)
      else inl (ErrUnrecognizedDriver driverName)
  | _ => inl (ErrInvalidDataSource dbSource)
  end.

(** *** Sequences of calls *)

Section Calls.
Variable inlineCommentMaxAge : Duration.
Variable buildLifetimeDays : Z.
Variable AddDate : Time -> Z -> Z -> Z -> Time.

(** The calls that change a [PersistentDB] or its cache. *)
Inductive call :=
| CallLookupChatIDForGerritUser (gerritUsername : string)
| CallAssociateChatIDWithGerritUser (gerritUsername chatID : string)
| CallUpdateLastReportTime (gerritUsername : string) (when : Time)
| CallIdentifyNewInlineComments (commentsByID : gmap string Time)
| CallRecordPatchSetAnnouncements (env : nat -> Z * Time) (projectName : string)
    (changeNum patchSetNum : Z) (announcementHandles : list string)
| CallSetConfig (key value : string)
| CallPrune (now : Time)
| CallClose.

(** The [PersistentDB] after a call, whether the call returns an error
    or not. *)
Definition perform (ud : PersistentDB) (c : call) : PersistentDB :=
  match c with
  | CallLookupChatIDForGerritUser u => (LookupChatIDForGerritUser ud u).1
  | CallAssociateChatIDWithGerritUser u chatID =>
      (AssociateChatIDWithGerritUser ud u chatID).1
  | CallUpdateLastReportTime u when => (UpdateLastReportTime ud u when).1
  | CallIdentifyNewInlineComments m => (IdentifyNewInlineComments ud m).1.1
  | CallRecordPatchSetAnnouncements env p cn pn hs =>
      (RecordPatchSetAnnouncements ud env p cn pn hs).1
  | CallSetConfig key value => (SetConfig ud key value).1
  | CallPrune now => (Prune inlineCommentMaxAge buildLifetimeDays AddDate ud now).1
  | CallClose => (Close ud).1
  end.

End Calls.

(** No user name, no comment ID and no config key is twice in its
    table. *)
Definition keysDistinct (d : DB) : Prop :=
  NoDup (usernames d) /\ NoDup (commentIDs d) /\ NoDup (configKeys d).

End PersistentDB.

(** ** [bufio.Scanner] with the default split function [ScanLines] *)

Module Bufio.

(** [const MaxScanTokenSize = 64 * 1024]: a line of that many bytes or
    more (before its line feed) stops the scan with [ErrTooLong]. *)
Definition MaxScanTokenSize : N := 65536.

(** [dropCR] drops one terminal carriage return. *)
Fixpoint dropCR (data : string) : string :=
  match data with
  | EmptyString => EmptyString
  | String c EmptyString => if Ascii.eqb c Strings.CR then EmptyString else data
  | String c rest => String c (dropCR rest)
  end.

Definition tooLong (line : string) : bool :=
  (MaxScanTokenSize <=? N.of_nat (String.length line))%N.

(** The tokens [scanner.Scan()] delivers on [data], and whether
    [scanner.Err()] is set afterwards.  [line] holds the bytes of the
    current line read so far.  A final line without line feed is
    delivered when it is not empty. *)
Fixpoint scanFrom (data line : string) : list string * bool :=
  match data with
  | EmptyString =>
      match line with
      | EmptyString => ([], false)
      | _ => if tooLong line then ([], true) else ([dropCR line], false)
      end
  | String c rest =>
      if Ascii.eqb c Strings.LF
      then if tooLong line then ([], true)
           else let '(tokens, err) := scanFrom rest EmptyString in
                (dropCR line :: tokens, err)
      else scanFrom rest (line +:+ String c EmptyString)
  end.

Definition Scan (data : string) : list string * bool := scanFrom data EmptyString.

End Bufio.

(** ** [governor.go]: the governor and its teams *)

Module Governor.

Import Strings.

Inductive oserror :=
| ErrNotExist          (* the file does not exist *)
| ErrOpen | ErrWrite | ErrClose.

Inductive error :=
| ErrAlreadyActive (teamID : string)   (* team %s is already active *)
| ErrInvalidTeamID                     (* invalid team ID *)
| ErrInvalidSetupData                  (* invalid setup data *)
| ErrCouldNotAdd (e : oserror)         (* could not add team definition: %v *)
| ErrOS (e : oserror)                  (* the error of os.Open *)
| ErrInvalidLine                       (* invalid team definition line in %q *)
| ErrReading                           (* reading from %q: %v *)
| ErrSlackInit                         (* could not initialize slack connection: %v *)
| ErrParseDBSource                     (* could not parse %q: %v *)
| ErrOpenDB.                           (* could not open db: %v *)

(** The error classes of the specification. *)
Definition DuplicateTenant (e : error) : bool :=
  match e with ErrAlreadyActive _ => true | _ => false end.
Definition InvalidInput (e : error) : bool :=
  match e with ErrInvalidTeamID | ErrInvalidSetupData => true | _ => false end.

(** A Go call either returns or panics (which ends the process when no
    one recovers, as here). *)
Inductive panic := NilFuncCall | NilPointerDereference.
Inductive outcome (A : Type) :=
| Done (a : A)
| Panic (p : panic).
Arguments Done {A} a.
Arguments Panic {A} p.

(** Modelled from the spec: [app.App] and its [Close] method, of
    [app/app.go], which is not among the sources: the runtime owns the
    team's store, and stopping it closes the store. *)
Record App := mkApp { persistentDB : PersistentDB.PersistentDB }.

Definition App_Close (a : App) : App * option PersistentDB.error :=
  let '(ud, err) := PersistentDB.Close (persistentDB a) in (mkApp ud, err).

(** A [context.CancelFunc], named by the scope it cancels. *)
Inductive CancelFunc := cancelScope (scope : nat).

(** [type Team struct]; a nil [canceler] or [teamApp] is [None]. *)
Record Team := mkTeam {
  id : string;
  canceler : option CancelFunc;
  teamApp : option App;
  setupData : string;
  runError : option error
}.

Definition set_runError (t : Team) (e : error) : Team :=
  mkTeam (id t) (canceler t) (teamApp t) (setupData t) (Some e).
Definition set_teamApp (t : Team) (a : App) : Team :=
  mkTeam (id t) (canceler t) (Some a) (setupData t) (runError t).

(** [type Governor struct].  [teams] maps a team ID to a pointer; the
    [Team] objects live in [heap], at the address that is their index.
    [teamFile] is the content of the file of that name, [None] while the
    file does not exist. *)
Record Governor := mkGovernor {
  teams : gmap string nat;
  heap : list Team;
  teamFile : option string
}.

Definition set_teamFile (g : Governor) (f : option string) : Governor :=
  mkGovernor (teams g) (heap g) f.

Definition lineSep : string := String SP EmptyString.
Definition newline : string := String LF EmptyString.

(** [readTeamFile]: the loop over the scanned lines. *)
Fixpoint readTeamLines (lines : list string) (teamData : gmap string string)
    : error + gmap string string :=
  match lines with
  | [] => inr teamData
  | line :: rest =>
      let teamLine := TrimSpace line in
      if (String.eqb teamLine EmptyString || HasPrefix teamLine "#")%bool
      then readTeamLines rest teamData
      else match SplitN teamLine lineSep 2 with
           | [teamID; setup] => readTeamLines rest (<[teamID := setup]> teamData)
           | _ => inl ErrInvalidLine
           end
  end.

Definition readTeamFile (file : option string) : error + gmap string string :=
  match file with
  | None => inl (ErrOS ErrNotExist)
  | Some data =>
      let '(lines, scanErr) := Bufio.Scan data in
      match readTeamLines lines ∅ with
      | inl err => inl err
      | inr teamData => if scanErr then inl ErrReading else inr teamData
      end
  end.

(** What the operating system does with the one [OpenFile], [Write] and
    [Close] of [appendTeamDefinition]. *)
Inductive io :=
| IOSucceeds
| OpenFails
| WriteFails (written : nat)   (* after that many bytes *)
| CloseFails.

Definition appendTeamDefinition (os : io) (file : option string)
    (teamID setupData : string) : option string * option oserror :=
  let content := default EmptyString file in
  let dataLine := teamID +:+ lineSep +:+ setupData +:+ newline in
  match os with
  | OpenFails => (file, Some ErrOpen)
  | WriteFails n => (Some (content +:+ substring 0 n dataLine), Some ErrWrite)
  | CloseFails => (Some (content +:+ dataLine), Some ErrClose)
  | IOSucceeds => (Some (content +:+ dataLine), None)
  end.

(** [NewTeam]; the goroutine [go team.Run(...)] is the steps
    [EvRunStartup] and [EvRunExit] below. *)
Definition NewTeam (os : io) (g : Governor) (teamID setupData : string)
    : Governor * option error :=
  if decide (is_Some (teams g !! teamID)) then (g, Some (ErrAlreadyActive teamID))
  else if ContainsAny teamID (lineSep +:+ newline) then (g, Some ErrInvalidTeamID)
  else if Contains setupData newline then (g, Some ErrInvalidSetupData)
  else match appendTeamDefinition os (teamFile g) teamID setupData with
       | (file, Some err) => (set_teamFile g file, Some (ErrCouldNotAdd err))
       | (file, None) =>
           let team := mkTeam teamID None None setupData None in
           (mkGovernor (<[teamID := length (heap g)]> (teams g)) (heap g ++ [team]) file,
            None)
       end.

Definition StartTeam (g : Governor) (teamID setupData : string)
    : Governor * option error :=
  if decide (is_Some (teams g !! teamID)) then (g, Some (ErrAlreadyActive teamID))
  else
    let team := mkTeam teamID None None setupData None in
    (mkGovernor (<[teamID := length (heap g)]> (teams g)) (heap g ++ [team]) (teamFile g),
     None).

(** [NewGovernor]: a team file that does not exist stands for no teams;
    a team that fails to start is logged and skipped. *)
Definition NewGovernor (file : option string) : error + Governor :=
  let g := mkGovernor ∅ [] file in
  match readTeamFile file with
  | inl (ErrOS ErrNotExist) => inr g
  | inl err => inl err
  | inr teamData =>
      inr (fold_left (fun g kv => (StartTeam g kv.1 kv.2).1) (map_to_list teamData) g)
  end.

(** [func (t *Team) Close() error]: [t.canceler()], then
    [t.teamApp.Close()].  Calling a nil function panics; [App.Close] on a
    nil [teamApp] is taken to dereference it. *)
Definition Team_Close (t : Team) : outcome (Team * option PersistentDB.error) :=
  match canceler t with
  | None => Panic NilFuncCall
  | Some _ =>
      match teamApp t with
      | None => Panic NilPointerDereference
      | Some a => let '(a', err) := App_Close a in Done (set_teamApp t a', err)
      end
  end.

(** How far the start of [Team.Run] gets: [slack.NewSlackInterface]
    fails when [setupData] is not the JSON of an OAuth response,
    [addSearchPath] when the [persistent-db] flag does not parse, and
    [app.NewPersistentDB] when the database can not be opened. *)
Inductive startup :=
| SlackInterfaceFails
| AddSearchPathFails
| NewPersistentDBFails
| Started (ud : PersistentDB.PersistentDB).

(** [Team.Run] up to the launch of the two report loops.  (The cancel
    function of its scope stays in a local variable.) *)
Definition Run_startup (s : startup) (t : Team) : Team :=
  match s with
  | SlackInterfaceFails => set_runError t ErrSlackInit
  | AddSearchPathFails => set_runError t ErrParseDBSource
  | NewPersistentDBFails => set_runError t ErrOpenDB
  | Started ud => set_teamApp t (mkApp ud)
  end.

(** [Team.Run] from the return of [errGroup.Wait()] on. *)
Definition Run_exit (t : Team) : outcome Team :=
  match Team_Close t with
  | Done (t', _) => Done t'
  | Panic p => Panic p
  end.

(** What [team.teamApp.ChatEvent] returns: [nil], [slack.ErrStopTeam]
    (the app has been uninstalled from the team) or another error. *)
Inductive chatResult := ChatNil | ChatErrStopTeam | ChatErrOther.

(** A chat event as [slack.VerifyEventMessage] decodes it, as far as
    the governor looks at it: the URL verification handshake carries a
    challenge. *)
Inductive ChatEvent :=
| URLVerificationEvent (challenge : string)
| OtherChatEvent.

Inductive verifyError := BadEvent | ErrVerifyFailed | ErrParseEvent.

(** [slack.HandleNoTeamEvent] *)
Definition HandleNoTeamEvent (event : ChatEvent) : option string :=
  match event with
  | URLVerificationEvent challenge => Some challenge
  | OtherChatEvent => None
  end.

(** [VerifyAndHandleChatEvent], given what [slack.VerifyEventMessage]
    returns: the response bytes and the error, and the address of the
    team for which the goroutine is started, if the team is known.  The
    call itself leaves the governor as it is. *)
Definition VerifyAndHandleChatEvent (g : Governor)
    (verified : verifyError + ChatEvent * string)
    : option string * option verifyError * option nat :=
  match verified with
  | inl err => (None, Some err, None)
  | inr (event, teamID) =>
      match teams g !! teamID with
      | None => (HandleNoTeamEvent event, None, None)
      | Some a => (None, None, Some a)
      end
  end.

(** The goroutine of [VerifyAndHandleChatEvent], for the team at address
    [a] that was found under [teamID]; it runs at some later time, on the
    governor as it is then.  (A call of [ChatEvent] on a nil [teamApp] is
    taken to dereference it.) *)
Definition chatEventGoroutine (g : Governor) (a : nat) (teamID : string)
    (r : chatResult) : outcome Governor :=
  match heap g !! a with
  | None => Panic NilPointerDereference
  | Some team =>
      match teamApp team with
      | None => Panic NilPointerDereference
      | Some app =>
          match r with
          | ChatErrStopTeam =>
              let '(app', _) := App_Close app in
              Done (mkGovernor (delete teamID (teams g))
                      (<[a := set_teamApp team app']> (heap g))
                      (teamFile g))
          | _ => Done g
          end
      end
  end.

(** The steps of a governor: the exported calls, and the steps of the
    goroutines they start: [Team.Run] up to the start of its loops and
    from their end on, and the goroutine of a chat event.  A goroutine
    names its team by address, as the Go closure does.  The steps may
    come in any order, which covers every schedule of the goroutines. *)
Inductive event :=
| EvNewTeam (os : io) (teamID setupData : string)
| EvStartTeam (teamID setupData : string)
| EvRunStartup (a : nat) (s : startup)
| EvRunExit (a : nat)
| EvChatEvent (a : nat) (r : chatResult).

Definition step (g : Governor) (ev : event) : outcome Governor :=
  match ev with
  | EvNewTeam os teamID setupData => Done (NewTeam os g teamID setupData).1
  | EvStartTeam teamID setupData => Done (StartTeam g teamID setupData).1
  | EvRunStartup a s =>
      match heap g !! a with
      | Some team =>
          Done (mkGovernor (teams g) (<[a := Run_startup s team]> (heap g)) (teamFile g))
      | None => Done g
      end
  | EvRunExit a =>
      match heap g !! a with
      | Some team =>
          match Run_exit team with
          | Done team' =>
              Done (mkGovernor (teams g) (<[a := team']> (heap g)) (teamFile g))
          | Panic p => Panic p
          end
      | None => Done g
      end
  | EvChatEvent a r =>
      match heap g !! a with
      | Some team => chatEventGoroutine g a (id team) r
      | None => Done g
      end
  end.

Fixpoint run (g : Governor) (evs : list event) : outcome Governor :=
  match evs with
  | [] => Done g
  | ev :: evs' =>
      match step g ev with
      | Done g' => run g' evs'
      | Panic p => Panic p
      end
  end.

(** The states a governor can be in: those a run of steps reaches from
    the governor that [NewGovernor] builds before it starts any team. *)
Definition reachable (g : Governor) : Prop :=
  exists file evs, run (mkGovernor ∅ [] file) evs = Done g.

(** No team of the governor has a [canceler]. *)
Definition noCanceler (g : Governor) : Prop :=
  forall a t, heap g !! a = Some t -> canceler t = None.

(** Every entry of the map points to a team, and that team has the ID
    it is filed under. *)
Definition teamsValid (g : Governor) : Prop :=
  forall k a, teams g !! k = Some a ->
    exists t, heap g !! a = Some t /\ id t = k.

(** [GerritEventReceived]: the address of the team for which the
    goroutine that hands the event to [team.teamApp.GerritEvent] is
    started; an event for a team that is not in the map is logged and
    dropped.  The call leaves the governor as it is. *)
Definition GerritEventReceived (g : Governor) (teamID : string) : option nat :=
  teams g !! teamID.

(** The content of the team file, empty while the file does not exist. *)
Definition teamFileContent (g : Governor) : string := default EmptyString (teamFile g).

(** Every team of the map is a team as [StartTeam] builds it from the
    setup data that [teamData] holds for its ID, and the map has a team
    for each ID of [teamData]. *)
Definition started (g : Governor) (teamData : gmap string string) : Prop :=
  forall k,
    match teams g !! k with
    | Some a =>
        exists sd, teamData !! k = Some sd
                   /\ heap g !! a = Some (mkTeam k None None sd None)
    | None => teamData !! k = None
    end.

(** *** [addSearchPath] *)

(** [strings.HasSuffix(s, suffix)] *)
Definition HasSuffix (s suffix : string) : bool :=
  Nat.leb (String.length suffix) (String.length s)
  && String.eqb
       (String.substring (String.length s - String.length suffix)
          (String.length suffix) s)
       suffix.

(** [url.URL] and [url.Userinfo] of package [net/url]. *)
Record Userinfo := mkUserinfo {
  username : string;
  password : string;
  passwordSet : bool
}.

Record URL := mkURL {
  Scheme : string;
  Opaque : string;
  User : option Userinfo;
  Host : string;
  Path : string;
  RawPath : string;
  ForceQuery : bool;
  RawQuery : string;
  Fragment : string;
  RawFragment : string
}.

Definition set_Opaque (u : URL) (opaque : string) : URL :=
  mkURL (Scheme u) opaque (User u) (Host u) (Path u) (RawPath u) (ForceQuery u)
    (RawQuery u) (Fragment u) (RawFragment u).
Definition set_RawQuery (u : URL) (rawQuery : string) : URL :=
  mkURL (Scheme u) (Opaque u) (User u) (Host u) (Path u) (RawPath u) (ForceQuery u)
    rawQuery (Fragment u) (RawFragment u).

Inductive addSearchPathError :=
| ErrURLParse                                (* the error of url.Parse *)
| ErrUnrecognizedScheme (scheme : string).   (* unrecognized db scheme %q *)

(** The [switch] of [addSearchPath], on the parsed URL.
    [searchPathQuery rawQuery schemaName] stands for the query string
    that [u.Query()], [query.Set("options", "--search_path=" +
    pq.QuoteIdentifier(schemaName))] and [query.Encode()] make of
    [rawQuery]. *)
Definition addSearchPath_switch (searchPathQuery : string -> string -> string)
    (u : URL) (schemaName : string) : addSearchPathError + URL :=
  if (String.eqb (Scheme u) "postgres" || String.eqb (Scheme u) "postgresql")%bool
  then inr (set_RawQuery u (searchPathQuery (RawQuery u) schemaName))
  else if (String.eqb (Scheme u) "sqlite" || String.eqb (Scheme u) "sqlite3")%bool
  then
    let addSuffix := if HasSuffix (Opaque u) ".db" then ".db"%string else EmptyString in
    let opaque :=
      if HasSuffix (Opaque u) ".db"
      then String.substring 0 (String.length (Opaque u) - 3) (Opaque u)
      else Opaque u in
    inr (set_Opaque u (opaque +:+ "." +:+ schemaName +:+ addSuffix))
  else inl (ErrUnrecognizedScheme (Scheme u)).

(** [addSearchPath], with [url.Parse] ([None] for an error) and
    [u.String()] of package [net/url]. *)
Definition addSearchPath (Parse : string -> option URL) (URLString : URL -> string)
    (searchPathQuery : string -> string -> string) (dbURL schemaName : string)
    : addSearchPathError + string :=
  match Parse dbURL with
  | None => inl ErrURLParse
  | Some u =>
      match addSearchPath_switch searchPathQuery u schemaName with
      | inl err => inl err
      | inr u' => inr (URLString u')
      end
  end.

(** *** Team definitions that survive a restart *)

(** The team file is absent or empty, or its last byte is a line feed,
    so that what is appended starts a line. *)
Definition terminated (file : option string) : bool :=
  match file with
  | None => true
  | Some data =>
      match lastByte data with
      | None => true
      | Some c => Ascii.eqb c LF
      end
  end.

(** The team data that [NewGovernor] starts from: those of the file,
    none when there is no file. *)
Definition teamDataOf (file : option string) : error + gmap string string :=
  match file with
  | None => inr ∅
  | Some _ => readTeamFile file
  end.

(** A team definition whose line reads back as it was written: the ID
    starts with an ASCII byte that is neither white space nor the
    comment sign, the setup data end in an ASCII byte that is not white
    space (so [strings.TrimSpace] stays on its ASCII path and trims
    nothing), and the line is shorter than the buffer of the scanner. *)
Definition reloadable (teamID setupData : string) : bool :=
  match teamID with
  | String c _ => negb (asciiSpace c) && negb (Ascii.eqb c "#") && isASCII c
  | EmptyString => false
  end
  && match lastByte setupData with
     | Some c => negb (asciiSpace c) && isASCII c
     | None => false
     end
  && negb (Bufio.tooLong (teamID +:+ lineSep +:+ setupData)).

(** The steps of a governor after its start, with reloadable team
    definitions and no write that stops midway: [StartTeam] is called
    by [NewGovernor] only. *)
Definition orderly (ev : event) : bool :=
  match ev with
  | EvNewTeam os teamID setupData =>
      reloadable teamID setupData
      && match os with WriteFails _ => false | _ => true end
  | EvStartTeam _ _ => false
  | _ => true
  end.

(** The team file covers the map: it reads without error, and for each
    team of the map it holds the setup data of the team. *)
Definition covered (g : Governor) : Prop :=
  terminated (teamFile g) = true
  /\ exists teamData,
       teamDataOf (teamFile g) = inr teamData
       /\ forall k a, teams g !! k = Some a ->
            exists t, heap g !! a = Some t /\ teamData !! k = Some (setupData t).

End Governor.

(** ** [slack/slack.go]: the formatter of links *)

Module Slack.

Import Strings.

(** [strings.Index(s, substr)], [None] standing for -1. *)
Fixpoint Index (s substr : string) : option nat :=
  if HasPrefix s substr then Some 0%nat
  else match s with
       | EmptyString => None
       | String _ s' => option_map S (Index s' substr)
       end.

(** [s[i] == c] for an index [i] within the string. *)
Definition byteIs (s : string) (i : nat) (c : ascii) : bool :=
  match String.get i s with
  | Some d => Ascii.eqb d c
  | None => false
  end.

(** [s[i:j]] for [i <= j <= len(s)]. *)
Definition slice (s : string) (i j : nat) : string := String.substring i (j - i) s.

(** [strings.Count(s, substr)] for a non-empty [substr]: the
    occurrences that do not overlap, found from left to right; there
    are at most [len(s)] of them. *)
Fixpoint countFrom (fuel : nat) (s substr : string) : nat :=
  match fuel with
  | O => O
  | S fuel' =>
      match Cut s substr with
      | Some (_, after) => S (countFrom fuel' after substr)
      | None => O
      end
  end.

Definition Count (s substr : string) : nat := countFrom (String.length s) s substr.

(** [strings.Split(s, sep)] for a non-empty [sep]: [genSplit] with
    [n = Count(s, sep) + 1] substrings. *)
Definition Split (s sep : string) : list string := SplitN s sep (S (Count s sep)).

(** [strings.Join(elems, sep)] *)
Fixpoint Join (elems : list string) (sep : string) : string :=
  match elems with
  | [] => EmptyString
  | [a] => a
  | a :: rest => a +:+ sep +:+ Join rest sep
  end.

Definition FormatBlockQuote (msg : string) : string :=
  let lines := Split msg (String LF EmptyString) in
  "> " +:+ Join lines (String LF "> ").

(** [fmt.Sprintf("<@%s>", chatID)] and [fmt.Sprintf("<#%s>", channelID)] *)
Definition FormatUserLink (chatID : string) : string := "<@" +:+ chatID +:+ ">".
Definition FormatChannelLink (channelID : string) : string := "<#" +:+ channelID +:+ ">".

Section Escape.
(** [slackutilsx.EscapeMessage], of the Slack library. *)
Variable escapeText : string -> string.

(** [fmt.Sprintf("<%s|%s>", url, escapeText(text))] *)
Definition FormatLink (url text : string) : string :=
  "<" +:+ url +:+ "|" +:+ escapeText text +:+ ">".
End Escape.

Definition UnwrapUserLink (userLink : string) : string :=
  if (Nat.ltb 3 (String.length userLink)
      && byteIs userLink 0 "<" && byteIs userLink 1 "@"
      && byteIs userLink (String.length userLink - 1) ">")%bool
  then slice userLink 2 (String.length userLink - 1)
  else EmptyString.

Definition UnwrapChannelLink (channelLink : string) : string :=
  if (Nat.ltb 3 (String.length channelLink)
      && byteIs channelLink 0 "<" && byteIs channelLink 1 "#"
      && byteIs channelLink (String.length channelLink - 1) ">")%bool
  then
    let channelLink := slice channelLink 2 (String.length channelLink - 1) in
    match Index channelLink "|" with
    | Some pos => slice channelLink 0 pos
    | None => channelLink
    end
  else EmptyString.

(** A call returns a string or panics with [index out of range [i]
    with length n]. *)
Inductive result :=
| Returns (s : string)
| PanicIndexOutOfRange (i n : nat).

(** [UnwrapLink] reads [link[0]] without a look at the length. *)
Definition UnwrapLink (link : string) : result :=
  match String.get 0 link with
  | None => PanicIndexOutOfRange 0 (String.length link)
  | Some first =>
      if (Ascii.eqb first "<" && byteIs link (String.length link - 1) ">")%bool
      then
        let link := slice link 1 (String.length link - 1) in
        match Index link "|" with
        | Some pos => Returns (slice link 0 pos)
        | None => Returns link
        end
      else Returns link
  end.

End Slack.

(** * Evaluation on examples *)

(** [H : In v tokens] where [v] is none of the tokens. *)
Ltac no_token H :=
  simpl in H; repeat (destruct H as [H|H]; [discriminate H|]); destruct H.

Example FormatInt_32 : Strconv.FormatInt 32 32 = "10"%string.
Proof. reflexivity. Qed.
Example FormatInt_negative : Strconv.FormatInt (-1000) 32 = "-v8"%string.
Proof. reflexivity. Qed.
Example ParseInt_hex : Strconv.ParseInt "0x1F" 0 32 = inr 31.
Proof. reflexivity. Qed.
Example ParseInt_underscore : Strconv.ParseInt "1_000" 0 32 = inr 1000.
Proof. reflexivity. Qed.
Example ParseInt_underscores : Strconv.ParseInt "1__000" 0 32 = inl Strconv.ErrSyntax.
Proof. reflexivity. Qed.
Example ParseInt_range : Strconv.ParseInt "2147483648" 0 32 = inl Strconv.ErrRange.
Proof. reflexivity. Qed.
Example ParseInt_min : Strconv.ParseInt "-2147483648" 0 32 = inr (-2147483648).
Proof. reflexivity. Qed.
Example TrimSpace_ex : Strings.TrimSpace "  a b 	 "%string = "a b"%string.
Proof. reflexivity. Qed.
Example TrimSpace_unicode_ex :
  Strings.TrimSpace
    ("a b" +:+ String (ascii_of_nat 194) (String (ascii_of_nat 160) " "))
  = "a b"%string.
Proof. reflexivity. Qed.
Example SplitN_ex : Strings.SplitN "t1 s1 s2" " " 2 = ["t1"; "s1 s2"]%string.
Proof. reflexivity. Qed.

(** * Properties of the persistent store *)

Section ConfigFacts.
Import PersistentDB.

Lemma find_upsert_team_config (t : list TeamConfig) (key v : string) :
  exists r, List.find (fun r => String.eqb (config_key r) key)
              (upsert_team_config t (mkTeamConfig key v)) = Some r
            /\ config_value r = v.
Proof.
  induction t as [|r' t IH]; simpl.
  - rewrite String.eqb_refl. eauto.
  - destruct (String.eqb (config_key r') key) eqn:E; simpl; rewrite E; eauto.
Qed.

(** [SetConfig] on an open database stores the value under the key. *)
Lemma configRow_SetConfig (ud : PersistentDB) (key v : string) :
  closed (db ud) = false ->
  (SetConfig ud key v).2 = None
  /\ closed (db (SetConfig ud key v).1) = false
  /\ exists r, configRow (db (SetConfig ud key v).1) key = Some r /\ config_value r = v.
Proof.
  intros Hopen. unfold SetConfig, Exec_upsert_team_config, configRow.
  rewrite Hopen. simpl. split; [done|]. split; [done|].
  apply find_upsert_team_config.
Qed.

Lemma GetConfig_row (ud : PersistentDB) (key d : string) :
  closed (db ud) = false ->
  GetConfig ud key d
  = match configRow (db ud) key with
    | Some r => (config_value r, None)
    | None => (d, None)
    end.
Proof.
  intros Hopen. unfold GetConfig, Get_TeamConfig_ConfigValue_By_ConfigKey.
  rewrite Hopen. by destruct (configRow _ _).
Qed.

Lemma existsb_eqb_In (v : string) (l : list string) :
  existsb (String.eqb v) l = true <-> In v l.
Proof.
  rewrite existsb_exists. split.
  - intros (x & Hin & Heq). apply String.eqb_eq in Heq. by subst.
  - intros Hin. exists v. split; [done | apply String.eqb_refl].
Qed.

Lemma existsb_eqb_not_In (v : string) (l : list string) :
  ~ In v l -> existsb (String.eqb v) l = false.
Proof.
  intros Hn. destruct (existsb _ _) eqn:E; [|done].
  by apply existsb_eqb_In in E.
Qed.

(** The decision of [GetConfigBool] on the value [GetConfig] read. *)
Lemma GetConfigBool_of_value (ud : PersistentDB) (key v : string) (def : bool) :
  GetConfig ud key EmptyString = (v, None) ->
  GetConfigBool ud key def =
    match v with
    | EmptyString => (def, None)
    | _ =>
        if existsb (String.eqb (Strings.ToLower v))
             ["yes"; "y"; "1"; "on"; "true"; "t"]%string
        then (true, None)
        else if existsb (String.eqb (Strings.ToLower v))
                  ["no"; "n"; "0"; "off"; "false"; "f"]%string
        then (false, None)
        else (def, Some (ErrInvalidBoolean (Strings.ToLower v)))
    end.
Proof.
  intros H. unfold GetConfigBool. rewrite H. by destruct v.
Qed.

End ConfigFacts.

(** C8.  [GetConfigBool] reads a boolean config item: it gives
    [(true, nil)] when the stored value, lowercased, is one of yes, y, 1,
    on, true, t; [(false, nil)] when it is one of no, n, 0, off, false, f;
    [(defaultValue, nil)] when the stored value is empty or the key is
    absent; and [defaultValue] with an error for every other value. *)
Theorem GetConfigBool_tokens (ud : PersistentDB.PersistentDB) (key : string) (def : bool) :
  PersistentDB.closed (PersistentDB.db ud) = false ->
  match PersistentDB.configRow (PersistentDB.db ud) key with
  | None => PersistentDB.GetConfigBool ud key def = (def, None)
  | Some r =>
      let stored := PersistentDB.config_value r in
      (In (Strings.ToLower stored) ["yes"; "y"; "1"; "on"; "true"; "t"]%string ->
       PersistentDB.GetConfigBool ud key def = (true, None))
      /\ (In (Strings.ToLower stored) ["no"; "n"; "0"; "off"; "false"; "f"]%string ->
          PersistentDB.GetConfigBool ud key def = (false, None))
      /\ (stored = EmptyString -> PersistentDB.GetConfigBool ud key def = (def, None))
      /\ (stored <> EmptyString ->
          ~ In (Strings.ToLower stored) ["yes"; "y"; "1"; "on"; "true"; "t"]%string ->
          ~ In (Strings.ToLower stored) ["no"; "n"; "0"; "off"; "false"; "f"]%string ->
          exists err, PersistentDB.GetConfigBool ud key def = (def, Some err))
  end.
Proof.
  intros Hopen.
  pose proof (GetConfig_row ud key EmptyString Hopen) as Hget.
  destruct (PersistentDB.configRow (PersistentDB.db ud) key) as [r|].
  2: { by rewrite (GetConfigBool_of_value ud key EmptyString def Hget). }
  cbv zeta. set (v := PersistentDB.config_value r) in *.
  rewrite (GetConfigBool_of_value ud key v def Hget).
  split; [|split; [|split]].
  - intros Hin. destruct v as [|c v]; [by no_token Hin|].
    apply existsb_eqb_In in Hin. by rewrite Hin.
  - intros Hin. destruct v as [|c v]; [by no_token Hin|].
    destruct (existsb _ ["yes"; "y"; "1"; "on"; "true"; "t"]%string) eqn:E.
    + apply existsb_eqb_In in E. exfalso.
      destruct Hin as [H|[H|[H|[H|[H|[H|[]]]]]]]; rewrite <- H in E;
        by no_token E.
    + apply existsb_eqb_In in Hin. by rewrite Hin.
  - by intros ->.
  - intros Hne Ht Hf. destruct v as [|c v]; [done|].
    rewrite (existsb_eqb_not_In _ _ Ht), (existsb_eqb_not_In _ _ Hf). eauto.
Qed.

(** The four values of the specification's example, YES, 0, the empty
    string and maybe, each stored by [SetConfig]; and a key that is
    absent. *)
Lemma GetConfigBool_tokens_witness :
  let ud := PersistentDB.NewPersistentDB PersistentDB.emptyDB in
  let store v := (PersistentDB.SetConfig ud "k" v).1 in
  PersistentDB.GetConfigBool (store "YES"%string) "k" false = (true, None)
  /\ PersistentDB.GetConfigBool (store "0"%string) "k" true = (false, None)
  /\ PersistentDB.GetConfigBool (store EmptyString) "k" true = (true, None)
  /\ (exists err, PersistentDB.GetConfigBool (store "maybe"%string) "k" true = (true, Some err))
  /\ PersistentDB.GetConfigBool ud "k" true = (true, None).
Proof.
  intros ud store.
  pose proof (GetConfigBool_tokens (store "YES"%string) "k" false eq_refl) as Hyes.
  pose proof (GetConfigBool_tokens (store "0"%string) "k" true eq_refl) as Hzero.
  pose proof (GetConfigBool_tokens (store EmptyString) "k" true eq_refl) as Hempty.
  pose proof (GetConfigBool_tokens (store "maybe"%string) "k" true eq_refl) as Hmaybe.
  pose proof (GetConfigBool_tokens ud "k" true eq_refl) as Habsent.
  cbn [PersistentDB.configRow] in *.
  change (PersistentDB.configRow _ _) with (Some (PersistentDB.mkTeamConfig "k" "YES")) in Hyes.
  change (PersistentDB.configRow _ _) with (Some (PersistentDB.mkTeamConfig "k" "0")) in Hzero.
  change (PersistentDB.configRow _ _) with (Some (PersistentDB.mkTeamConfig "k" "")) in Hempty.
  change (PersistentDB.configRow _ _) with (Some (PersistentDB.mkTeamConfig "k" "maybe")) in Hmaybe.
  change (PersistentDB.configRow _ _) with (@None PersistentDB.TeamConfig) in Habsent.
  cbv beta iota zeta in Hyes, Hzero, Hempty, Hmaybe, Habsent.
  destruct Hyes as (Hyes & _), Hzero as (_ & Hzero & _),
    Hempty as (_ & _ & Hempty & _), Hmaybe as (_ & _ & _ & Hmaybe).
  split; [|split; [|split; [|split]]].
  - apply Hyes. simpl. tauto.
  - apply Hzero. simpl. tauto.
  - by apply Hempty.
  - apply Hmaybe; [done| |]; intros Hin; no_token Hin.
  - exact Habsent.
Defined.

(** ** Integer config items *)

Lemma SetConfigInt_32_reads_10 (ud : PersistentDB.PersistentDB) (key : string) (def : Z) :
  PersistentDB.closed (PersistentDB.db ud) = false ->
  (PersistentDB.SetConfigInt ud key 32).2 = None
  /\ PersistentDB.GetConfigInt (PersistentDB.SetConfigInt ud key 32).1 key def = (10, None).
Proof.
  intros Hopen. unfold PersistentDB.SetConfigInt.
  change (Strconv.FormatInt 32 32) with "10"%string.
  destruct (configRow_SetConfig ud key "10" Hopen) as (Hset & Hopen' & r & Hrow & Hval).
  split; [done|]. unfold PersistentDB.GetConfigInt.
  by rewrite (GetConfig_row _ key EmptyString Hopen'), Hrow, Hval.
Qed.

Lemma SetConfigInt_closed (ud : PersistentDB.PersistentDB) (key : string) (v def : Z) :
  PersistentDB.closed (PersistentDB.db ud) = true ->
  PersistentDB.GetConfigInt (PersistentDB.SetConfigInt ud key v).1 key def
  = (def, Some PersistentDB.ErrDBClosed).
Proof.
  intros Hc.
  unfold PersistentDB.SetConfigInt, PersistentDB.SetConfig,
    PersistentDB.Exec_upsert_team_config, PersistentDB.GetConfigInt,
    PersistentDB.GetConfig, PersistentDB.Get_TeamConfig_ConfigValue_By_ConfigKey.
  rewrite Hc. simpl. by rewrite Hc.
Qed.

(** C9.  [SetConfigInt] writes its argument in base 32 and [GetConfigInt]
    reads the stored text with the base taken from its prefix, so storing
    an integer and reading it back is not the identity: 32 is stored as
    the text 10 and read back as ten. *)
Theorem SetConfigInt_GetConfigInt_not_identity :
  exists v : Z,
    - 2 ^ 31 <= v < 2 ^ 31 /\
    forall (ud : PersistentDB.PersistentDB) (key : string) (def : Z),
      PersistentDB.GetConfigInt (PersistentDB.SetConfigInt ud key v).1 key def
      <> (v, None).
Proof.
  exists 32. split; [lia|]. intros ud key def.
  destruct (PersistentDB.closed (PersistentDB.db ud)) eqn:Hc.
  - by rewrite SetConfigInt_closed.
  - destruct (SetConfigInt_32_reads_10 ud key def Hc) as [_ ->]. congruence.
Qed.

(** ** Pruning *)

(** C7, as the code has it.  When [-2 * inlineCommentMaxAge] is in the
    range of a [time.Duration] and [- buildLifetimeDays] in the range of
    an [int], [Prune(now)] deletes the inline comments whose
    [updated_at] is strictly before [now - 2 * inlineCommentMaxAge] and
    the patchset announcements whose [ts] is strictly before [now] moved
    back by [buildLifetimeDays] days, and leaves every other row as it
    is: a row exactly at the limit stays. *)
Theorem Prune_deletes_exactly_the_old_rows
    (inlineCommentMaxAge buildLifetimeDays : Z)
    (AddDate : PersistentDB.Time -> Z -> Z -> Z -> PersistentDB.Time)
    (ud : PersistentDB.PersistentDB) (now : PersistentDB.Time) :
  PersistentDB.closed (PersistentDB.db ud) = false ->
  Strconv.minInt64 <= -2 * inlineCommentMaxAge <= Strconv.maxInt64 ->
  Strconv.minInt64 <= - buildLifetimeDays <= Strconv.maxInt64 ->
  let ud' := (PersistentDB.Prune inlineCommentMaxAge buildLifetimeDays AddDate ud now).1 in
  let d := PersistentDB.db ud in
  let d' := PersistentDB.db ud' in
  (PersistentDB.Prune inlineCommentMaxAge buildLifetimeDays AddDate ud now).2 = None
  /\ PersistentDB.inline_comments d' =
       List.filter
         (fun r => now - 2 * inlineCommentMaxAge <=? PersistentDB.updated_at r)
         (PersistentDB.inline_comments d)
  /\ PersistentDB.patchset_announcements d' =
       List.filter
         (fun r => AddDate now 0 0 (- buildLifetimeDays) <=? PersistentDB.ts r)
         (PersistentDB.patchset_announcements d)
  /\ PersistentDB.gerrit_users d' = PersistentDB.gerrit_users d
  /\ PersistentDB.team_configs d' = PersistentDB.team_configs d
  /\ (forall r, In r (PersistentDB.inline_comments d) ->
        PersistentDB.updated_at r = now - 2 * inlineCommentMaxAge ->
        In r (PersistentDB.inline_comments d')).
Proof.
  intros Hopen HW Hdays ud' d d'. subst ud' d d'.
  unfold PersistentDB.Prune, PersistentDB.Delete_InlineComment_By_UpdatedAt_Less,
    PersistentDB.Delete_PatchsetAnnouncement_By_Ts_Less, PersistentDB.Time_Add.
  rewrite Hopen. simpl. rewrite Hopen. simpl.
  assert (Hw : forall z, Strconv.minInt64 <= z <= Strconv.maxInt64 -> Strconv.wrap64 z = z).
  { intros z Hz. unfold Strconv.wrap64, Strconv.minInt64, Strconv.maxInt64 in *.
    rewrite Z.mod_small; lia. }
  rewrite !Hw by done.
  assert (Hf1 : List.filter (fun r => negb (PersistentDB.updated_at r <? now + -2 * inlineCommentMaxAge))
                  (PersistentDB.inline_comments (PersistentDB.db ud))
                = List.filter (fun r => now - 2 * inlineCommentMaxAge <=? PersistentDB.updated_at r)
                    (PersistentDB.inline_comments (PersistentDB.db ud))).
  { apply List.filter_ext. intros r.
    replace (now + -2 * inlineCommentMaxAge) with (now - 2 * inlineCommentMaxAge) by lia.
    rewrite Z.leb_antisym. done. }
  rewrite Hf1.
  split; [done|]. split; [done|]. split.
  { apply List.filter_ext. intros r. by rewrite Z.leb_antisym. }
  split; [done|]. split; [done|].
  intros r Hin Heq. apply List.filter_In. split; [done|]. rewrite Heq. lia.
Qed.

(** A retention window of one hour, seven days of build lifetime, in a
    location without clock changes: the row exactly two hours old stays,
    the row one nanosecond older goes. *)
Lemma Prune_deletes_exactly_the_old_rows_witness :
  let hour := 3600000000000 in
  let addDate := fun (t : PersistentDB.Time) (_ _ d : Z) => t + d * 24 * hour in
  let now := 1000 * hour in
  let d := PersistentDB.mkDB []
             [PersistentDB.mkInlineComment "at" (now - 2 * hour);
              PersistentDB.mkInlineComment "old" (now - 2 * hour - 1)] [] [] false in
  PersistentDB.inline_comments
    (PersistentDB.db (PersistentDB.Prune hour 7 addDate (PersistentDB.NewPersistentDB d) now).1)
  = [PersistentDB.mkInlineComment "at" (now - 2 * hour)].
Proof.
  intros hour addDate now d.
  pose proof (Prune_deletes_exactly_the_old_rows hour 7 addDate
                (PersistentDB.NewPersistentDB d) now) as H.
  destruct H as (_ & H & _).
  - reflexivity.
  - unfold Strconv.minInt64, Strconv.maxInt64. subst hour. lia.
  - unfold Strconv.minInt64, Strconv.maxInt64. lia.
  - rewrite H. reflexivity.
Defined.

(** C7 as the specification states it, for every window, fails: with a
    window of 2^62 + 1 nanoseconds the product [-2 * inlineCommentMaxAge]
    wraps around, the limit of the code lies in the future, and a row
    written at [now], which is not before [now - 2 * W], is deleted. *)
Lemma Prune_window_beyond_range_counterexample :
  let W := 2 ^ 62 + 1 in
  let now := 1000 in
  let addDate := fun (t : PersistentDB.Time) (_ _ d : Z) => t + d * 86400000000000 in
  let d := PersistentDB.mkDB [] [PersistentDB.mkInlineComment "new" now] [] [] false in
  now - 2 * W <= now
  /\ (PersistentDB.Prune W 7 addDate (PersistentDB.NewPersistentDB d) now).2 = None
  /\ PersistentDB.inline_comments
       (PersistentDB.db (PersistentDB.Prune W 7 addDate (PersistentDB.NewPersistentDB d) now).1)
     = [].
Proof. split; [by vm_compute|]. split; reflexivity. Qed.

(** ** The user directory and its cache *)

Section UserFacts.
Import PersistentDB.

Lemma find_snoc {A} (f : A -> bool) (l : list A) (x : A) :
  List.find f (l ++ [x]) =
    match List.find f l with
    | Some r => Some r
    | None => if f x then Some x else None
    end.
Proof. induction l as [|y l IH]; simpl; [done|]. by destruct (f y). Qed.

(** An association for a user who has a row fails and changes nothing. *)
Lemma Associate_known (ud : PersistentDB) (u c : string) (r : GerritUser) :
  closed (db ud) = false ->
  userRow (db ud) u = Some r ->
  AssociateChatIDWithGerritUser ud u c = (ud, Some (ErrUniqueViolation "gerrit_users")).
Proof.
  intros Hopen Hrow.
  unfold AssociateChatIDWithGerritUser, CreateNoReturn_GerritUser.
  by rewrite Hopen, Hrow.
Qed.

(** An association for a user without a row creates the row and caches
    the chat ID. *)
Lemma Associate_fresh (ud : PersistentDB) (u c : string) :
  closed (db ud) = false ->
  userRow (db ud) u = None ->
  exists ud',
    AssociateChatIDWithGerritUser ud u c = (ud', None)
    /\ closed (db ud') = false
    /\ userRow (db ud') u = Some (mkGerritUser u c None)
    /\ cache ud' = <[u := c]> (cache ud)
    /\ (cacheAgrees ud -> cacheAgrees ud').
Proof.
  intros Hopen Hrow.
  unfold AssociateChatIDWithGerritUser, CreateNoReturn_GerritUser.
  rewrite Hopen, Hrow. unfold userRow in Hrow.
  eexists. split; [done|]. simpl. split; [done|]. split.
  { unfold userRow. simpl. rewrite find_snoc, Hrow. simpl.
    by rewrite String.eqb_refl. }
  split; [done|].
  intros Hagree u' c'. simpl. unfold userRow. simpl. rewrite find_snoc.
  destruct (decide (u = u')) as [<-|Hne].
  - rewrite lookup_insert_eq. intros [= <-]. rewrite Hrow. simpl.
    rewrite String.eqb_refl. eauto.
  - rewrite lookup_insert_ne by done. intros Hc.
    destruct (Hagree u' c' Hc) as (r & Hr & <-). unfold userRow in Hr.
    rewrite Hr. eauto.
Qed.

Lemma AssociateAll_known (ud : PersistentDB) (u : string) (cs : list string)
    (r : GerritUser) :
  closed (db ud) = false ->
  userRow (db ud) u = Some r ->
  AssociateAll ud u cs
  = (ud, List.map (fun _ => Some (ErrUniqueViolation "gerrit_users")) cs).
Proof.
  intros Hopen Hrow. induction cs as [|c cs IH]; simpl; [done|].
  by rewrite (Associate_known ud u c r Hopen Hrow), IH.
Qed.

(** A lookup gives the chat ID of the user's row, from the cache or
    from the table. *)
Lemma Lookup_row (ud : PersistentDB) (u : string) (r : GerritUser) :
  closed (db ud) = false ->
  cacheAgrees ud ->
  userRow (db ud) u = Some r ->
  (LookupChatIDForGerritUser ud u).2 = (chat_id r, None).
Proof.
  intros Hopen Hagree Hrow. unfold LookupChatIDForGerritUser.
  destruct (cache ud !! u) as [c|] eqn:Hc.
  - destruct (Hagree u c Hc) as (r' & Hr' & <-).
    rewrite Hrow in Hr'. by injection Hr' as ->.
  - unfold LookupGerritUser, Get_GerritUser_By_GerritUsername.
    rewrite Hopen. by rewrite Hrow.
Qed.

Lemma cacheAgrees_cold (d : DB) : cacheAgrees (NewPersistentDB d).
Proof. intros u c. simpl. by rewrite lookup_empty. Qed.

(** The calls keep the cache in agreement with the table. *)
Lemma Lookup_cacheAgrees (ud : PersistentDB) (u : string) :
  cacheAgrees ud -> cacheAgrees (LookupChatIDForGerritUser ud u).1.
Proof.
  intros Hagree. unfold LookupChatIDForGerritUser.
  destruct (cache ud !! u) as [c|] eqn:Hc; [done|].
  unfold LookupGerritUser, Get_GerritUser_By_GerritUsername.
  destruct (closed (db ud)); [done|].
  destruct (userRow (db ud) u) as [r|] eqn:Hrow; [|done].
  intros u' c'. simpl. destruct (decide (u = u')) as [<-|Hne].
  - rewrite lookup_insert_eq. intros [= <-]. eauto.
  - rewrite lookup_insert_ne by done. apply Hagree.
Qed.

Lemma Associate_cacheAgrees (ud : PersistentDB) (u c : string) :
  cacheAgrees ud -> cacheAgrees (AssociateChatIDWithGerritUser ud u c).1.
Proof.
  intros Hagree.
  destruct (closed (db ud)) eqn:Hopen.
  { unfold AssociateChatIDWithGerritUser, CreateNoReturn_GerritUser. by rewrite Hopen. }
  destruct (userRow (db ud) u) as [r|] eqn:Hrow.
  - by rewrite (Associate_known ud u c r Hopen Hrow).
  - destruct (Associate_fresh ud u c Hopen Hrow) as (ud' & -> & _ & _ & _ & H).
    by apply H.
Qed.

End UserFacts.

(** C5, as the code has it.  After any sequence of
    [AssociateChatIDWithGerritUser] calls for a user, a lookup gives the
    chat ID of the user's row, with the cache as the calls left it and
    with a cold cache alike.  The row is created by the first association
    of a user that has none; every later association of that user fails
    on the primary key and changes neither the table nor the cache, so the
    chat ID resolved is the first one associated, not the last. *)
Theorem Lookup_after_associations
    (ud : PersistentDB.PersistentDB) (u c : string) (cs : list string) :
  PersistentDB.closed (PersistentDB.db ud) = false ->
  PersistentDB.cacheAgrees ud ->
  PersistentDB.userRow (PersistentDB.db ud) u = None ->
  let ud' := (PersistentDB.AssociateAll ud u (c :: cs)).1 in
  (PersistentDB.AssociateAll ud u (c :: cs)).2
    = None :: List.map (fun _ => Some (PersistentDB.ErrUniqueViolation "gerrit_users")) cs
  /\ (PersistentDB.LookupChatIDForGerritUser ud' u).2 = (c, None)
  /\ (PersistentDB.LookupChatIDForGerritUser
        (PersistentDB.NewPersistentDB (PersistentDB.db ud')) u).2 = (c, None).
Proof.
  intros Hopen Hagree Hrow. simpl.
  destruct (Associate_fresh ud u c Hopen Hrow) as (ud1 & -> & Hopen1 & Hrow1 & _ & Hagree1).
  rewrite (AssociateAll_known ud1 u cs _ Hopen1 Hrow1). simpl.
  split; [done|]. split.
  - by rewrite (Lookup_row ud1 u _ Hopen1 (Hagree1 Hagree) Hrow1).
  - by rewrite (Lookup_row (PersistentDB.NewPersistentDB (PersistentDB.db ud1)) u _
                  Hopen1 (cacheAgrees_cold _) Hrow1).
Qed.

Lemma Lookup_after_associations_witness :
  let ud := (PersistentDB.AssociateAll (PersistentDB.NewPersistentDB PersistentDB.emptyDB)
               "alice" ["U1"; "U2"; "U3"]%string).1 in
  (PersistentDB.LookupChatIDForGerritUser ud "alice").2 = ("U1"%string, None).
Proof.
  intros ud.
  apply (Lookup_after_associations (PersistentDB.NewPersistentDB PersistentDB.emptyDB)
           "alice" "U1" ["U2"; "U3"]%string).
  - reflexivity.
  - apply cacheAgrees_cold.
  - reflexivity.
Defined.

(** C5 as the specification states it fails: the second association of a
    user is refused, and the lookup gives the first chat ID, with a warm
    cache and with a cold one. *)
Lemma Lookup_last_association_counterexample :
  let ud0 := PersistentDB.NewPersistentDB PersistentDB.emptyDB in
  let '(ud1, err1) := PersistentDB.AssociateChatIDWithGerritUser ud0 "alice" "U1" in
  let '(ud2, err2) := PersistentDB.AssociateChatIDWithGerritUser ud1 "alice" "U2" in
  err1 = None
  /\ err2 = Some (PersistentDB.ErrUniqueViolation "gerrit_users")
  /\ (PersistentDB.LookupChatIDForGerritUser ud2 "alice").2 = ("U1"%string, None)
  /\ (PersistentDB.LookupChatIDForGerritUser
        (PersistentDB.NewPersistentDB (PersistentDB.db ud2)) "alice").2
     = ("U1"%string, None)
  /\ "U1"%string <> "U2"%string.
Proof. vm_compute. repeat split. discriminate. Qed.

(** ** The inline comments already seen *)

Section CommentFacts.
Import PersistentDB.

Lemma lookup_fold_delete (ks : list string) (m : gmap string Time) (k : string) :
  fold_left (fun m found => delete found m) ks m !! k
  = if decide (k ∈ ks) then None else m !! k.
Proof.
  revert m. induction ks as [|k' ks IH]; intros m.
  - simpl. destruct (decide (k ∈ [])) as [Hin|_]; [|done]. by inversion Hin.
  - change (fold_left (fun m found => delete found m) ks (delete k' m) !! k
            = if decide (k ∈ k' :: ks) then None else m !! k).
    rewrite IH, lookup_delete.
    destruct (decide (k ∈ ks)) as [H1|H1].
    { rewrite decide_True; [done | by apply list_elem_of_further]. }
    destruct (decide (k' = k)) as [H2|H2].
    { rewrite decide_True; [done | rewrite H2; apply list_elem_of_here]. }
    rewrite decide_False; [done|]. intros H3.
    apply elem_of_cons in H3 as [H3|H3]; [by destruct H2 | by destruct H1].
Qed.

(** The rows the SELECT finds are the keys of the table that are among
    the arguments. *)
Lemma elem_of_selected (t : list InlineComment) (args : list string) (k : string) :
  k ∈ List.map comment_id
        (List.filter (fun r => existsb (String.eqb (comment_id r)) args) t)
  <-> k ∈ List.map comment_id t /\ k ∈ args.
Proof.
  rewrite !list_elem_of_In, !List.in_map_iff. split.
  - intros (r & <- & Hr). apply List.filter_In in Hr as [Hr Hex].
    apply existsb_eqb_In in Hex. split; [eauto|done].
  - intros [(r & <- & Hr) Hargs]. exists r. split; [done|].
    apply List.filter_In. split; [done|].
    by apply existsb_eqb_In.
Qed.

Lemma upsert_fresh (t : list InlineComment) (r : InlineComment) :
  comment_id r ∉ List.map comment_id t ->
  upsert_inline_comment t r = t ++ [r].
Proof.
  induction t as [|r' t IH]; simpl; intros Hnin; [done|].
  destruct (String.eqb (comment_id r') (comment_id r)) eqn:E.
  - apply String.eqb_eq in E. rewrite E in Hnin.
    destruct Hnin. apply list_elem_of_here.
  - rewrite IH; [done|]. intros Hin. apply Hnin. by apply list_elem_of_further.
Qed.

Lemma fold_upsert_fresh (new t : list InlineComment) :
  NoDup (List.map comment_id new) ->
  (forall r, r ∈ new -> comment_id r ∉ List.map comment_id t) ->
  fold_left upsert_inline_comment new t = t ++ new.
Proof.
  revert t. induction new as [|r new IH]; intros t Hnd Hfresh; simpl.
  - by rewrite app_nil_r.
  - rewrite upsert_fresh by (apply Hfresh; apply list_elem_of_here).
    simpl in Hnd. apply NoDup_cons in Hnd as [Hr Hnd].
    rewrite IH; [by rewrite <- app_assoc| done |].
    intros r' Hr'. rewrite List.map_app. simpl.
    rewrite elem_of_app. intros [Hin|Hin].
    + by apply (Hfresh r'); [apply list_elem_of_further|].
    + apply list_elem_of_singleton in Hin. apply Hr. rewrite <- Hin.
      apply list_elem_of_In, List.in_map. by apply list_elem_of_In.
Qed.

Lemma elem_of_newRows (m : gmap string Time) (k : string) (t : Time) :
  mkInlineComment k t ∈ newRows m <-> m !! k = Some t.
Proof.
  unfold newRows. rewrite list_elem_of_In, List.in_map_iff. split.
  - intros ([k' t'] & [= -> ->] & Hin).
    by apply elem_of_map_to_list, list_elem_of_In.
  - intros Hm. exists (k, t). split; [done|].
    by apply list_elem_of_In, elem_of_map_to_list.
Qed.

Lemma newRows_keys (m : gmap string Time) :
  List.map comment_id (newRows m) = (map_to_list m).*1.
Proof.
  unfold newRows. rewrite List.map_map. simpl.
  induction (map_to_list m) as [|[k t] l IH]; simpl; [done|]. by rewrite IH.
Qed.

(** On an open database the call succeeds: it takes the known IDs out
    of the caller's map and appends one row for each ID that is left. *)
Lemma Identify_open (ud : PersistentDB) (m : gmap string Time) :
  closed (db ud) = false ->
  exists ud' m',
    IdentifyNewInlineComments ud m = (ud', m', None)
    /\ (forall k, m' !! k = if decide (k ∈ commentIDs (db ud)) then None else m !! k)
    /\ inline_comments (db ud') = inline_comments (db ud) ++ newRows m'
    /\ closed (db ud') = false.
Proof.
  intros Hopen. unfold IdentifyNewInlineComments.
  destruct (decide (size m = 0%nat)) as [Hz|Hnz].
  { apply map_size_empty_iff in Hz. subst m. exists ud, ∅.
    split; [done|]. split.
    - intros k. rewrite lookup_empty. by destruct (decide _).
    - unfold newRows. rewrite map_to_list_empty. simpl. by rewrite app_nil_r. }
  unfold Query_inline_comment_ids. rewrite Hopen.
  set (rows := List.map comment_id _).
  set (m' := fold_left _ rows m).
  assert (Hm' : forall k, m' !! k
                = if decide (k ∈ commentIDs (db ud)) then None else m !! k).
  { intros k. unfold m'. rewrite lookup_fold_delete.
    destruct (decide (k ∈ rows)) as [Hin|Hnin].
    - apply elem_of_selected in Hin as [Hin _].
      by rewrite decide_True.
    - destruct (decide (k ∈ commentIDs (db ud))) as [Hk|Hk]; [|done].
      destruct (m !! k) as [t|] eqn:Hmk; [|done].
      exfalso. apply Hnin. apply elem_of_selected. split; [done|].
      apply list_elem_of_fmap. exists (k, t). split; [done|].
      by apply elem_of_map_to_list. }
  destruct (decide (size m' = 0%nat)) as [Hz'|Hnz'].
  { apply map_size_empty_iff in Hz'. exists ud, m'.
    split; [done|]. split; [done|]. rewrite Hz'.
    unfold newRows. rewrite map_to_list_empty. simpl. by rewrite app_nil_r. }
  unfold Exec_upsert_inline_comments. rewrite Hopen.
  exists (set_db ud (set_inline_comments (db ud)
            (fold_left upsert_inline_comment (newRows m') (inline_comments (db ud))))), m'.
  split; [done|]. split; [done|]. simpl. split; [|done].
  apply fold_upsert_fresh.
  - rewrite newRows_keys. apply NoDup_fst_map_to_list.
  - intros [k t] Hr. apply elem_of_newRows in Hr. simpl.
    intros Hk. rewrite Hm', decide_True in Hr by done. done.
Qed.

Lemma Identify_closed (ud : PersistentDB) (m : gmap string Time) :
  closed (db ud) = true ->
  IdentifyNewInlineComments ud m
  = (ud, m, if decide (size m = 0%nat) then None else Some ErrDBClosed).
Proof.
  intros Hc. unfold IdentifyNewInlineComments, Query_inline_comment_ids.
  rewrite Hc. by destruct (decide _).
Qed.

(** Whatever the call does, the table grows by rows with new, distinct
    keys only. *)
Lemma Identify_extends (ud : PersistentDB) (m : gmap string Time) :
  exists new,
    inline_comments (db (IdentifyNewInlineComments ud m).1.1)
    = inline_comments (db ud) ++ new
    /\ NoDup (List.map comment_id new)
    /\ forall k, k ∈ List.map comment_id new -> k ∉ commentIDs (db ud).
Proof.
  destruct (closed (db ud)) eqn:Hc.
  - rewrite Identify_closed by done. exists []. simpl.
    rewrite app_nil_r. split; [done|]. split; [constructor|].
    intros k Hk. by inversion Hk.
  - destruct (Identify_open ud m Hc) as (ud' & m' & -> & Hm' & Ht & _).
    exists (newRows m'). simpl. split; [done|]. rewrite newRows_keys. split.
    + apply NoDup_fst_map_to_list.
    + intros k Hk Hin. apply list_elem_of_fmap in Hk as ([k' t] & -> & Hk).
      apply elem_of_map_to_list in Hk. simpl in *.
      by rewrite Hm', decide_True in Hk.
Qed.

Lemma Identify_keeps_keys_distinct (ud : PersistentDB) (m : gmap string Time) :
  NoDup (commentIDs (db ud)) ->
  NoDup (commentIDs (db (IdentifyNewInlineComments ud m).1.1)).
Proof.
  intros Hnd. destruct (Identify_extends ud m) as (new & Ht & Hnew & Hfresh).
  unfold commentIDs in *. rewrite Ht, List.map_app. apply NoDup_app.
  split; [done|]. split; [|done]. intros k Hk Hk'. by apply (Hfresh k).
Qed.

(** With distinct keys, a key names one row. *)
Lemma row_of_key (t : list InlineComment) (r r' : InlineComment) :
  NoDup (List.map comment_id t) ->
  r ∈ t -> r' ∈ t -> comment_id r' = comment_id r -> r' = r.
Proof.
  induction t as [|x t IH]; simpl; intros Hnd Hr Hr' Hid.
  - by inversion Hr.
  - apply NoDup_cons in Hnd as [Hx Hnd].
    assert (Hkey : forall y : InlineComment, y ∈ t -> comment_id y ∈ List.map comment_id t).
    { intros y Hy. apply list_elem_of_In, List.in_map. by apply list_elem_of_In. }
    apply elem_of_cons in Hr as [->|Hr]; apply elem_of_cons in Hr' as [->|Hr'].
    + done.
    + destruct Hx. rewrite <- Hid. by apply Hkey.
    + destruct Hx. rewrite Hid. by apply Hkey.
    + by apply IH.
Qed.

End CommentFacts.

(** C10.  [IdentifyNewInlineComments] changes the map of its caller:
    after a call that succeeds, every ID that was in the table before is
    gone from the map, and the entries that are left are exactly the rows
    the call has added to the table. *)
Theorem IdentifyNewInlineComments_leaves_new_ids
    (ud ud' : PersistentDB.PersistentDB)
    (commentsByID commentsByID' : gmap string PersistentDB.Time) :
  PersistentDB.IdentifyNewInlineComments ud commentsByID = (ud', commentsByID', None) ->
  (forall k, commentsByID' !! k
             = if decide (k ∈ PersistentDB.commentIDs (PersistentDB.db ud))
               then None else commentsByID !! k)
  /\ (forall k t,
        commentsByID' !! k = Some t
        <-> PersistentDB.mkInlineComment k t
              ∈ PersistentDB.inline_comments (PersistentDB.db ud')
            /\ k ∉ PersistentDB.commentIDs (PersistentDB.db ud)).
Proof.
  intros Hcall.
  assert (Hshape :
    (forall k, commentsByID' !! k
               = if decide (k ∈ PersistentDB.commentIDs (PersistentDB.db ud))
                 then None else commentsByID !! k)
    /\ PersistentDB.inline_comments (PersistentDB.db ud')
       = PersistentDB.inline_comments (PersistentDB.db ud) ++ PersistentDB.newRows commentsByID').
  { destruct (PersistentDB.closed (PersistentDB.db ud)) eqn:Hc.
    - rewrite Identify_closed in Hcall by done.
      destruct (decide (size commentsByID = 0%nat)) as [Hz|Hnz]; [|done].
      injection Hcall as <- <-. apply map_size_empty_iff in Hz. subst commentsByID.
      split.
      + intros k. rewrite lookup_empty. by destruct (decide _).
      + unfold PersistentDB.newRows. rewrite map_to_list_empty. simpl. by rewrite app_nil_r.
    - destruct (Identify_open ud commentsByID Hc) as (ud1 & m1 & Heq & Hm & Ht & _).
      rewrite Heq in Hcall. injection Hcall as <- <-. done. }
  destruct Hshape as [Hm Ht]. split; [done|].
  intros k t. rewrite Ht, elem_of_app, elem_of_newRows. split.
  - intros Hk. split; [by right|]. intros Hin.
    by rewrite Hm, decide_True in Hk.
  - intros [[Hin|Hin] Hfresh]; [|done].
    destruct Hfresh. unfold PersistentDB.commentIDs.
    apply list_elem_of_In, List.in_map_iff. eexists. split; [|by apply list_elem_of_In].
    done.
Qed.

Lemma IdentifyNewInlineComments_leaves_new_ids_witness :
  let d := PersistentDB.mkDB [] [PersistentDB.mkInlineComment "c1" 10] [] [] false in
  let r := PersistentDB.IdentifyNewInlineComments (PersistentDB.NewPersistentDB d)
             (<["c1"%string := 20]> (<["c2"%string := 20]> ∅)) in
  r.2 = None /\ r.1.2 !! "c1"%string = None /\ r.1.2 !! "c2"%string = Some 20.
Proof.
  intros d r.
  assert (Hr : r = (r.1.1, r.1.2, None)) by (vm_compute; reflexivity).
  destruct (IdentifyNewInlineComments_leaves_new_ids _ _ _ _ Hr) as [Hm _].
  split; [by rewrite Hr|]. rewrite !Hm. split; reflexivity.
Defined.

(** C6, as the code has it.  A call with an empty map does nothing.  Two
    calls with overlapping ID sets never leave two rows with one ID; a row
    that is in the table when an ID is recorded again stays as it is, its
    timestamp included. *)
Theorem IdentifyNewInlineComments_twice
    (ud : PersistentDB.PersistentDB) (m1 m2 : gmap string PersistentDB.Time) :
  NoDup (PersistentDB.commentIDs (PersistentDB.db ud)) ->
  let ud1 := (PersistentDB.IdentifyNewInlineComments ud m1).1.1 in
  let ud2 := (PersistentDB.IdentifyNewInlineComments ud1 m2).1.1 in
  PersistentDB.IdentifyNewInlineComments ud ∅ = (ud, ∅, None)
  /\ NoDup (PersistentDB.commentIDs (PersistentDB.db ud1))
  /\ NoDup (PersistentDB.commentIDs (PersistentDB.db ud2))
  /\ (forall r, r ∈ PersistentDB.inline_comments (PersistentDB.db ud1) ->
                r ∈ PersistentDB.inline_comments (PersistentDB.db ud2))
  /\ (forall r r', r ∈ PersistentDB.inline_comments (PersistentDB.db ud1) ->
                   r' ∈ PersistentDB.inline_comments (PersistentDB.db ud2) ->
                   PersistentDB.comment_id r' = PersistentDB.comment_id r ->
                   PersistentDB.updated_at r' = PersistentDB.updated_at r).
Proof.
  intros Hnd ud1 ud2.
  assert (Hnd1 : NoDup (PersistentDB.commentIDs (PersistentDB.db ud1)))
    by by apply Identify_keeps_keys_distinct.
  assert (Hnd2 : NoDup (PersistentDB.commentIDs (PersistentDB.db ud2)))
    by by apply Identify_keeps_keys_distinct.
  assert (Hkeep : forall r, r ∈ PersistentDB.inline_comments (PersistentDB.db ud1) ->
                            r ∈ PersistentDB.inline_comments (PersistentDB.db ud2)).
  { intros r Hr. destruct (Identify_extends ud1 m2) as (new & Ht & _).
    fold ud2 in Ht. rewrite Ht. apply elem_of_app. by left. }
  split; [done|]. split; [done|]. split; [done|]. split; [done|].
  intros r r' Hr Hr' Hid. apply Hkeep in Hr.
  enough (r' = r) by by subst.
  by apply (row_of_key (PersistentDB.inline_comments (PersistentDB.db ud2))).
Qed.

Lemma IdentifyNewInlineComments_twice_witness :
  let ud := PersistentDB.NewPersistentDB PersistentDB.emptyDB in
  let m1 : gmap string PersistentDB.Time := <["c1"%string := 10]> (<["c2"%string := 10]> ∅) in
  let m2 : gmap string PersistentDB.Time := <["c2"%string := 20]> (<["c3"%string := 20]> ∅) in
  let ud1 := (PersistentDB.IdentifyNewInlineComments ud m1).1.1 in
  let ud2 := (PersistentDB.IdentifyNewInlineComments ud1 m2).1.1 in
  NoDup (PersistentDB.commentIDs (PersistentDB.db ud2)).
Proof.
  intros ud m1 m2 ud1 ud2.
  apply (IdentifyNewInlineComments_twice ud m1 m2). constructor.
Defined.

(** C6 as the specification states it fails: an ID recorded a second
    time, with a later time, keeps the timestamp of its first recording. *)
Lemma IdentifyNewInlineComments_refresh_counterexample :
  let ud := PersistentDB.NewPersistentDB PersistentDB.emptyDB in
  let m1 : gmap string PersistentDB.Time := <["c1"%string := 10]> (<["c2"%string := 10]> ∅) in
  let m2 : gmap string PersistentDB.Time := <["c2"%string := 20]> (<["c3"%string := 20]> ∅) in
  let r1 := PersistentDB.IdentifyNewInlineComments ud m1 in
  let r2 := PersistentDB.IdentifyNewInlineComments r1.1.1 m2 in
  r1.2 = None /\ r2.2 = None
  /\ m2 !! "c2"%string = Some 20
  /\ List.filter (fun r => String.eqb (PersistentDB.comment_id r) "c2")
       (PersistentDB.inline_comments (PersistentDB.db r2.1.1))
     = [PersistentDB.mkInlineComment "c2" 10]
  /\ 10 <> 20.
Proof. vm_compute. repeat split. discriminate. Qed.

(** * Properties of the governor *)

(** ** Facts on strings and on scanned lines *)

Section StringFacts.
Import Strings Governor.
Local Arguments Ascii.eqb : simpl never.

Lemma append_cons (x : ascii) (a b : string) : String x a +:+ b = String x (a +:+ b).
Proof. reflexivity. Qed.

Lemma append_empty_l (b : string) : EmptyString +:+ b = b.
Proof. reflexivity. Qed.

Lemma append_assoc (a b c : string) : (a +:+ b) +:+ c = a +:+ (b +:+ c).
Proof.
  induction a as [|x a IH]; [done|]. by rewrite !append_cons, IH.
Qed.

Lemma append_empty_r (a : string) : a +:+ EmptyString = a.
Proof. induction a as [|x a IH]; [done|]. by rewrite append_cons, IH. Qed.

Lemma append_not_empty (a b : string) : b <> EmptyString -> a +:+ b <> EmptyString.
Proof. by destruct a. Qed.

Lemma IndexByte_append (c : ascii) (a b : string) :
  IndexByte c (a +:+ b) = (IndexByte c a || IndexByte c b)%bool.
Proof.
  induction a as [|x a IH]; [done|].
  rewrite append_cons. simpl. by rewrite IH, orb_assoc.
Qed.

Lemma Contains_newline (s : string) :
  Contains s newline = false -> IndexByte LF s = false.
Proof.
  induction s as [|c s IH]; [done|].
  unfold newline in *. simpl. rewrite andb_true_r.
  intros H. apply orb_false_elim in H as [Hc Hs].
  by rewrite (Ascii.eqb_sym LF c), Hc, IH.
Qed.

Lemma ContainsAny_separators (s : string) :
  ContainsAny s (lineSep +:+ newline) = false ->
  IndexByte SP s = false /\ IndexByte LF s = false.
Proof.
  induction s as [|c s IH]; simpl; [done|].
  intros H. apply orb_false_elim in H as [Hc Hs].
  destruct (IH Hs) as [-> ->].
  apply orb_false_elim in Hc as [Hsp Hlf]. apply orb_false_elim in Hlf as [Hlf _].
  by rewrite (Ascii.eqb_sym SP c), (Ascii.eqb_sym LF c), Hsp, Hlf.
Qed.

(** A text without line feed, followed by a line feed, is one line. *)
Lemma scanFrom_one_line (s line : string) :
  IndexByte LF s = false ->
  Bufio.tooLong (line +:+ s) = false ->
  Bufio.scanFrom (s +:+ newline) line = ([Bufio.dropCR (line +:+ s)], false).
Proof.
  revert line. induction s as [|c s IH]; intros line Hlf Hlen.
  - rewrite append_empty_r in *. rewrite append_empty_l. unfold newline. simpl.
    by rewrite Hlen.
  - simpl in Hlf. apply orb_false_elim in Hlf as [Hc Hs].
    rewrite append_cons. simpl. rewrite (Ascii.eqb_sym c LF), Hc.
    rewrite IH; rewrite ?append_assoc; done.
Qed.

Lemma dropCR_trimmed (b : string) :
  b <> EmptyString -> TrimRightSpace b = b -> Bufio.dropCR b = b.
Proof.
  induction b as [|c b IH]; [done|]. intros _ Htrim.
  destruct b as [|d b].
  - simpl in *. destruct (Ascii.eqb_spec c CR) as [->|]; [done|done].
  - assert (Hb : TrimRightSpace (String d b) = String d b).
    { change (TrimRightSpace (String c (String d b)))
        with (match TrimRightSpace (String d b) with
              | EmptyString => if asciiSpace c then EmptyString else String c EmptyString
              | r => String c r
              end) in Htrim.
      destruct (TrimRightSpace (String d b)); [by destruct (asciiSpace c)|].
      by injection Htrim as -> ->. }
    change (Bufio.dropCR (String c (String d b)))
      with (String c (Bufio.dropCR (String d b))).
    by rewrite IH.
Qed.

Lemma TrimRightSpace_append (a b : string) :
  b <> EmptyString -> TrimRightSpace b = b -> TrimRightSpace (a +:+ b) = a +:+ b.
Proof.
  intros Hb Htrim. induction a as [|x a IH]; [done|].
  rewrite append_cons. simpl.
  rewrite IH. pose proof (append_not_empty a b Hb). by destruct (a +:+ b).
Qed.

Lemma lastByte_cons (c : ascii) (s : string) :
  lastByte (String c s) = match s with EmptyString => Some c | _ => lastByte s end.
Proof. by destruct s. Qed.

Lemma lastByte_append (a b : string) :
  b <> EmptyString -> lastByte (a +:+ b) = lastByte b.
Proof.
  intros Hb. induction a as [|x a IH]; [done|].
  rewrite append_cons, lastByte_cons, IH.
  pose proof (append_not_empty a b Hb). by destruct (a +:+ b).
Qed.

Lemma lastByte_None (s : string) : lastByte s = None -> s = EmptyString.
Proof.
  induction s as [|c s IH]; [done|]. rewrite lastByte_cons.
  destruct s; [done|]. intros H. by specialize (IH H).
Qed.

Lemma TrimRightSpace_lastByte (s : string) (c : ascii) :
  lastByte s = Some c -> asciiSpace c = false -> TrimRightSpace s = s.
Proof.
  intros Hlast Hc. induction s as [|x s IH]; [done|].
  rewrite lastByte_cons in Hlast. destruct s as [|y s].
  - injection Hlast as ->. simpl. by rewrite Hc.
  - specialize (IH Hlast).
    change (TrimRightSpace (String x (String y s)))
      with (match TrimRightSpace (String y s) with
            | EmptyString => if asciiSpace x then EmptyString else String x EmptyString
            | r => String x r
            end).
    by rewrite IH.
Qed.

(** [TrimSpace] leaves alone a text that starts and ends with ASCII
    bytes that are no white space. *)
Lemma TrimSpace_ascii_edges (c e : ascii) (rest : string) :
  asciiSpace c = false -> isASCII c = true ->
  lastByte (String c rest) = Some e ->
  asciiSpace e = false -> isASCII e = true ->
  TrimSpace (String c rest) = String c rest.
Proof.
  intros Hc Hca Hlast He Hea. unfold TrimSpace.
  cbn [TrimLeftSpace]. rewrite Hc, Hca. cbv zeta.
  by rewrite (TrimRightSpace_lastByte _ e Hlast He), Hlast, Hea.
Qed.

Lemma Cut_separator (a b : string) :
  IndexByte SP a = false -> Cut (a +:+ lineSep +:+ b) lineSep = Some (a, b).
Proof.
  induction a as [|c a IH]; simpl; intros Hsp.
  - done.
  - apply orb_false_elim in Hsp as [Hc Ha].
    rewrite (IH Ha).
    unfold lineSep. simpl. by rewrite (Ascii.eqb_sym c SP), Hc.
Qed.

End StringFacts.


Section GovernorFacts.
Import Governor.

Lemma noCanceler_snoc (g : Governor) (tm : gmap string nat) (f : option string)
    (teamID setup : string) :
  noCanceler g ->
  noCanceler (mkGovernor tm (heap g ++ [mkTeam teamID None None setup None]) f).
Proof.
  intros Hinv a t. simpl. intros Ht.
  apply lookup_snoc_Some in Ht. destruct Ht as [[_ Ht]|[_ <-]]; [exact (Hinv a t Ht)|done].
Qed.

Lemma noCanceler_insert (g : Governor) (tm : gmap string nat) (f : option string)
    (a : nat) (t' : Team) :
  noCanceler g -> canceler t' = None ->
  noCanceler (mkGovernor tm (<[a := t']> (heap g)) f).
Proof.
  intros Hinv Hc b t. simpl. intros Ht.
  apply list_lookup_insert_Some in Ht. destruct Ht as [(_ & <- & _)|[_ Ht]]; [done|].
  exact (Hinv b t Ht).
Qed.

Lemma step_noCanceler (g g' : Governor) (ev : event) :
  step g ev = Done g' -> noCanceler g -> noCanceler g'.
Proof.
  intros Hstep Hinv. destruct ev as [os teamID sd|teamID sd|a s|a|a r]; simpl in Hstep.
  - injection Hstep as <-. unfold NewTeam.
    destruct (decide _); [done|].
    destruct (Strings.ContainsAny _ _); [done|].
    destruct (Strings.Contains _ _); [done|].
    destruct (appendTeamDefinition _ _ _ _) as [file [err|]]; simpl.
    + intros b t Ht. exact (Hinv b t Ht).
    + by apply noCanceler_snoc.
  - injection Hstep as <-. unfold StartTeam.
    destruct (decide _); simpl; [done|]. by apply noCanceler_snoc.
  - destruct (heap g !! a) as [team|] eqn:Ha; injection Hstep as <-; [|done].
    apply noCanceler_insert; [done|].
    rewrite <- (Hinv a team Ha). by destruct s.
  - destruct (heap g !! a) as [team|] eqn:Ha; [|by injection Hstep as <-].
    unfold Run_exit, Team_Close in Hstep. by rewrite (Hinv a team Ha) in Hstep.
  - destruct (heap g !! a) as [team|] eqn:Ha; [|by injection Hstep as <-].
    unfold chatEventGoroutine in Hstep. rewrite Ha in Hstep.
    destruct (teamApp team) as [app|]; [|done].
    destruct r; try by injection Hstep as <-.
    destruct (App_Close app) as [app' e]. injection Hstep as <-.
    apply noCanceler_insert; [done|]. exact (Hinv a team Ha).
Qed.

Lemma run_noCanceler (evs : list event) (g g' : Governor) :
  run g evs = Done g' -> noCanceler g -> noCanceler g'.
Proof.
  revert g. induction evs as [|ev evs IH]; simpl; intros g Hrun Hinv.
  - by injection Hrun as <-.
  - destruct (step g ev) as [g1|p] eqn:Hstep; [|done].
    apply (IH g1 Hrun). by apply (step_noCanceler g g1 ev).
Qed.

Lemma reachable_noCanceler (g : Governor) : reachable g -> noCanceler g.
Proof.
  intros (file & evs & Hrun). apply (run_noCanceler evs _ g Hrun).
  intros a t. simpl. by rewrite lookup_nil.
Qed.

Lemma teamsValid_snoc (g : Governor) (f : option string) (teamID setup : string) :
  teamsValid g ->
  teamsValid (mkGovernor (<[teamID := length (heap g)]> (teams g))
                (heap g ++ [mkTeam teamID None None setup None]) f).
Proof.
  intros Hinv k a. simpl. destruct (decide (teamID = k)) as [->|Hne].
  - rewrite lookup_insert_eq. intros [= <-].
    exists (mkTeam k None None setup None). split; [|done].
    by rewrite lookup_app_r, Nat.sub_diag.
  - rewrite lookup_insert_ne by done. intros Hk.
    destruct (Hinv k a Hk) as (t & Ht & Hid). exists t. split; [|done].
    rewrite lookup_app_l; [done|]. by apply lookup_lt_Some in Ht.
Qed.

Lemma teamsValid_insert (g : Governor) (f : option string) (a : nat) (t t' : Team) :
  teamsValid g -> heap g !! a = Some t -> id t' = id t ->
  teamsValid (mkGovernor (teams g) (<[a := t']> (heap g)) f).
Proof.
  intros Hinv Ha Hid k b. simpl. intros Hk.
  destruct (Hinv k b Hk) as (tb & Hb & Hidb).
  destruct (decide (a = b)) as [<-|Hne].
  - exists t'. split.
    + apply list_lookup_insert_eq. by apply lookup_lt_Some in Ha.
    + rewrite Hid. congruence.
  - exists tb. split; [|done]. by rewrite list_lookup_insert_ne.
Qed.

Lemma step_teamsValid (g g' : Governor) (ev : event) :
  step g ev = Done g' -> teamsValid g -> teamsValid g'.
Proof.
  intros Hstep Hinv. destruct ev as [os teamID sd|teamID sd|a s|a|a r]; simpl in Hstep.
  - injection Hstep as <-. unfold NewTeam.
    destruct (decide _); [done|].
    destruct (Strings.ContainsAny _ _); [done|].
    destruct (Strings.Contains _ _); [done|].
    destruct (appendTeamDefinition _ _ _ _) as [file [err|]]; simpl.
    + intros k b Hk. exact (Hinv k b Hk).
    + by apply teamsValid_snoc.
  - injection Hstep as <-. unfold StartTeam.
    destruct (decide _); simpl; [done|]. by apply teamsValid_snoc.
  - destruct (heap g !! a) as [team|] eqn:Ha; injection Hstep as <-; [|done].
    apply (teamsValid_insert g _ a team); [done..|]. by destruct s.
  - destruct (heap g !! a) as [team|] eqn:Ha; [|by injection Hstep as <-].
    unfold Run_exit, Team_Close in Hstep.
    destruct (canceler team); [|done]. destruct (teamApp team) as [app|]; [|done].
    destruct (App_Close app) as [app' e]. injection Hstep as <-.
    by apply (teamsValid_insert g _ a team).
  - destruct (heap g !! a) as [team|] eqn:Ha; [|by injection Hstep as <-].
    unfold chatEventGoroutine in Hstep. rewrite Ha in Hstep.
    destruct (teamApp team) as [app|]; [|done].
    destruct r; try by injection Hstep as <-.
    destruct (App_Close app) as [app' e]. injection Hstep as <-.
    intros k b. simpl. intros Hk.
    apply lookup_delete_Some in Hk as [_ Hk].
    by apply (teamsValid_insert g (teamFile g) a team (set_teamApp team app') Hinv Ha eq_refl k b).
Qed.

Lemma reachable_teamsValid (g : Governor) : reachable g -> teamsValid g.
Proof.
  intros (file & evs & Hrun).
  assert (Hgen : forall evs g0, run g0 evs = Done g -> teamsValid g0 -> teamsValid g).
  { clear. intros evs. induction evs as [|ev evs IH]; simpl; intros g0 Hrun Hinv.
    - by injection Hrun as <-.
    - destruct (step g0 ev) as [g1|p] eqn:Hstep; [|done].
      apply (IH g1 Hrun). by apply (step_teamsValid g0 g1 ev). }
  apply (Hgen evs _ Hrun). intros k a. simpl. by rewrite lookup_empty.
Qed.

(** The goroutine that [VerifyAndHandleChatEvent] starts is for the team
    that is in the map under the team ID of the event. *)
Lemma VerifyAndHandleChatEvent_team (g : Governor) (event : ChatEvent)
    (teamID : string) (a : nat) :
  reachable g ->
  (VerifyAndHandleChatEvent g (inr (event, teamID))).2 = Some a ->
  exists team, heap g !! a = Some team /\ id team = teamID.
Proof.
  intros Hreach. unfold VerifyAndHandleChatEvent.
  destruct (teams g !! teamID) as [b|] eqn:Hk; simpl; [|done].
  intros [= <-]. by apply (reachable_teamsValid g Hreach teamID b).
Qed.



End GovernorFacts.

(** C4.  For every team a governor ever holds, whether its start failed
    or not, [Team.Close] panics on its first statement: it calls
    [t.canceler], which no code has set. *)
Theorem Team_Close_panics (g : Governor.Governor) (a : nat) (t : Governor.Team) :
  Governor.reachable g ->
  Governor.heap g !! a = Some t ->
  Governor.Team_Close t = Governor.Panic Governor.NilFuncCall.
Proof.
  intros Hreach Ht. unfold Governor.Team_Close.
  by rewrite (reachable_noCanceler g Hreach a t Ht).
Qed.

(** A team registered by [StartTeam] whose runtime has started. *)
Lemma Team_Close_panics_witness :
  let t := Governor.mkTeam "t1" None
             (Some (Governor.mkApp (PersistentDB.NewPersistentDB PersistentDB.emptyDB)))
             "s1" None in
  Governor.Team_Close t = Governor.Panic Governor.NilFuncCall.
Proof.
  intros t.
  apply (Team_Close_panics
           (Governor.mkGovernor {["t1"%string := 0%nat]} [t] None) 0%nat t).
  - exists None,
      [Governor.EvStartTeam "t1" "s1";
       Governor.EvRunStartup 0
         (Governor.Started (PersistentDB.NewPersistentDB PersistentDB.emptyDB))].
    vm_compute. reflexivity.
  - reflexivity.
Defined.




(** ** Registration *)

(** C1, as the code has it.  [NewTeam] refuses a team ID that is active
    (the error of a duplicate tenant); for an ID that is not active it
    refuses, as invalid input, an ID with a space or a line feed and setup
    data with a line feed; a refused call leaves the team file and the map
    as they are.  When the ID is not active, the arguments are valid and
    the team file can be written, the call appends [teamID setupData]
    and a line feed to the file, which is one line, and adds the team,
    and a second call for the same ID is refused as a duplicate and
    changes nothing. *)
Theorem NewTeam_refusals_and_single_registration
    (os os2 : Governor.io) (g : Governor.Governor)
    (teamID setupData setupData2 : string) :
  (is_Some (Governor.teams g !! teamID) ->
   Governor.NewTeam os g teamID setupData = (g, Some (Governor.ErrAlreadyActive teamID))
   /\ Governor.DuplicateTenant (Governor.ErrAlreadyActive teamID) = true)
  /\ (Governor.teams g !! teamID = None ->
      Strings.ContainsAny teamID (Governor.lineSep +:+ Governor.newline) = true
      \/ Strings.Contains setupData Governor.newline = true ->
      exists err, Governor.InvalidInput err = true
                  /\ Governor.NewTeam os g teamID setupData = (g, Some err))
  /\ (Governor.teams g !! teamID = None ->
      Strings.ContainsAny teamID (Governor.lineSep +:+ Governor.newline) = false ->
      Strings.Contains setupData Governor.newline = false ->
      let g1 := (Governor.NewTeam Governor.IOSucceeds g teamID setupData).1 in
      (Governor.NewTeam Governor.IOSucceeds g teamID setupData).2 = None
      /\ Governor.teamFile g1
         = Some (default EmptyString (Governor.teamFile g)
                 +:+ teamID +:+ Governor.lineSep +:+ setupData +:+ Governor.newline)
      /\ Strings.IndexByte Strings.LF (teamID +:+ Governor.lineSep +:+ setupData) = false
      /\ (exists a, Governor.teams g1 !! teamID = Some a
                    /\ Governor.heap g1 !! a
                       = Some (Governor.mkTeam teamID None None setupData None))
      /\ Governor.NewTeam os2 g1 teamID setupData2
         = (g1, Some (Governor.ErrAlreadyActive teamID))).
Proof.
  split; [|split].
  - intros Hact. unfold Governor.NewTeam. by rewrite decide_True.
  - intros Hfree Hbad. unfold Governor.NewTeam.
    rewrite decide_False by (rewrite Hfree; by intros [? ?]).
    destruct (Strings.ContainsAny _ _).
    + by exists Governor.ErrInvalidTeamID.
    + destruct Hbad as [Hbad| ->]; [done|]. by exists Governor.ErrInvalidSetupData.
  - intros Hfree Hid Hsd. unfold Governor.NewTeam at 1 2 3.
    rewrite decide_False by (rewrite Hfree; by intros [? ?]).
    rewrite Hid, Hsd. simpl.
    split; [done|]. split; [done|]. split.
    { destruct (ContainsAny_separators teamID Hid) as [_ Hlf].
      by rewrite !IndexByte_append, Hlf, (Contains_newline _ Hsd). }
    split.
    + exists (length (Governor.heap g)). rewrite lookup_insert_eq.
      split; [done|]. by rewrite lookup_app_r, Nat.sub_diag.
    + unfold Governor.NewTeam. simpl. rewrite decide_True; [done|].
      rewrite lookup_insert_eq. by eexists.
Qed.

Lemma NewTeam_refusals_and_single_registration_witness :
  let g := Governor.mkGovernor ∅ [] None in
  let g1 := (Governor.NewTeam Governor.IOSucceeds g "t1" "s1").1 in
  Governor.teamFile g1 = Some ("t1 s1" +:+ Governor.newline)
  /\ Governor.NewTeam Governor.IOSucceeds g1 "t1" "s2"
     = (g1, Some (Governor.ErrAlreadyActive "t1")).
Proof.
  intros g g1.
  destruct (NewTeam_refusals_and_single_registration
              Governor.IOSucceeds Governor.IOSucceeds g "t1" "s1" "s2")
    as (_ & _ & H).
  destruct H as (_ & Hfile & _ & _ & Hdup); [reflexivity..|].
  split; [exact Hfile | exact Hdup].
Defined.

(** C1 as the specification states it fails: a tab is white space, and
    a team ID with a tab is accepted; and two calls for one ID can both
    be refused. *)
Lemma NewTeam_whitespace_counterexample :
  let g := Governor.mkGovernor ∅ [] None in
  let teamID := String "a" (String Strings.TAB (String "b" EmptyString)) in
  Strings.asciiSpace Strings.TAB = true
  /\ (Governor.NewTeam Governor.IOSucceeds g teamID "s1").2 = None
  /\ is_Some (Governor.teams (Governor.NewTeam Governor.IOSucceeds g teamID "s1").1 !! teamID)
  /\ Governor.NewTeam Governor.IOSucceeds g "a b" "s1" = (g, Some Governor.ErrInvalidTeamID)
  /\ Governor.NewTeam Governor.IOSucceeds
       (Governor.NewTeam Governor.IOSucceeds g "a b" "s1").1 "a b" "s1"
     = (g, Some Governor.ErrInvalidTeamID).
Proof. vm_compute. repeat split. by eexists. Qed.

(** When the file can not be closed after the write, [NewTeam] reports
    an error although the line is in the file. *)
Remark NewTeam_close_failure :
  let g := Governor.mkGovernor ∅ [] None in
  Governor.NewTeam Governor.CloseFails g "t1" "s1"
  = (Governor.mkGovernor ∅ [] (Some ("t1 s1" +:+ Governor.newline)),
     Some (Governor.ErrCouldNotAdd Governor.ErrClose)).
Proof. reflexivity. Qed.

(** ** Reloading the team file *)

(** C2.  Registering a team with empty setup data succeeds and appends
    the line [t1 ] to the team file; read back, the line is trimmed to
    [t1], has no separating space left, and makes the whole load fail.
    Setup data that ends in a space comes back without it, and a team ID
    that starts with the comment sign is not loaded at all. *)
Theorem NewTeam_then_reload_loses_team :
  let g := Governor.mkGovernor ∅ [] None in
  let r := Governor.NewTeam Governor.IOSucceeds g "t1" EmptyString in
  r.2 = None
  /\ Governor.teamFile r.1 = Some ("t1 " +:+ Governor.newline)
  /\ Governor.NewGovernor (Governor.teamFile r.1) = inl Governor.ErrInvalidLine
  /\ (let r := Governor.NewTeam Governor.IOSucceeds g "t1" "s1 " in
      r.2 = None
      /\ Governor.readTeamFile (Governor.teamFile r.1) = inr {["t1"%string := "s1"%string]})
  /\ (let r := Governor.NewTeam Governor.IOSucceeds g "#t1" "s1" in
      r.2 = None
      /\ Governor.readTeamFile (Governor.teamFile r.1) = inr ∅).
Proof. vm_compute. repeat split. Qed.

Section ReloadFacts.
Import Strings Governor.
Local Arguments Ascii.eqb : simpl never.

(** While loading, a line that is empty or starts with the comment sign
    once trimmed is skipped, and any other line without a space makes
    the load fail. *)
Lemma readTeamLines_skips (line : string) (rest : list string)
    (teamData : gmap string string) :
  TrimSpace line = EmptyString \/ HasPrefix (TrimSpace line) "#" = true ->
  readTeamLines (line :: rest) teamData = readTeamLines rest teamData.
Proof.
  intros H. cbn [readTeamLines].
  destruct H as [-> | ->]; [done | by rewrite orb_true_r].
Qed.

Lemma Cut_no_separator (s : string) :
  IndexByte SP s = false -> Cut s lineSep = None.
Proof.
  induction s as [|c s IH]; simpl; intros Hsp; [done|].
  apply orb_false_elim in Hsp as [Hc Hs].
  by rewrite (Ascii.eqb_sym c SP), Hc, (IH Hs).
Qed.

Lemma readTeamLines_no_separator (line : string) (rest : list string)
    (teamData : gmap string string) :
  TrimSpace line <> EmptyString ->
  HasPrefix (TrimSpace line) "#" = false ->
  IndexByte SP (TrimSpace line) = false ->
  readTeamLines (line :: rest) teamData = inl ErrInvalidLine.
Proof.
  intros Hne Hhash Hsp. cbn [readTeamLines SplitN].
  rewrite Hhash, (Cut_no_separator _ Hsp).
  destruct (String.eqb_spec (TrimSpace line) EmptyString); done.
Qed.

(** Starting a team that was read from the file writes nothing. *)
Lemma StartTeam_teamFile (g : Governor) (teamID setupData : string) :
  teamFile (StartTeam g teamID setupData).1 = teamFile g.
Proof. unfold StartTeam. by destruct (decide _). Qed.

(** The reload does give the team back when the team ID starts with an
    ASCII character that is neither white space nor the comment sign
    and the setup data end in an ASCII character that is not white
    space. *)
Lemma NewTeam_then_reload (teamID setupData rest : string) (c e : ascii) :
  teamID = String c rest ->
  asciiSpace c = false ->
  isASCII c = true ->
  c <> "#"%char ->
  ContainsAny teamID (lineSep +:+ newline) = false ->
  Contains setupData newline = false ->
  lastByte setupData = Some e ->
  asciiSpace e = false ->
  isASCII e = true ->
  Bufio.tooLong (teamID +:+ lineSep +:+ setupData) = false ->
  let r := NewTeam IOSucceeds (mkGovernor ∅ [] None) teamID setupData in
  r.2 = None
  /\ readTeamFile (teamFile r.1) = inr {[teamID := setupData]}
  /\ NewGovernor (teamFile r.1)
     = inr (mkGovernor {[teamID := 0%nat]}
              [mkTeam teamID None None setupData None] (teamFile r.1)).
Proof.
  intros Hid Hc Hca Hhash Hsep Hnl Hlast He Hea Hlen r.
  assert (Hne : setupData <> EmptyString) by (by intros ->).
  pose proof (TrimRightSpace_lastByte setupData e Hlast He) as Htrim.
  assert (Hr : r = (mkGovernor {[teamID := 0%nat]}
                      [mkTeam teamID None None setupData None]
                      (Some (teamID +:+ lineSep +:+ setupData +:+ newline)), None)).
  { unfold r, NewTeam. simpl.
    rewrite decide_False by (rewrite lookup_empty; by intros [? ?]).
    rewrite Hsep, Hnl. simpl. by rewrite insert_empty. }
  rewrite Hr. simpl. split; [done|].
  destruct (ContainsAny_separators teamID Hsep) as [Hsp Hlf].
  assert (Hread : readTeamFile (Some (teamID +:+ lineSep +:+ setupData +:+ newline))
                  = inr {[teamID := setupData]}).
  { unfold readTeamFile, Bufio.Scan.
    replace (teamID +:+ lineSep +:+ setupData +:+ newline)
      with ((teamID +:+ lineSep +:+ setupData) +:+ newline)
      by by rewrite !append_assoc.
    rewrite scanFrom_one_line; cycle 1.
    { rewrite !IndexByte_append, Hlf, (Contains_newline _ Hnl). done. }
    { done. }
    rewrite append_empty_l.
    rewrite <- append_assoc.
    rewrite dropCR_trimmed;
      [|by apply append_not_empty|by apply TrimRightSpace_append].
    cbn [readTeamLines].
    assert (Hline : TrimSpace ((teamID +:+ lineSep) +:+ setupData)
                    = (teamID +:+ lineSep) +:+ setupData).
    { rewrite Hid, !append_cons.
      apply (TrimSpace_ascii_edges c e); [done|done| |done|done].
      change (String c ((rest +:+ lineSep) +:+ setupData))
        with (String c (rest +:+ lineSep) +:+ setupData).
      by rewrite lastByte_append. }
    rewrite Hline.
    rewrite (append_assoc teamID lineSep setupData).
    unfold SplitN. rewrite Cut_separator by done.
    assert (Hfirst : teamID +:+ lineSep +:+ setupData
                     = String c (rest +:+ lineSep +:+ setupData))
      by by rewrite Hid.
    rewrite Hfirst. simpl.
    destruct (Ascii.eqb_spec c "#"); [done|].
    simpl. by rewrite insert_empty. }
  split; [done|]. unfold NewGovernor. rewrite Hread.
  rewrite map_to_list_singleton. simpl. unfold StartTeam. simpl.
  rewrite decide_False by (rewrite lookup_empty; by intros [? ?]).
  simpl. by rewrite insert_empty.
Qed.

End ReloadFacts.

(** * Further properties of the persistent store *)

(** ** The config items *)

Section ConfigStoreFacts.
Import PersistentDB.

Lemma find_upsert_team_config_ne (t : list TeamConfig) (key key' v : string) :
  key' <> key ->
  List.find (fun r => String.eqb (config_key r) key')
    (upsert_team_config t (mkTeamConfig key v))
  = List.find (fun r => String.eqb (config_key r) key') t.
Proof.
  intros Hne. induction t as [|r' t IH]; simpl.
  - destruct (String.eqb key key') eqn:E; [|done].
    apply String.eqb_eq in E. congruence.
  - destruct (String.eqb (config_key r') key) eqn:E; simpl.
    + apply String.eqb_eq in E. rewrite E.
      destruct (String.eqb key key') eqn:E'; [|done].
      apply String.eqb_eq in E'. congruence.
    + by rewrite IH.
Qed.

Lemma configKeys_upsert (t : list TeamConfig) (key v : string) :
  List.map config_key (upsert_team_config t (mkTeamConfig key v))
  = if decide (key ∈ List.map config_key t)
    then List.map config_key t
    else List.map config_key t ++ [key].
Proof.
  induction t as [|r' t IH]; cbn [upsert_team_config List.map config_key].
  - destruct (decide (key ∈ [])) as [H|H]; [by apply elem_of_nil in H|done].
  - destruct (String.eqb (config_key r') key) eqn:E; cbn [List.map config_key].
    + apply String.eqb_eq in E. rewrite decide_True; [done|].
      rewrite E. apply list_elem_of_here.
    + apply String.eqb_neq in E. rewrite IH.
      destruct (decide (key ∈ List.map config_key t)) as [Hin|Hn].
      * rewrite decide_True; [done|]. by apply list_elem_of_further.
      * rewrite decide_False; [done|].
        intros [H|H]%elem_of_cons; [by subst|done].
Qed.

Lemma fold_insert_configs (t : list TeamConfig) (m : gmap string string) (k : string) :
  NoDup (List.map config_key t) ->
  fold_left (fun itemsMap item => <[config_key item := config_value item]> itemsMap) t m !! k
  = match List.find (fun r => String.eqb (config_key r) k) t with
    | Some r => Some (config_value r)
    | None => m !! k
    end.
Proof.
  revert m. induction t as [|r t IH]; intros m Hnd; simpl; [done|].
  apply NoDup_cons in Hnd as [Hnotin Hnd].
  rewrite IH by done.
  destruct (String.eqb (config_key r) k) eqn:E.
  - apply String.eqb_eq in E. subst k.
    destruct (List.find _ t) as [r'|] eqn:F.
    + apply find_some in F as [Hin Heq]. apply String.eqb_eq in Heq.
      exfalso. apply Hnotin. rewrite <- Heq.
      apply list_elem_of_fmap. exists r'. split; [done|]. by apply list_elem_of_In.
    + by rewrite lookup_insert_eq.
  - apply String.eqb_neq in E.
    destruct (List.find _ t); [done|]. by rewrite lookup_insert_ne.
Qed.

Lemma GetConfig_SetConfig (ud : PersistentDB) (key value d : string) :
  closed (db ud) = false ->
  GetConfig (SetConfig ud key value).1 key d = (value, None).
Proof.
  intros Hopen.
  destruct (configRow_SetConfig ud key value Hopen) as (_ & Hopen' & r & Hr & Hv).
  by rewrite (GetConfig_row _ _ _ Hopen'), Hr, Hv.
Qed.

(** The integers whose base-32 text has one digit. *)
Lemma ParseInt_FormatInt_32 (v : Z) :
  -31 <= v <= 31 ->
  Strconv.FormatInt v 32 <> EmptyString
  /\ Strconv.ParseInt (Strconv.FormatInt v 32) 0 32
     = if Z.abs v <=? 9 then inr v else inl Strconv.ErrSyntax.
Proof.
  intros Hv.
  replace v with (Z.of_nat (Z.to_nat (v + 31)) - 31) by lia.
  assert (Hn : (Z.to_nat (v + 31) < 63)%nat) by lia.
  revert Hn. generalize (Z.to_nat (v + 31)). intros n Hn.
  do 63 (destruct n as [|n]; [by vm_compute|]). lia.
Qed.

End ConfigStoreFacts.

(** X1.  [SetConfig] followed by [GetConfig]: on an open database
    [SetConfig] succeeds, [GetConfig] of the same key then gives the
    value just stored, whatever the default, and [GetConfig] of every
    other key gives what it gave before. *)
Theorem SetConfig_then_GetConfig (ud : PersistentDB.PersistentDB) (key value : string) :
  PersistentDB.closed (PersistentDB.db ud) = false ->
  (PersistentDB.SetConfig ud key value).2 = None
  /\ (forall d, PersistentDB.GetConfig (PersistentDB.SetConfig ud key value).1 key d
                = (value, None))
  /\ (forall key' d, key' <> key ->
        PersistentDB.GetConfig (PersistentDB.SetConfig ud key value).1 key' d
        = PersistentDB.GetConfig ud key' d).
Proof.
  intros Hopen.
  destruct (configRow_SetConfig ud key value Hopen) as (Hok & Hopen' & _).
  split; [done|]. split.
  - intros d. by apply GetConfig_SetConfig.
  - intros key' d Hne.
    rewrite (GetConfig_row _ _ _ Hopen'), (GetConfig_row _ _ _ Hopen).
    unfold PersistentDB.SetConfig, PersistentDB.Exec_upsert_team_config,
      PersistentDB.configRow.
    rewrite Hopen. simpl. by rewrite find_upsert_team_config_ne.
Qed.

Lemma SetConfig_then_GetConfig_witness :
  let ud := PersistentDB.NewPersistentDB PersistentDB.emptyDB in
  PersistentDB.closed (PersistentDB.db ud) = false
  /\ PersistentDB.GetConfig (PersistentDB.SetConfig ud "notify" "on").1 "notify" "off"
     = ("on"%string, None).
Proof.
  intros ud. split; [reflexivity|].
  destruct (SetConfig_then_GetConfig ud "notify" "on" eq_refl) as (_ & Hget & _).
  exact (Hget "off"%string).
Defined.

(** X2.  [SetConfig] keeps the keys of the [team_configs] table
    distinct: with no key twice in the table before the call there is
    none twice after it, and the keys after the call are the keys
    before it and the key that was set. *)
Theorem SetConfig_keeps_keys_distinct (ud : PersistentDB.PersistentDB)
    (key value : string) :
  PersistentDB.closed (PersistentDB.db ud) = false ->
  NoDup (PersistentDB.configKeys (PersistentDB.db ud)) ->
  NoDup (PersistentDB.configKeys (PersistentDB.db (PersistentDB.SetConfig ud key value).1))
  /\ forall k,
       k ∈ PersistentDB.configKeys (PersistentDB.db (PersistentDB.SetConfig ud key value).1)
       <-> k = key \/ k ∈ PersistentDB.configKeys (PersistentDB.db ud).
Proof.
  intros Hopen Hnd.
  unfold PersistentDB.SetConfig, PersistentDB.Exec_upsert_team_config,
    PersistentDB.configKeys in *.
  rewrite Hopen. simpl. rewrite configKeys_upsert.
  destruct (decide (key ∈ _)) as [Hin|Hn].
  - split; [done|]. intros k. split; [by right|]. by intros [->|H].
  - split.
    + apply NoDup_app. split; [done|]. split.
      * intros x Hx [->|H]%elem_of_cons; [done|by apply elem_of_nil in H].
      * apply NoDup_singleton.
    + intros k. rewrite elem_of_app, list_elem_of_singleton. tauto.
Qed.

Lemma SetConfig_keeps_keys_distinct_witness :
  let ud := (PersistentDB.SetConfig (PersistentDB.NewPersistentDB PersistentDB.emptyDB)
               "a" "1").1 in
  PersistentDB.closed (PersistentDB.db ud) = false
  /\ NoDup (PersistentDB.configKeys (PersistentDB.db ud))
  /\ NoDup (PersistentDB.configKeys (PersistentDB.db (PersistentDB.SetConfig ud "a" "2").1)).
Proof.
  intros ud.
  assert (Hnd : NoDup (PersistentDB.configKeys (PersistentDB.db ud))).
  { apply NoDup_singleton. }
  split; [reflexivity|]. split; [exact Hnd|].
  exact (proj1 (SetConfig_keeps_keys_distinct ud "a" "2" eq_refl Hnd)).
Defined.

(** X3.  [GetAllConfigItems] agrees with [GetConfig]: on an open
    database whose table holds no key twice (the key is the primary key
    of the table), [GetAllConfigItems] gives a map, and [GetConfig] of
    any key gives the value the map holds for it, or the default when
    the map has no such key. *)
Theorem GetAllConfigItems_agrees_with_GetConfig (ud : PersistentDB.PersistentDB) :
  PersistentDB.closed (PersistentDB.db ud) = false ->
  NoDup (PersistentDB.configKeys (PersistentDB.db ud)) ->
  exists itemsMap,
    PersistentDB.GetAllConfigItems ud = inr itemsMap
    /\ forall key d,
         PersistentDB.GetConfig ud key d = (default d (itemsMap !! key), None).
Proof.
  intros Hopen Hnd.
  unfold PersistentDB.GetAllConfigItems, PersistentDB.All_TeamConfig.
  rewrite Hopen. eexists. split; [reflexivity|].
  intros key d. rewrite (GetConfig_row _ _ _ Hopen).
  rewrite (fold_insert_configs _ _ _ Hnd). unfold PersistentDB.configRow.
  by destruct (List.find _ _).
Qed.

Lemma GetAllConfigItems_agrees_with_GetConfig_witness :
  let ud := (PersistentDB.SetConfig (PersistentDB.NewPersistentDB PersistentDB.emptyDB)
               "a" "1").1 in
  PersistentDB.closed (PersistentDB.db ud) = false
  /\ NoDup (PersistentDB.configKeys (PersistentDB.db ud))
  /\ exists itemsMap,
       PersistentDB.GetAllConfigItems ud = inr itemsMap
       /\ forall key d,
            PersistentDB.GetConfig ud key d = (default d (itemsMap !! key), None).
Proof.
  intros ud.
  assert (Hnd : NoDup (PersistentDB.configKeys (PersistentDB.db ud))).
  { apply NoDup_singleton. }
  split; [reflexivity|]. split; [exact Hnd|].
  exact (GetAllConfigItems_agrees_with_GetConfig ud eq_refl Hnd).
Defined.

(** X4.  [SetConfigInt] followed by [GetConfigInt], for the values
    from -31 to 31, whose base-32 text has one digit: the value comes
    back when it is between -9 and 9; for the others the digit is a
    letter, and [GetConfigInt] gives the default and a syntax error. *)
Theorem SetConfigInt_then_GetConfigInt_one_digit (ud : PersistentDB.PersistentDB)
    (key : string) (v def : Z) :
  PersistentDB.closed (PersistentDB.db ud) = false ->
  -31 <= v <= 31 ->
  PersistentDB.GetConfigInt (PersistentDB.SetConfigInt ud key v).1 key def
  = if Z.abs v <=? 9 then (v, None)
    else (def, Some (PersistentDB.ErrNum Strconv.ErrSyntax)).
Proof.
  intros Hopen Hv.
  destruct (ParseInt_FormatInt_32 v Hv) as [Hne Hparse].
  unfold PersistentDB.GetConfigInt, PersistentDB.SetConfigInt.
  rewrite (GetConfig_SetConfig _ _ _ _ Hopen).
  destruct (Strconv.FormatInt v 32) as [|c s] eqn:E; [done|].
  rewrite Hparse. by destruct (Z.abs v <=? 9).
Qed.

Lemma SetConfigInt_then_GetConfigInt_one_digit_witness :
  let ud := PersistentDB.NewPersistentDB PersistentDB.emptyDB in
  PersistentDB.closed (PersistentDB.db ud) = false
  /\ -31 <= 17 <= 31
  /\ PersistentDB.GetConfigInt (PersistentDB.SetConfigInt ud "n" 17).1 "n" 5
     = (5, Some (PersistentDB.ErrNum Strconv.ErrSyntax)).
Proof.
  intros ud. split; [reflexivity|]. split; [lia|].
  exact (SetConfigInt_then_GetConfigInt_one_digit ud "n" 17 5 eq_refl ltac:(lia)).
Defined.

(** ** The report times *)

Section ReportFacts.
Import PersistentDB.

Lemma update_last_report_username (u : string) (when : Time) (r : GerritUser) :
  gerrit_username (update_last_report u when r) = gerrit_username r.
Proof. unfold update_last_report. by destruct (String.eqb _ _). Qed.

Lemma find_update_last_report (u u' : string) (when : Time) (t : list GerritUser) :
  List.find (fun r => String.eqb (gerrit_username r) u') (List.map (update_last_report u when) t)
  = update_last_report u when <$> List.find (fun r => String.eqb (gerrit_username r) u') t.
Proof.
  induction t as [|r t IH]; simpl; [done|].
  rewrite update_last_report_username. by destruct (String.eqb (gerrit_username r) u').
Qed.

Lemma update_last_report_unknown (u : string) (when : Time) (t : list GerritUser) :
  List.find (fun r => String.eqb (gerrit_username r) u) t = None ->
  List.map (update_last_report u when) t = t.
Proof.
  induction t as [|r t IH]; simpl; [done|]. unfold update_last_report at 1.
  destruct (String.eqb (gerrit_username r) u); [done|].
  intros H. by rewrite IH.
Qed.

Lemma UpdateLastReportTime_open (ud : PersistentDB) (u : string) (when : Time) :
  closed (db ud) = false ->
  UpdateLastReportTime ud u when
  = (set_db ud (set_gerrit_users (db ud) (List.map (update_last_report u when) (gerrit_users (db ud)))),
     None).
Proof.
  intros Hopen.
  unfold UpdateLastReportTime, UpdateNoReturn_GerritUser_By_GerritUsername.
  by rewrite Hopen.
Qed.

End ReportFacts.

(** X5.  [UpdateLastReportTime] for a user who has a row, on an open
    database: the call succeeds, the row keeps its chat ID and gets the
    report time, the rows of the other users stay as they are, and
    [GetAllUsersWhoseLastReportWasBefore t] then lists the user exactly
    when the report time is before [t] (strictly). *)
Theorem UpdateLastReportTime_then_due (ud : PersistentDB.PersistentDB) (u : string)
    (when : PersistentDB.Time) (r : PersistentDB.GerritUser) :
  PersistentDB.closed (PersistentDB.db ud) = false ->
  PersistentDB.userRow (PersistentDB.db ud) u = Some r ->
  let ud' := (PersistentDB.UpdateLastReportTime ud u when).1 in
  (PersistentDB.UpdateLastReportTime ud u when).2 = None
  /\ PersistentDB.userRow (PersistentDB.db ud') u
     = Some (PersistentDB.mkGerritUser u (PersistentDB.chat_id r) (Some when))
  /\ (forall u', u' <> u ->
        PersistentDB.userRow (PersistentDB.db ud') u'
        = PersistentDB.userRow (PersistentDB.db ud) u')
  /\ forall t, exists due,
       PersistentDB.GetAllUsersWhoseLastReportWasBefore ud' t = inr due
       /\ ((exists r', r' ∈ due /\ PersistentDB.gerrit_username r' = u) <-> when < t).
Proof.
  intros Hopen Hrow ud'. subst ud'.
  rewrite (UpdateLastReportTime_open _ _ _ Hopen). simpl.
  unfold PersistentDB.userRow in *. simpl.
  assert (Hu : PersistentDB.gerrit_username r = u).
  { apply find_some in Hrow as [_ H]. by apply String.eqb_eq in H. }
  assert (Hr : PersistentDB.update_last_report u when r = PersistentDB.mkGerritUser u (PersistentDB.chat_id r) (Some when)).
  { unfold PersistentDB.update_last_report. rewrite Hu, String.eqb_refl. done. }
  split; [done|]. split.
  { by rewrite find_update_last_report, Hrow; simpl; rewrite Hr. }
  split.
  { intros u' Hne. rewrite find_update_last_report.
    destruct (List.find (fun r => String.eqb _ u') _) as [r0|] eqn:F; [|done]. simpl.
    apply find_some in F as [_ F]. apply String.eqb_eq in F.
    unfold PersistentDB.update_last_report. destruct (String.eqb _ u) eqn:E; [|done].
    apply String.eqb_eq in E. congruence. }
  intros t. unfold PersistentDB.GetAllUsersWhoseLastReportWasBefore,
    PersistentDB.All_GerritUser_By_LastReport_Less. simpl. rewrite Hopen.
  eexists. split; [reflexivity|]. split.
  - intros (r' & Hin & Hname). apply list_elem_of_In, filter_In in Hin as [Hin Hlt].
    apply in_map_iff in Hin as (r0 & <- & _).
    rewrite update_last_report_username in Hname. unfold PersistentDB.update_last_report in Hlt.
    apply String.eqb_eq in Hname. rewrite Hname in Hlt. simpl in Hlt. lia.
  - intros Hlt. exists (PersistentDB.update_last_report u when r). split; [|by rewrite update_last_report_username].
    apply list_elem_of_In, filter_In. split.
    + apply in_map. by apply find_some in Hrow as [H _].
    + rewrite Hr. simpl. lia.
Qed.

Lemma UpdateLastReportTime_then_due_witness :
  let ud := (PersistentDB.AssociateChatIDWithGerritUser
               (PersistentDB.NewPersistentDB PersistentDB.emptyDB) "alice" "U1").1 in
  PersistentDB.closed (PersistentDB.db ud) = false
  /\ PersistentDB.userRow (PersistentDB.db ud) "alice"
     = Some (PersistentDB.mkGerritUser "alice" "U1" None)
  /\ PersistentDB.userRow (PersistentDB.db (PersistentDB.UpdateLastReportTime ud "alice" 100).1)
       "alice"
     = Some (PersistentDB.mkGerritUser "alice" "U1" (Some 100)).
Proof.
  intros ud. split; [reflexivity|]. split; [reflexivity|].
  destruct (UpdateLastReportTime_then_due ud "alice" 100
              (PersistentDB.mkGerritUser "alice" "U1" None) eq_refl eq_refl)
    as (_ & Hrow & _).
  exact Hrow.
Defined.

(** X6.  [UpdateLastReportTime] for a user who has no row: on an open
    database the call returns nil and changes nothing, so the report
    time is not recorded. *)
Theorem UpdateLastReportTime_unknown_user (ud : PersistentDB.PersistentDB) (u : string)
    (when : PersistentDB.Time) :
  PersistentDB.closed (PersistentDB.db ud) = false ->
  PersistentDB.userRow (PersistentDB.db ud) u = None ->
  PersistentDB.UpdateLastReportTime ud u when = (ud, None).
Proof.
  intros Hopen Hrow. rewrite (UpdateLastReportTime_open _ _ _ Hopen).
  unfold PersistentDB.userRow in Hrow. rewrite (update_last_report_unknown _ _ _ Hrow).
  by destruct ud as [[] ? ?].
Qed.

Lemma UpdateLastReportTime_unknown_user_witness :
  let ud := PersistentDB.NewPersistentDB PersistentDB.emptyDB in
  PersistentDB.closed (PersistentDB.db ud) = false
  /\ PersistentDB.userRow (PersistentDB.db ud) "bob" = None
  /\ PersistentDB.UpdateLastReportTime ud "bob" 100 = (ud, None).
Proof.
  intros ud. split; [reflexivity|]. split; [reflexivity|].
  exact (UpdateLastReportTime_unknown_user ud "bob" 100 eq_refl eq_refl).
Defined.

(** X7.  A user whose row [AssociateChatIDWithGerritUser] has just
    created has no report time, and
    [GetAllUsersWhoseLastReportWasBefore] does not list the user, for
    any time [t]. *)
Theorem new_user_is_never_due (ud : PersistentDB.PersistentDB) (u c : string)
    (t : PersistentDB.Time) :
  PersistentDB.closed (PersistentDB.db ud) = false ->
  PersistentDB.userRow (PersistentDB.db ud) u = None ->
  exists due,
    PersistentDB.GetAllUsersWhoseLastReportWasBefore
      (PersistentDB.AssociateChatIDWithGerritUser ud u c).1 t = inr due
    /\ forall r, r ∈ due -> PersistentDB.gerrit_username r <> u.
Proof.
  intros Hopen Hrow.
  unfold PersistentDB.AssociateChatIDWithGerritUser,
    PersistentDB.CreateNoReturn_GerritUser,
    PersistentDB.GetAllUsersWhoseLastReportWasBefore,
    PersistentDB.All_GerritUser_By_LastReport_Less.
  rewrite Hopen, Hrow. simpl. rewrite Hopen.
  eexists. split; [reflexivity|].
  intros r Hin Hname. apply list_elem_of_In, filter_In in Hin as [Hin Hlt].
  apply in_app_or in Hin as [Hin|[<-|[]]]; [|done].
  unfold PersistentDB.userRow in Hrow.
  apply (find_none _ _ Hrow) in Hin. simpl in Hin.
  apply String.eqb_neq in Hin. done.
Qed.

Lemma new_user_is_never_due_witness :
  let ud := PersistentDB.NewPersistentDB PersistentDB.emptyDB in
  PersistentDB.closed (PersistentDB.db ud) = false
  /\ PersistentDB.userRow (PersistentDB.db ud) "alice" = None
  /\ exists due,
       PersistentDB.GetAllUsersWhoseLastReportWasBefore
         (PersistentDB.AssociateChatIDWithGerritUser ud "alice" "U1").1 100 = inr due
       /\ forall r, r ∈ due -> PersistentDB.gerrit_username r <> "alice"%string.
Proof.
  intros ud. split; [reflexivity|]. split; [reflexivity|].
  exact (new_user_is_never_due ud "alice" "U1" 100 eq_refl eq_refl).
Defined.

(** ** The announcements of patch sets *)

Section AnnouncementFacts.
Import PersistentDB.

Lemma Record_loop_open (env : nat -> Z * Time) (p : string) (c n : Z)
    (hs : list string) (d : DB) (i : nat) (errs : list error) :
  closed d = false ->
  exists rows,
    RecordPatchSetAnnouncements_loop d env i p c n hs errs
    = (set_patchset_announcements d (patchset_announcements d ++ rows), errs)
    /\ List.map message_handle rows = hs
    /\ Forall (fun r => project_name r = p /\ change_num r = c /\ patchset_num r = n) rows.
Proof.
  intros Hopen. revert d i Hopen.
  induction hs as [|h hs IH]; intros d i Hopen; simpl.
  - exists []. rewrite app_nil_r. by destruct d.
  - unfold CreateNoReturn_PatchsetAnnouncement. rewrite Hopen. simpl.
    edestruct (IH (set_patchset_announcements d
                     (patchset_announcements d ++
                      [mkPatchsetAnnouncement (env i).1 p c n h (env i).2])) (S i))
      as (rows & -> & Hh & Hall); [done|].
    eexists (_ :: rows). simpl. rewrite <- app_assoc. simpl.
    split; [done|]. split; [by rewrite Hh|]. by constructor.
Qed.

Lemma Record_loop_closed (env : nat -> Z * Time) (p : string) (c n : Z)
    (hs : list string) (d : DB) (i : nat) (errs : list error) :
  closed d = true ->
  RecordPatchSetAnnouncements_loop d env i p c n hs errs
  = (d, errs ++ List.map (fun _ => ErrDBClosed) hs).
Proof.
  intros Hclosed. revert i errs.
  induction hs as [|h hs IH]; intros i errs; simpl.
  - by rewrite app_nil_r.
  - unfold CreateNoReturn_PatchsetAnnouncement. rewrite Hclosed.
    rewrite IH. simpl. by rewrite <- app_assoc.
Qed.

Lemma announces_spec (p : string) (c n : Z) (r : PatchsetAnnouncement) :
  announces p c n r = true
  <-> project_name r = p /\ change_num r = c /\ patchset_num r = n.
Proof.
  unfold announces. rewrite !andb_true_iff, String.eqb_eq, !Z.eqb_eq. tauto.
Qed.

Lemma filter_all {A} (f : A -> bool) (l : list A) :
  Forall (fun x => f x = true) l -> List.filter f l = l.
Proof.
  induction 1 as [|x l Hx _ IH]; simpl; [done|]. by rewrite Hx, IH.
Qed.

Lemma filter_none {A} (f : A -> bool) (l : list A) :
  Forall (fun x => f x = false) l -> List.filter f l = [].
Proof.
  induction 1 as [|x l Hx _ IH]; simpl; [done|]. by rewrite Hx, IH.
Qed.

End AnnouncementFacts.

(** X8.  [RecordPatchSetAnnouncements] followed by
    [GetPatchSetAnnouncements], on an open database: recording returns
    no error; the handles found for the same project, change and patch
    set are then the ones found before followed by the recorded ones
    (the rows being read in the order of their insertion); and what is
    found for any other project, change or patch set is as before. *)
Theorem RecordPatchSetAnnouncements_then_Get (ud : PersistentDB.PersistentDB)
    (env : nat -> Z * PersistentDB.Time) (p : string) (c n : Z) (hs : list string) :
  PersistentDB.closed (PersistentDB.db ud) = false ->
  let ud' := (PersistentDB.RecordPatchSetAnnouncements ud env p c n hs).1 in
  (PersistentDB.RecordPatchSetAnnouncements ud env p c n hs).2 = []
  /\ (exists old,
        PersistentDB.GetPatchSetAnnouncements ud p c n = inr old
        /\ PersistentDB.GetPatchSetAnnouncements ud' p c n = inr (old ++ hs))
  /\ forall p' c' n', (p', c', n') <> (p, c, n) ->
       PersistentDB.GetPatchSetAnnouncements ud' p' c' n'
       = PersistentDB.GetPatchSetAnnouncements ud p' c' n'.
Proof.
  intros Hopen ud'. subst ud'. unfold PersistentDB.RecordPatchSetAnnouncements.
  destruct (Record_loop_open env p c n hs (PersistentDB.db ud) 0%nat [] Hopen)
    as (rows & -> & Hh & Hall).
  simpl. split; [done|].
  unfold PersistentDB.GetPatchSetAnnouncements,
    PersistentDB.All_PatchsetAnnouncement_MessageHandle_By_ProjectName_And_ChangeNum_And_PatchsetNum.
  simpl. rewrite Hopen. split.
  - eexists. split; [reflexivity|]. f_equal.
    rewrite List.filter_app, !List.map_app. f_equal.
    rewrite (filter_all _ rows).
    + by rewrite List.map_map.
    + eapply Forall_impl; [exact Hall|]. intros r Hr. by apply announces_spec.
  - intros p' c' n' Hne. do 2 f_equal.
    rewrite List.filter_app, (filter_none _ rows); [by rewrite app_nil_r|].
    eapply Forall_impl; [exact Hall|]. intros r (Hp & Hc & Hn).
    destruct (PersistentDB.announces p' c' n' r) eqn:E; [|done].
    apply announces_spec in E as (Hp' & Hc' & Hn'). congruence.
Qed.

Lemma RecordPatchSetAnnouncements_then_Get_witness :
  let ud := PersistentDB.NewPersistentDB PersistentDB.emptyDB in
  let env := fun i : nat => (Z.of_nat i + 1, 1000) in
  PersistentDB.closed (PersistentDB.db ud) = false
  /\ (PersistentDB.RecordPatchSetAnnouncements ud env "proj" 7 2 ["h1"; "h2"]%string).2 = [].
Proof.
  intros ud env. split; [reflexivity|].
  destruct (RecordPatchSetAnnouncements_then_Get ud env "proj" 7 2 ["h1"; "h2"]%string eq_refl)
    as (Herr & _).
  exact Herr.
Defined.

(** X9.  [RecordPatchSetAnnouncements] on a closed database attempts
    every INSERT: it returns one error for each handle, none for an
    empty list of handles, and leaves the database as it is. *)
Theorem RecordPatchSetAnnouncements_closed (ud : PersistentDB.PersistentDB)
    (env : nat -> Z * PersistentDB.Time) (p : string) (c n : Z) (hs : list string) :
  PersistentDB.closed (PersistentDB.db ud) = true ->
  PersistentDB.RecordPatchSetAnnouncements ud env p c n hs
  = (ud, List.map (fun _ => PersistentDB.ErrDBClosed) hs).
Proof.
  intros Hclosed. unfold PersistentDB.RecordPatchSetAnnouncements.
  rewrite (Record_loop_closed _ _ _ _ _ _ _ _ Hclosed). simpl. by destruct ud.
Qed.

Lemma RecordPatchSetAnnouncements_closed_witness :
  let ud := (PersistentDB.Close (PersistentDB.NewPersistentDB PersistentDB.emptyDB)).1 in
  PersistentDB.closed (PersistentDB.db ud) = true
  /\ PersistentDB.RecordPatchSetAnnouncements ud (fun _ => (1, 1000)) "proj" 7 2
       ["h1"; "h2"]%string
     = (ud, [PersistentDB.ErrDBClosed; PersistentDB.ErrDBClosed]).
Proof.
  intros ud. split; [reflexivity|].
  exact (RecordPatchSetAnnouncements_closed ud (fun _ => (1, 1000)) "proj" 7 2
           ["h1"; "h2"]%string eq_refl).
Defined.

(** ** The source of the database *)

Section SourceFacts.
Import Strings PersistentDB.

(** [Cut] at a separator of one byte. *)
Lemma Cut_byte_Some (c : ascii) (s a b : string) :
  Cut s (String c EmptyString) = Some (a, b) ->
  s = a +:+ String c b /\ IndexByte c a = false.
Proof.
  revert a. induction s as [|x s IH]; intros a; simpl; [done|].
  rewrite andb_true_r. destruct (Ascii.eqb_spec x c) as [->|Hne].
  - intros [= <- <-]. done.
  - destruct (Cut s (String c EmptyString)) as [[a' b']|]; [|done].
    intros [= <- <-]. destruct (IH a' eq_refl) as [-> Ha].
    split; [done|]. simpl. rewrite Ha, orb_false_r.
    by apply Ascii.eqb_neq.
Qed.

Lemma Cut_byte_None (c : ascii) (s : string) :
  Cut s (String c EmptyString) = None -> IndexByte c s = false.
Proof.
  induction s as [|x s IH]; simpl; [done|].
  rewrite andb_true_r. destruct (Ascii.eqb_spec x c) as [->|Hne]; [done|].
  destruct (Cut s (String c EmptyString)) as [[a' b']|]; [done|].
  intros _. rewrite IH by done. rewrite orb_false_r. by apply Ascii.eqb_neq.
Qed.

End SourceFacts.

(** X10.  The data sources [openPersistentDB] takes.  For every
    location, [sqlite:] and [sqlite3:] before it open the driver
    [sqlite3] on the location, colons in it included, and a source
    that starts with [postgres:] or [postgresql:] is passed whole to
    the driver [postgres].  Nothing else is accepted: an accepted
    source is of one of these forms, a source without a colon is an
    invalid data source, and otherwise the text before the first colon
    is reported as an unrecognized driver name. *)
Theorem openPersistentDB_sources (dbSource : string) :
  (forall location,
     PersistentDB.openPersistentDB ("sqlite:" +:+ location) = inr ("sqlite3"%string, location)
     /\ PersistentDB.openPersistentDB ("sqlite3:" +:+ location)
        = inr ("sqlite3"%string, location)
     /\ PersistentDB.openPersistentDB ("postgres:" +:+ location)
        = inr ("postgres"%string, "postgres:" +:+ location)
     /\ PersistentDB.openPersistentDB ("postgresql:" +:+ location)
        = inr ("postgres"%string, "postgresql:" +:+ location))
  /\ match PersistentDB.openPersistentDB dbSource with
     | inr (driverName, source) =>
         (driverName = "sqlite3"%string
          /\ (dbSource = "sqlite:" +:+ source \/ dbSource = "sqlite3:" +:+ source))
         \/ (driverName = "postgres"%string /\ source = dbSource
             /\ exists rest, dbSource = "postgres:" +:+ rest
                             \/ dbSource = "postgresql:" +:+ rest)
     | inl (PersistentDB.ErrInvalidDataSource s) =>
         s = dbSource /\ Strings.IndexByte ":" dbSource = false
     | inl (PersistentDB.ErrUnrecognizedDriver driverName) =>
         (exists rest, dbSource = driverName +:+ ":" +:+ rest)
         /\ Strings.IndexByte ":" driverName = false
         /\ driverName ∉ ["sqlite"; "sqlite3"; "postgres"; "postgresql"]%string
     end.
Proof.
  split; [done|].
  unfold PersistentDB.openPersistentDB. cbn [Strings.SplitN].
  destruct (Strings.Cut dbSource ":") as [[a b]|] eqn:E.
  - apply Cut_byte_Some in E as [-> Ha]. cbn [Strings.SplitN].
    destruct (String.eqb_spec a "sqlite") as [->|H1]; [left; split; [done|by left]|].
    destruct (String.eqb_spec a "sqlite3") as [->|H2]; [left; split; [done|by right]|].
    cbn [orb].
    destruct (String.eqb_spec a "postgres") as [->|H3].
    { right. split; [done|]. split; [done|]. exists b. by left. }
    destruct (String.eqb_spec a "postgresql") as [->|H4].
    { right. split; [done|]. split; [done|]. exists b. by right. }
    cbn [orb]. split; [by exists b|]. split; [done|].
    intros Hin. repeat (apply elem_of_cons in Hin as [Hin|Hin]; [done|]).
    by apply elem_of_nil in Hin.
  - split; [done|]. by apply Cut_byte_None.
Qed.

(** * Further properties of the governor *)

Section StartupFacts.
Import Strings Governor.

Lemma StartTeam_started (g : Governor) (teamData : gmap string string)
    (teamID sd : string) :
  started g teamData ->
  teamData !! teamID = None ->
  started (StartTeam g teamID sd).1 (<[teamID := sd]> teamData).
Proof.
  intros Hinv Hfresh. unfold StartTeam.
  pose proof (Hinv teamID) as Hid. rewrite Hfresh in Hid.
  destruct (teams g !! teamID) as [a|] eqn:Ht.
  { destruct Hid as (sd' & Hsd & _). done. }
  rewrite decide_False by (by intros [? ?]). simpl.
  intros k. simpl. destruct (decide (k = teamID)) as [->|Hne].
  - rewrite !lookup_insert_eq. exists sd. split; [done|].
    by rewrite lookup_app_r, Nat.sub_diag.
  - rewrite !lookup_insert_ne by done. specialize (Hinv k).
    destruct (teams g !! k) as [a|]; [|done].
    destruct Hinv as (sd' & Hsd & Ha). exists sd'. split; [done|].
    by apply lookup_app_l_Some.
Qed.

Lemma fold_StartTeam_started (l : list (string * string)) (file : option string) :
  NoDup l.*1 ->
  let g := fold_left (fun g kv => (StartTeam g kv.1 kv.2).1) l (mkGovernor ∅ [] file) in
  started g (list_to_map l) /\ teamFile g = file.
Proof.
  induction l as [|[k sd] l IH] using rev_ind; intros Hnd g.
  - split; [|done]. intros k. subst g. simpl. by rewrite !lookup_empty.
  - subst g. rewrite fold_left_app. simpl.
    rewrite fmap_app in Hnd. apply NoDup_app in Hnd as (Hnd & Hk & _).
    destruct (IH Hnd) as [Hinv Hfile].
    split; [|by rewrite StartTeam_teamFile].
    rewrite list_to_map_snoc.
    + apply StartTeam_started; [done|].
      apply not_elem_of_list_to_map_1. intros Hin. apply (Hk k Hin).
      simpl. apply list_elem_of_here.
    + intros Hin. apply (Hk k Hin). simpl. apply list_elem_of_here.
Qed.

End StartupFacts.

(** X11.  [NewGovernor] starts the teams of the team file: when the
    file reads as [teamData], the governor has exactly one team for
    each ID of [teamData], built from the setup data read for that ID,
    with no app and no error yet, and the file is as it was; when the
    file does not exist the governor has no teams; any other error of
    the read is the error of [NewGovernor]. *)
Theorem NewGovernor_starts_the_teams_of_the_file (file : option string) :
  match Governor.readTeamFile file with
  | inr teamData =>
      exists g, Governor.NewGovernor file = inr g
                /\ Governor.started g teamData
                /\ Governor.teamFile g = file
  | inl (Governor.ErrOS Governor.ErrNotExist) =>
      Governor.NewGovernor file = inr (Governor.mkGovernor ∅ [] file)
  | inl err => Governor.NewGovernor file = inl err
  end.
Proof.
  unfold Governor.NewGovernor.
  destruct (Governor.readTeamFile file) as [err|teamData].
  - by destruct err as [| | | |[]| | | | |].
  - eexists. split; [reflexivity|].
    destruct (fold_StartTeam_started (map_to_list teamData) file) as [Hinv Hfile].
    { apply NoDup_fst_map_to_list. }
    by rewrite list_to_map_to_list in Hinv.
Qed.

Section RoutingFacts.
Import Strings Governor.

Lemma step_appends (g g' : Governor) (ev : event) :
  step g ev = Done g' ->
  (exists suffix, teamFileContent g' = teamFileContent g +:+ suffix)
  /\ (is_Some (teamFile g) -> is_Some (teamFile g')).
Proof.
  assert (Hsame : forall g1 : Governor,
             teamFile g1 = teamFile g ->
             (exists suffix, teamFileContent g1 = teamFileContent g +:+ suffix)
             /\ (is_Some (teamFile g) -> is_Some (teamFile g1))).
  { intros g1 Hf. unfold teamFileContent. rewrite Hf. split; [|done].
    exists EmptyString. by rewrite append_empty_r. }
  destruct ev as [os teamID sd|teamID sd|a s|a|a r]; simpl.
  - intros [= <-]. unfold NewTeam.
    destruct (decide _); [by apply Hsame|].
    destruct (ContainsAny _ _); [by apply Hsame|].
    destruct (Contains _ _); [by apply Hsame|].
    unfold appendTeamDefinition, teamFileContent.
    destruct os; simpl; try (by apply Hsame); (split; [by eexists|by eauto]).
  - intros [= <-]. apply Hsame, StartTeam_teamFile.
  - destruct (heap g !! a); intros [= <-]; by apply Hsame.
  - destruct (heap g !! a) as [team|]; [|intros [= <-]; by apply Hsame].
    destruct (Run_exit team); [|done]. intros [= <-]. by apply Hsame.
  - destruct (heap g !! a) as [team|] eqn:Hteam; [|intros [= <-]; by apply Hsame].
    unfold chatEventGoroutine. rewrite Hteam.
    destruct (teamApp team); [|done].
    destruct r; intros [= <-]; by apply Hsame.
Qed.

End RoutingFacts.

(** X12.  Events go to the team they name: in every state a governor
    reaches, the team that [GerritEventReceived] picks for a team ID,
    and the team for which [VerifyAndHandleChatEvent] starts its
    goroutine, is a team with that ID, and no team is picked for two
    different IDs. *)
Theorem events_go_to_their_team (g : Governor.Governor) (teamID : string) (a : nat) :
  Governor.reachable g ->
  Governor.GerritEventReceived g teamID = Some a
  \/ (exists event, (Governor.VerifyAndHandleChatEvent g (inr (event, teamID))).2 = Some a) ->
  (exists team, Governor.heap g !! a = Some team /\ Governor.id team = teamID)
  /\ forall teamID', Governor.GerritEventReceived g teamID' = Some a -> teamID' = teamID.
Proof.
  intros Hreach Hpick.
  pose proof (reachable_teamsValid g Hreach) as Hvalid.
  assert (Ha : Governor.teams g !! teamID = Some a).
  { destruct Hpick as [H|[event H]]; [done|].
    unfold Governor.VerifyAndHandleChatEvent in H.
    by destruct (Governor.teams g !! teamID). }
  destruct (Hvalid teamID a Ha) as (team & Hteam & Hid).
  split; [by exists team|].
  intros teamID' Ha'. destruct (Hvalid teamID' a Ha') as (team' & Hteam' & Hid').
  congruence.
Qed.

Lemma events_go_to_their_team_witness :
  let g := (Governor.StartTeam (Governor.mkGovernor ∅ [] None) "T1" "s1").1 in
  Governor.reachable g
  /\ Governor.GerritEventReceived g "T1" = Some 0%nat
  /\ exists team, Governor.heap g !! 0%nat = Some team /\ Governor.id team = "T1"%string.
Proof.
  intros g.
  assert (Hreach : Governor.reachable g).
  { exists None, [Governor.EvStartTeam "T1" "s1"]. reflexivity. }
  split; [exact Hreach|]. split; [reflexivity|].
  exact (proj1 (events_go_to_their_team g "T1" 0%nat Hreach (or_introl eq_refl))).
Defined.

(** X13.  The team file only grows: whatever steps a governor takes,
    registrations, failed writes and uninstalls included, the content
    of the team file afterwards is the content before with text
    appended, and a file that exists is not removed.  (So the line of a
    team that was uninstalled stays in the file.) *)
Theorem team_file_only_grows (g g' : Governor.Governor) (evs : list Governor.event) :
  Governor.run g evs = Governor.Done g' ->
  (exists suffix, Governor.teamFileContent g' = Governor.teamFileContent g +:+ suffix)
  /\ (is_Some (Governor.teamFile g) -> is_Some (Governor.teamFile g')).
Proof.
  revert g. induction evs as [|ev evs IH]; simpl; intros g Hrun.
  - injection Hrun as <-. split; [|done]. exists EmptyString. by rewrite append_empty_r.
  - destruct (Governor.step g ev) as [g1|p] eqn:Hstep; [|done].
    destruct (step_appends g g1 ev Hstep) as [[s1 H1] Hs1].
    destruct (IH g1 Hrun) as [[s2 H2] Hs2].
    split; [|by auto]. exists (s1 +:+ s2). by rewrite H2, H1, append_assoc.
Qed.

Lemma team_file_only_grows_witness :
  let g := Governor.mkGovernor ∅ [] (Some ("T0 s0" +:+ Governor.newline)) in
  let evs := [Governor.EvNewTeam Governor.IOSucceeds "T1" "s1";
              Governor.EvRunStartup 0 Governor.SlackInterfaceFails] in
  exists g', Governor.run g evs = Governor.Done g'
    /\ exists suffix, Governor.teamFileContent g' = Governor.teamFileContent g +:+ suffix.
Proof.
  intros g evs. eexists. split; [reflexivity|].
  exact (proj1 (team_file_only_grows g _ evs eq_refl)).
Defined.

(** ** Registrations and restarts *)

Section RestartFacts.
Import Strings Governor.
Local Arguments Ascii.eqb : simpl never.

(** Scanning a text whose last line is complete, followed by more
    text: the lines of the one, then the lines of the other. *)
Lemma scanFrom_terminated (data rest line : string) :
  (data = EmptyString -> line = EmptyString) ->
  match lastByte data with Some c => Ascii.eqb c LF | None => true end = true ->
  Bufio.scanFrom (data +:+ rest) line
  = let '(tokens, err) := Bufio.scanFrom data line in
    if err then (tokens, true)
    else let '(tokens', err') := Bufio.scanFrom rest EmptyString in
         (tokens ++ tokens', err').
Proof.
  revert line. induction data as [|c d IH]; intros line Hline Hlast.
  - rewrite (Hline eq_refl), append_empty_l. simpl.
    by destruct (Bufio.scanFrom rest EmptyString).
  - rewrite append_cons. cbn [Bufio.scanFrom].
    rewrite lastByte_cons in Hlast.
    destruct (Ascii.eqb c LF) eqn:Hc.
    + destruct (Bufio.tooLong line); [done|].
      rewrite IH; [|done|by destruct d].
      destruct (Bufio.scanFrom d EmptyString) as [tokens err].
      destruct err; [done|].
      by destruct (Bufio.scanFrom rest EmptyString).
    + destruct d as [|y d]; [by rewrite Hc in Hlast|].
      by rewrite IH.
Qed.

Lemma readTeamLines_app (l1 l2 : list string) (teamData : gmap string string) :
  readTeamLines (l1 ++ l2) teamData
  = match readTeamLines l1 teamData with
    | inl err => inl err
    | inr teamData' => readTeamLines l2 teamData'
    end.
Proof.
  revert teamData. induction l1 as [|line l1 IH]; intros teamData; [done|].
  rewrite <- app_comm_cons. cbn [readTeamLines].
  destruct (_ || _)%bool; [apply IH|].
  by destruct (SplitN _ _ _) as [|x [|y [|z l]]].
Qed.

(** The line of a reloadable team definition reads back as the
    definition. *)
Lemma reloadable_line (teamID sd : string) (teamData : gmap string string) :
  reloadable teamID sd = true ->
  ContainsAny teamID (lineSep +:+ newline) = false ->
  Contains sd newline = false ->
  Bufio.scanFrom ((teamID +:+ lineSep +:+ sd) +:+ newline) EmptyString
  = ([Bufio.dropCR (teamID +:+ lineSep +:+ sd)], false)
  /\ readTeamLines [Bufio.dropCR (teamID +:+ lineSep +:+ sd)] teamData
     = inr (<[teamID := sd]> teamData).
Proof.
  unfold reloadable. intros Hrel Hsep Hnl.
  apply andb_true_iff in Hrel as [Hrel Hlen].
  apply andb_true_iff in Hrel as [Hid Hsd].
  apply negb_true_iff in Hlen.
  destruct teamID as [|c rest]; [done|].
  apply andb_true_iff in Hid as [Hid Hca].
  apply andb_true_iff in Hid as [Hc Hhash].
  apply negb_true_iff in Hc, Hhash.
  destruct (lastByte sd) as [e|] eqn:Hlast; [|done].
  apply andb_true_iff in Hsd as [He Hea]. apply negb_true_iff in He.
  assert (Hne : sd <> EmptyString) by (by intros ->).
  pose proof (TrimRightSpace_lastByte sd e Hlast He) as Htrim.
  destruct (ContainsAny_separators _ Hsep) as [Hsp Hlf].
  split.
  - rewrite scanFrom_one_line; [by rewrite append_empty_l| |by rewrite append_empty_l].
    by rewrite !IndexByte_append, Hlf, (Contains_newline _ Hnl).
  - rewrite <- append_assoc.
    rewrite dropCR_trimmed;
      [|by apply append_not_empty|by apply TrimRightSpace_append].
    cbn [readTeamLines].
    assert (Hline : TrimSpace ((String c rest +:+ lineSep) +:+ sd)
                    = (String c rest +:+ lineSep) +:+ sd).
    { rewrite !append_cons.
      apply (TrimSpace_ascii_edges c e); [done|done| |done|done].
      change (String c ((rest +:+ lineSep) +:+ sd))
        with (String c (rest +:+ lineSep) +:+ sd).
      by rewrite lastByte_append. }
    rewrite Hline.
    rewrite (append_assoc (String c rest) lineSep sd).
    unfold SplitN. rewrite Cut_separator by done.
    rewrite !append_cons. simpl. by rewrite Hhash.
Qed.

Lemma teamDataOf_append (file : option string) (teamData : gmap string string)
    (teamID sd : string) :
  terminated file = true ->
  teamDataOf file = inr teamData ->
  reloadable teamID sd = true ->
  ContainsAny teamID (lineSep +:+ newline) = false ->
  Contains sd newline = false ->
  let file' := Some (default EmptyString file +:+ teamID +:+ lineSep +:+ sd +:+ newline) in
  terminated file' = true /\ teamDataOf file' = inr (<[teamID := sd]> teamData).
Proof.
  intros Hterm Hdata Hrel Hsep Hnl file'. subst file'. split.
  - unfold terminated.
    replace (default EmptyString file +:+ teamID +:+ lineSep +:+ sd +:+ newline)
      with ((default EmptyString file +:+ teamID +:+ lineSep +:+ sd) +:+ newline)
      by by rewrite !append_assoc.
    by rewrite lastByte_append.
  - destruct (reloadable_line teamID sd teamData Hrel Hsep Hnl) as [Hscan Hread].
    unfold teamDataOf, readTeamFile, Bufio.Scan.
    replace (teamID +:+ lineSep +:+ sd +:+ newline)
      with ((teamID +:+ lineSep +:+ sd) +:+ newline)
      by by rewrite !append_assoc.
    rewrite scanFrom_terminated; [|done|].
    + rewrite Hscan. destruct file as [data|].
      * change (default EmptyString (Some data)) with data.
        cbn [teamDataOf] in Hdata. unfold readTeamFile, Bufio.Scan in Hdata.
        destruct (Bufio.scanFrom data EmptyString) as [tokens err].
        destruct (readTeamLines tokens ∅) as [e|m] eqn:Hlines; [done|].
        destruct err; [done|]. injection Hdata as ->.
        by rewrite readTeamLines_app, Hlines, Hread.
      * change (default EmptyString None) with EmptyString.
        injection Hdata as <-. cbn [Bufio.scanFrom app].
        by rewrite (proj2 (reloadable_line teamID sd ∅ Hrel Hsep Hnl)).
    + by destruct file.
Qed.

(** Changing a team in place, its setup data kept, and taking teams
    out of the map keep the map covered. *)
Lemma covered_update (g : Governor) (tm : gmap string nat) (a : nat) (t t' : Team) :
  covered g ->
  heap g !! a = Some t ->
  setupData t' = setupData t ->
  (forall k b, tm !! k = Some b -> teams g !! k = Some b) ->
  covered (mkGovernor tm (<[a := t']> (heap g)) (teamFile g)).
Proof.
  intros (Hterm & m & Hm & Hcov) Ha Hsd Hsub.
  split; [done|]. exists m. split; [done|].
  intros k b Hk. simpl in *. destruct (Hcov k b (Hsub k b Hk)) as (t0 & Hb & Hmk).
  destruct (decide (a = b)) as [<-|Hne].
  - exists t'. rewrite list_lookup_insert_eq by (by eapply lookup_lt_Some).
    split; [done|]. congruence.
  - exists t0. by rewrite list_lookup_insert_ne.
Qed.

Lemma NewTeam_covered (os : io) (g : Governor) (teamID sd : string) :
  covered g ->
  orderly (EvNewTeam os teamID sd) = true ->
  covered (NewTeam os g teamID sd).1.
Proof.
  intros Hcov Hord. cbn [orderly] in Hord.
  apply andb_true_iff in Hord as [Hrel Hos].
  unfold NewTeam.
  destruct (decide _) as [Hs|Hfresh]; [done|].
  destruct (ContainsAny _ _) eqn:Hsep; [done|].
  destruct (Contains _ _) eqn:Hnl; [done|].
  destruct Hcov as (Hterm & m & Hm & Hcov).
  destruct (teamDataOf_append _ _ _ _ Hterm Hm Hrel Hsep Hnl) as [Hterm' Hm'].
  assert (Hold : forall k a, teams g !! k = Some a ->
            exists t, (heap g ++ [mkTeam teamID None None sd None]) !! a = Some t
                      /\ <[teamID := sd]> m !! k = Some (setupData t)).
  { intros k a Hk. destruct (Hcov k a Hk) as (t & Ha & Hmk). exists t.
    split; [by apply lookup_app_l_Some|].
    rewrite lookup_insert_ne; [done|]. intros <-. apply Hfresh. by rewrite Hk. }
  unfold appendTeamDefinition. destruct os; [| |done|]; cbn [fst snd].
  - split; [done|]. eexists. split; [exact Hm'|]. cbn [teams heap].
    intros k a. destruct (decide (k = teamID)) as [->|Hne].
    + rewrite lookup_insert_eq. intros [= <-]. eexists.
      rewrite lookup_app_r, Nat.sub_diag by done. split; [done|].
      by rewrite lookup_insert_eq.
    + rewrite lookup_insert_ne by done. apply Hold.
  - split; [by destruct g|]. exists m. split; [by destruct g|]. by destruct g.
  - split; [done|]. eexists. split; [exact Hm'|]. cbn [teams heap set_teamFile].
    intros k a Hk. destruct (Hold k a Hk) as (t & Ha & Hmk). exists t.
    split; [|done]. destruct (Hcov k a Hk) as (t1 & Ha1 & _).
    rewrite Ha1. by rewrite (lookup_app_l_Some _ _ _ _ Ha1) in Ha.
Qed.

Lemma step_covered (g g' : Governor) (ev : event) :
  covered g -> orderly ev = true -> step g ev = Done g' -> covered g'.
Proof.
  intros Hcov Hord.
  destruct ev as [os teamID sd|teamID sd|a s|a|a r]; cbn [step].
  - intros [= <-]. by apply NewTeam_covered.
  - done.
  - destruct (heap g !! a) as [team|] eqn:Ha; intros [= <-]; [|done].
    apply (covered_update g (teams g) a team); [done|done| |done].
    by destruct s.
  - destruct (heap g !! a) as [team|] eqn:Ha; [|by intros [= <-]].
    unfold Run_exit, Team_Close.
    destruct (canceler team); [|done]. destruct (teamApp team) as [app|]; [|done].
    destruct (App_Close app) as [app' err]. intros [= <-].
    by apply (covered_update g (teams g) a team).
  - destruct (heap g !! a) as [team|] eqn:Ha; [|by intros [= <-]].
    unfold chatEventGoroutine. rewrite Ha.
    destruct (teamApp team) as [app|]; [|done].
    destruct r; try by intros [= <-].
    destruct (App_Close app) as [app' err]. intros [= <-].
    apply (covered_update g _ a team); [done|done|done|].
    intros k b Hk. by apply lookup_delete_Some in Hk as [_ Hk].
Qed.

Lemma run_covered (evs : list event) (g g' : Governor) :
  covered g -> forallb orderly evs = true -> run g evs = Done g' -> covered g'.
Proof.
  revert g. induction evs as [|ev evs IH]; cbn [run forallb]; intros g Hcov Hord Hrun.
  - by injection Hrun as <-.
  - apply andb_true_iff in Hord as [Hev Hevs].
    destruct (step g ev) as [g1|p] eqn:Hstep; [|done].
    apply (IH g1); [|done|done]. by apply (step_covered g g1 ev).
Qed.

(** [NewGovernor] on the team data of the file. *)
Lemma NewGovernor_teamDataOf (file : option string) (teamData : gmap string string) :
  teamDataOf file = inr teamData ->
  exists g, NewGovernor file = inr g /\ started g teamData /\ teamFile g = file.
Proof.
  intros Hdata. unfold NewGovernor. destruct file as [data|].
  - cbn [teamDataOf] in Hdata. rewrite Hdata. eexists. split; [reflexivity|].
    destruct (fold_StartTeam_started (map_to_list teamData) (Some data)) as [Hinv Hfile].
    { apply NoDup_fst_map_to_list. }
    by rewrite list_to_map_to_list in Hinv.
  - injection Hdata as <-. cbn [readTeamFile]. eexists. split; [reflexivity|].
    split; [|done]. intros k. cbn [teams]. by rewrite !lookup_empty.
Qed.

Lemma readTeamLines_error (lines : list string) (teamData : gmap string string)
    (err : error) :
  readTeamLines lines teamData = inl err -> err = ErrInvalidLine.
Proof.
  revert teamData. induction lines as [|line lines IH]; intros teamData; [done|].
  cbn [readTeamLines]. destruct (_ || _)%bool; [apply IH|].
  destruct (SplitN _ _ _) as [|x [|y [|z l]]]; try (by intros [= <-]). apply IH.
Qed.

(** The governor that [NewGovernor] builds on a team file whose last
    line is complete is covered by the file, and so is every governor
    it becomes by orderly steps. *)
Lemma NewGovernor_covered (file : option string) (g0 : Governor) :
  terminated file = true -> NewGovernor file = inr g0 -> covered g0.
Proof.
  intros Hterm Hnew.
  assert (Hdata : exists m, teamDataOf file = inr m).
  { destruct file as [data|]; [|by eexists]. cbn [teamDataOf].
    unfold NewGovernor in Hnew.
    destruct (readTeamFile (Some data)) as [err|m] eqn:Hread; [|by eexists].
    exfalso. unfold readTeamFile in Hread.
    destruct (Bufio.Scan data) as [lines scanErr].
    destruct (readTeamLines lines ∅) as [e|m] eqn:Hlines.
    - apply readTeamLines_error in Hlines as ->. by injection Hread as <-.
    - destruct scanErr; [|done]. by injection Hread as <-. }
  destruct Hdata as [m Hm].
  destruct (NewGovernor_teamDataOf file m Hm) as (g & Hg & Hstarted & Hfile).
  rewrite Hg in Hnew. injection Hnew as <-.
  split; [by rewrite Hfile|]. exists m. split; [by rewrite Hfile|].
  intros k a Hk. specialize (Hstarted k). rewrite Hk in Hstarted.
  destruct Hstarted as (sd & Hsd & Ha). by eexists.
Qed.

Lemma orderly_run_covered (file : option string) (g0 g : Governor) (evs : list event) :
  terminated file = true ->
  NewGovernor file = inr g0 ->
  forallb orderly evs = true ->
  run g0 evs = Done g ->
  covered g.
Proof.
  intros Hterm Hnew Hord Hrun.
  apply (run_covered evs g0 g); [|done|done]. by apply (NewGovernor_covered file).
Qed.

(** A restart on the file of a covered governor starts a team for the
    ID [k] when the team data of the file hold setup data for [k]. *)
Lemma covered_restart (g : Governor) :
  covered g ->
  exists g' (teamData : gmap string string),
    NewGovernor (teamFile g) = inr g'
    /\ (forall k a, teams g !! k = Some a ->
          exists t, heap g !! a = Some t /\ teamData !! k = Some (setupData t))
    /\ forall k sd, teamData !! k = Some sd ->
          exists a', teams g' !! k = Some a'
                     /\ heap g' !! a' = Some (mkTeam k None None sd None).
Proof.
  intros (Hterm & m & Hm & Hcov).
  destruct (NewGovernor_teamDataOf _ m Hm) as (g' & Hg' & Hstarted & _).
  exists g', m. split; [done|]. split; [done|].
  intros k sd Hk. specialize (Hstarted k).
  destruct (teams g' !! k) as [a'|]; [|congruence].
  destruct Hstarted as (sd' & Hsd' & Ha'). exists a'. split; [done|]. congruence.
Qed.

End RestartFacts.

(** X14.  Registrations survive a restart.  Take a governor that
    [NewGovernor] has built on a team file whose last line is complete
    (or on no file), and let it take orderly steps: calls of [NewTeam]
    with a reloadable team definition and without a write to the file
    that stops midway, and steps of the goroutines ([Team.Run], chat
    events, uninstalls included), but no further call of [StartTeam],
    which [NewGovernor] alone calls.  Then [NewGovernor] on the team
    file as it is afterwards succeeds, and for every team of the map it
    starts a team with the same ID and the same setup data. *)
Theorem registrations_survive_restart (file : option string)
    (g0 g : Governor.Governor) (evs : list Governor.event) :
  Governor.terminated file = true ->
  Governor.NewGovernor file = inr g0 ->
  forallb Governor.orderly evs = true ->
  Governor.run g0 evs = Governor.Done g ->
  exists g',
    Governor.NewGovernor (Governor.teamFile g) = inr g'
    /\ forall k a, Governor.teams g !! k = Some a ->
         exists t a',
           Governor.heap g !! a = Some t
           /\ Governor.teams g' !! k = Some a'
           /\ Governor.heap g' !! a'
              = Some (Governor.mkTeam k None None (Governor.setupData t) None).
Proof.
  intros Hterm Hnew Hord Hrun.
  destruct (covered_restart g (orderly_run_covered file g0 g evs Hterm Hnew Hord Hrun))
    as (g' & m & Hg' & Hmap & Hstart).
  exists g'. split; [done|]. intros k a Hk.
  destruct (Hmap k a Hk) as (t & Ha & Hsd).
  destruct (Hstart k _ Hsd) as (a' & Hk' & Ha').
  by exists t, a'.
Qed.

Lemma registrations_survive_restart_witness :
  let g0 := Governor.mkGovernor ∅ [] None in
  let evs := [Governor.EvNewTeam Governor.IOSucceeds "T1" "s1";
              Governor.EvRunStartup 0 Governor.SlackInterfaceFails;
              Governor.EvNewTeam Governor.IOSucceeds "T2" "s2 x"] in
  exists g,
    Governor.run g0 evs = Governor.Done g
    /\ exists g',
         Governor.NewGovernor (Governor.teamFile g) = inr g'
         /\ forall k a, Governor.teams g !! k = Some a ->
              exists t a',
                Governor.heap g !! a = Some t
                /\ Governor.teams g' !! k = Some a'
                /\ Governor.heap g' !! a'
                   = Some (Governor.mkTeam k None None (Governor.setupData t) None).
Proof.
  intros g0 evs. eexists. split; [reflexivity|].
  apply (registrations_survive_restart None g0 _ evs);
    [reflexivity | reflexivity | reflexivity | reflexivity].
Defined.

(** A write that stops midway leaves a line without its line feed, and
    the next registration is appended to that line: the restart then
    knows nothing of the team [T3], which is in the map. *)
Remark partial_write_loses_next_team :
  let evs := [Governor.EvNewTeam Governor.IOSucceeds "T1" "s1";
              Governor.EvNewTeam (Governor.WriteFails 4) "T2" "s2";
              Governor.EvNewTeam Governor.IOSucceeds "T3" "s3"] in
  exists g g',
    Governor.run (Governor.mkGovernor ∅ [] None) evs = Governor.Done g
    /\ is_Some (Governor.teams g !! "T3"%string)
    /\ Governor.NewGovernor (Governor.teamFile g) = inr g'
    /\ Governor.teams g' !! "T3"%string = None
    /\ (Governor.teams g' !! "T2"%string) ≫= (fun a => Governor.heap g' !! a)
       = Some (Governor.mkTeam "T2" None None "sT3 s3" None).
Proof.
  intros evs. eexists _, _. split; [reflexivity|]. split; [by eexists|].
  split; [reflexivity|]. split; reflexivity.
Qed.

(** X15.  An uninstall is not written to the team file.  Take a
    governor that [NewGovernor] has built on a team file whose last
    line is complete (or on no file) and that has taken orderly steps
    (calls of [NewTeam] with a reloadable team definition and without a
    write that stops midway, steps of the goroutines, no further call
    of [StartTeam]), and a team of its map whose app has been started.
    When the goroutine of a chat event finds that the app has been
    uninstalled from that team, the team leaves the map, but
    [NewGovernor] on the team file as it is afterwards starts a team
    with that ID and the setup data of the uninstalled team again. *)
Theorem uninstalled_team_is_restarted (file : option string)
    (g0 g : Governor.Governor) (evs : list Governor.event)
    (k : string) (a : nat) (team : Governor.Team) (app : Governor.App) :
  Governor.terminated file = true ->
  Governor.NewGovernor file = inr g0 ->
  forallb Governor.orderly evs = true ->
  Governor.run g0 evs = Governor.Done g ->
  Governor.teams g !! k = Some a ->
  Governor.heap g !! a = Some team ->
  Governor.teamApp team = Some app ->
  exists g1 g',
    Governor.chatEventGoroutine g a k Governor.ChatErrStopTeam = Governor.Done g1
    /\ Governor.teams g1 !! k = None
    /\ Governor.NewGovernor (Governor.teamFile g1) = inr g'
    /\ exists a',
         Governor.teams g' !! k = Some a'
         /\ Governor.heap g' !! a'
            = Some (Governor.mkTeam k None None (Governor.setupData team) None).
Proof.
  intros Hterm Hnew Hord Hrun Hk Ha Happ.
  destruct (covered_restart g (orderly_run_covered file g0 g evs Hterm Hnew Hord Hrun))
    as (g' & m & Hg' & Hmap & Hstart).
  unfold Governor.chatEventGoroutine. rewrite Ha, Happ.
  destruct (Governor.App_Close app) as [app' err].
  eexists _, g'. split; [reflexivity|]. cbn [Governor.teams Governor.teamFile].
  split; [by rewrite lookup_delete_eq|]. split; [done|].
  destruct (Hmap k a Hk) as (t & Ha' & Hsd).
  apply Hstart. congruence.
Qed.

Lemma uninstalled_team_is_restarted_witness :
  let g0 := Governor.mkGovernor ∅ [] None in
  let ud := PersistentDB.NewPersistentDB PersistentDB.emptyDB in
  let evs := [Governor.EvNewTeam Governor.IOSucceeds "T1" "s1";
              Governor.EvRunStartup 0 (Governor.Started ud)] in
  exists g g1 g',
    Governor.run g0 evs = Governor.Done g
    /\ Governor.chatEventGoroutine g 0 "T1" Governor.ChatErrStopTeam = Governor.Done g1
    /\ Governor.teams g1 !! "T1"%string = None
    /\ Governor.NewGovernor (Governor.teamFile g1) = inr g'
    /\ exists a',
         Governor.teams g' !! "T1"%string = Some a'
         /\ Governor.heap g' !! a' = Some (Governor.mkTeam "T1" None None "s1" None).
Proof.
  intros g0 ud evs.
  pose proof (uninstalled_team_is_restarted None g0 _ evs "T1" 0%nat _ _
                eq_refl eq_refl eq_refl eq_refl eq_refl eq_refl eq_refl)
    as (g1 & g' & H1 & H2 & H3 & H4).
  eexists _, g1, g'. split; [reflexivity|].
  split; [exact H1|]. split; [exact H2|]. split; [exact H3|exact H4].
Defined.

(** * Properties of the Slack formatter *)

Section LinkFacts.
Import Strings Slack.
Local Arguments Ascii.eqb : simpl never.

Lemma length_append (a b : string) :
  String.length (a +:+ b) = (String.length a + String.length b)%nat.
Proof. induction a as [|x a IH]; [done|]. rewrite append_cons. simpl. by rewrite IH. Qed.

Lemma get_append_at (a b : string) (c : ascii) :
  String.get (String.length a) (a +:+ String c b) = Some c.
Proof. induction a as [|x a IH]; [done|]. by rewrite append_cons. Qed.

Lemma substring_prefix (a b : string) :
  String.substring 0 (String.length a) (a +:+ b) = a.
Proof.
  induction a as [|x a IH]; [by destruct b|]. rewrite append_cons. simpl. by rewrite IH.
Qed.

(** The last byte and the inside of a text in brackets. *)
Lemma bracket_last (open inner : string) :
  byteIs (open +:+ inner +:+ ">")
    (String.length (open +:+ inner +:+ ">") - 1) ">" = true.
Proof.
  rewrite <- append_assoc.
  rewrite length_append. simpl. rewrite Nat.add_sub.
  unfold byteIs. by rewrite get_append_at.
Qed.

Lemma slice_two (x y : ascii) (inner : string) :
  slice (String x (String y (inner +:+ ">"))) 2
    (String.length (String x (String y (inner +:+ ">"))) - 1) = inner.
Proof.
  unfold slice. simpl. rewrite length_append. simpl.
  rewrite Nat.add_sub. apply substring_prefix.
Qed.

(** The first separator of a text that starts with a part free of the
    separator byte. *)
Lemma Index_first (a b : string) :
  IndexByte "|" a = false -> Index (a +:+ String "|" b) "|" = Some (String.length a).
Proof.
  induction a as [|x a IH]; intros Ha.
  - reflexivity.
  - simpl in Ha. apply orb_false_elim in Ha as [Hx Ha].
    rewrite append_cons. simpl. rewrite (Ascii.eqb_sym x "|"), Hx. simpl.
    by rewrite (IH Ha).
Qed.

Lemma Index_none (a : string) : IndexByte "|" a = false -> Index a "|" = None.
Proof.
  induction a as [|x a IH]; intros Ha; [done|].
  simpl in Ha. apply orb_false_elim in Ha as [Hx Ha].
  simpl. rewrite (Ascii.eqb_sym x "|"), Hx. simpl. by rewrite (IH Ha).
Qed.

(** What the tests of [UnwrapUserLink] and [UnwrapChannelLink] find on
    a text in brackets with a sign [y] after the opening bracket. *)
Lemma unwrap_tests (y : ascii) (inner : string) :
  inner <> EmptyString ->
  let s := String "<" (String y (inner +:+ ">")) in
  Nat.ltb 3 (String.length s) = true
  /\ byteIs s 0 "<" = true
  /\ byteIs s 1 y = true
  /\ byteIs s (String.length s - 1) ">" = true
  /\ slice s 2 (String.length s - 1) = inner.
Proof.
  intros Hne s. subst s. split; [|split; [|split; [|split]]].
  - apply Nat.ltb_lt. simpl. rewrite length_append. simpl.
    destruct inner; [done|]. simpl. lia.
  - reflexivity.
  - unfold byteIs. simpl. apply Ascii.eqb_refl.
  - exact (bracket_last (String "<" (String y EmptyString)) inner).
  - apply slice_two.
Qed.

Lemma slice_one (x : ascii) (inner : string) :
  slice (String x (inner +:+ ">")) 1 (String.length (String x (inner +:+ ">")) - 1)
  = inner.
Proof.
  unfold slice. simpl. rewrite length_append. simpl.
  rewrite Nat.sub_0_r.
  replace (String.length inner + 1 - 1)%nat with (String.length inner) by lia.
  apply substring_prefix.
Qed.

Lemma bracket_last_one (x : ascii) (inner : string) :
  byteIs (String x (inner +:+ ">"))
    (String.length (String x (inner +:+ ">")) - 1) ">" = true.
Proof. exact (bracket_last (String x EmptyString) inner). Qed.

Lemma slice_before (a b : string) : slice (a +:+ b) 0 (String.length a) = a.
Proof. unfold slice. rewrite Nat.sub_0_r. apply substring_prefix. Qed.

End LinkFacts.

(** X16.  [UnwrapUserLink] undoes [FormatUserLink]: for every chat ID,
    the empty one included, unwrapping the formatted link gives the
    chat ID. *)
Theorem UnwrapUserLink_FormatUserLink (chatID : string) :
  Slack.UnwrapUserLink (Slack.FormatUserLink chatID) = chatID.
Proof.
  destruct chatID as [|c rest]; [reflexivity|].
  unfold Slack.UnwrapUserLink, Slack.FormatUserLink.
  change ("<@" +:+ String c rest +:+ ">")
    with (String "<" (String "@" (String c rest +:+ ">"))).
  destruct (unwrap_tests "@" (String c rest)) as (-> & -> & -> & -> & ->); done.
Qed.

(** X17.  [UnwrapChannelLink] gives the channel ID of a channel link,
    with or without a channel name after a bar: for a channel ID
    without a bar, it undoes [FormatChannelLink], and on
    [<#ID|name>] it gives the ID. *)
Theorem UnwrapChannelLink_channel_ID (channelID name : string) :
  Strings.IndexByte "|" channelID = false ->
  Slack.UnwrapChannelLink (Slack.FormatChannelLink channelID) = channelID
  /\ Slack.UnwrapChannelLink ("<#" +:+ channelID +:+ "|" +:+ name +:+ ">") = channelID.
Proof.
  intros Hbar. unfold Slack.UnwrapChannelLink, Slack.FormatChannelLink. split.
  - destruct channelID as [|c rest]; [reflexivity|].
    change ("<#" +:+ String c rest +:+ ">")
      with (String "<" (String "#" (String c rest +:+ ">"))).
    destruct (unwrap_tests "#" (String c rest)) as (-> & -> & -> & -> & ->); [done|].
    cbn [andb]. by rewrite Index_none.
  - replace ("<#" +:+ channelID +:+ "|" +:+ name +:+ ">")
      with (String "<" (String "#" ((channelID +:+ String "|" name) +:+ ">")))
      by (rewrite append_assoc; reflexivity).
    destruct (unwrap_tests "#" (channelID +:+ String "|" name))
      as (-> & -> & -> & -> & ->); [by apply append_not_empty|].
    cbn [andb]. rewrite Index_first by done. apply slice_before.
Qed.

Lemma UnwrapChannelLink_channel_ID_witness :
  Strings.IndexByte "|" "C024BE91L" = false
  /\ Slack.UnwrapChannelLink "<#C024BE91L|general>" = "C024BE91L"%string.
Proof.
  split; [reflexivity|].
  exact (proj2 (UnwrapChannelLink_channel_ID "C024BE91L" "general" eq_refl)).
Defined.

(** X18.  [UnwrapLink] undoes [FormatLink]: for a URL without a bar
    and any text, however the text is escaped, unwrapping the formatted
    link gives the URL.  [UnwrapLink] panics on the empty string, with
    an index out of range, and on no other string. *)
Theorem UnwrapLink_FormatLink (escapeText : string -> string) (url text : string) :
  Strings.IndexByte "|" url = false ->
  Slack.UnwrapLink (Slack.FormatLink escapeText url text) = Slack.Returns url
  /\ forall link,
       (exists i n, Slack.UnwrapLink link = Slack.PanicIndexOutOfRange i n)
       <-> link = EmptyString.
Proof.
  intros Hbar. split.
  - unfold Slack.UnwrapLink, Slack.FormatLink.
    replace ("<" +:+ url +:+ "|" +:+ escapeText text +:+ ">")
      with (String "<" ((url +:+ String "|" (escapeText text)) +:+ ">"))
      by (rewrite append_assoc; reflexivity).
    cbn [String.get]. rewrite Ascii.eqb_refl.
    rewrite bracket_last_one.
    cbn [andb]. rewrite slice_one, Index_first by done.
    by rewrite slice_before.
  - intros link. split.
    + intros (i & n & H). destruct link as [|c rest]; [done|].
      unfold Slack.UnwrapLink in H. cbn [String.get] in H.
      destruct (_ && _)%bool; [|done]. by destruct (Slack.Index _ _).
    + intros ->. by exists 0%nat, 0%nat.
Qed.

Lemma UnwrapLink_FormatLink_witness :
  Strings.IndexByte "|" "https://gerrit.example/c/1" = false
  /\ Slack.UnwrapLink (Slack.FormatLink (fun t => t) "https://gerrit.example/c/1" "a|b")
     = Slack.Returns "https://gerrit.example/c/1".
Proof.
  split; [reflexivity|].
  exact (proj1 (UnwrapLink_FormatLink (fun t => t) "https://gerrit.example/c/1" "a|b" eq_refl)).
Defined.

(** ** The cache over sequences of calls *)

Section CacheFacts.
Import PersistentDB.

(** A call that keeps the cache, and the chat ID of every row of the
    users, keeps the cache in agreement with the table. *)
Lemma cacheAgrees_kept (ud ud' : PersistentDB) :
  cache ud' = cache ud ->
  (forall u r, userRow (db ud) u = Some r ->
     exists r', userRow (db ud') u = Some r' /\ chat_id r' = chat_id r) ->
  cacheAgrees ud -> cacheAgrees ud'.
Proof.
  intros Hcache Hrows Hagree u c Hc. rewrite Hcache in Hc.
  destruct (Hagree u c Hc) as (r & Hr & <-). by apply Hrows.
Qed.

Lemma cacheAgrees_same_users (ud ud' : PersistentDB) :
  cache ud' = cache ud ->
  gerrit_users (db ud') = gerrit_users (db ud) ->
  cacheAgrees ud -> cacheAgrees ud'.
Proof.
  intros Hcache Husers. apply cacheAgrees_kept; [done|].
  intros u r. unfold userRow. rewrite Husers. eauto.
Qed.

Lemma UpdateLastReportTime_cacheAgrees (ud : PersistentDB) (u : string) (when : Time) :
  cacheAgrees ud -> cacheAgrees (UpdateLastReportTime ud u when).1.
Proof.
  destruct (closed (db ud)) eqn:Hopen.
  { unfold UpdateLastReportTime, UpdateNoReturn_GerritUser_By_GerritUsername.
    rewrite Hopen. by destruct ud. }
  rewrite (UpdateLastReportTime_open _ _ _ Hopen).
  apply cacheAgrees_kept; [done|].
  intros u' r. unfold userRow. cbn [fst db set_db set_gerrit_users gerrit_users].
  rewrite find_update_last_report. intros ->. eexists. split; [reflexivity|].
  unfold update_last_report. by destruct (String.eqb _ _).
Qed.

Lemma Record_users (ud : PersistentDB) (env : nat -> Z * Time) (p : string) (c n : Z)
    (hs : list string) :
  let ud' := (RecordPatchSetAnnouncements ud env p c n hs).1 in
  cache ud' = cache ud /\ gerrit_users (db ud') = gerrit_users (db ud).
Proof.
  unfold RecordPatchSetAnnouncements.
  destruct (closed (db ud)) eqn:Hopen.
  - by rewrite (Record_loop_closed _ _ _ _ _ _ _ _ Hopen).
  - by destruct (Record_loop_open env p c n hs (db ud) 0%nat [] Hopen) as (rows & -> & _).
Qed.

Lemma Identify_users (ud : PersistentDB) (m : gmap string Time) :
  let ud' := (IdentifyNewInlineComments ud m).1.1 in
  cache ud' = cache ud /\ gerrit_users (db ud') = gerrit_users (db ud).
Proof.
  destruct (closed (db ud)) eqn:Hopen.
  - by rewrite (Identify_closed _ _ Hopen).
  - destruct (Identify_open ud m Hopen) as (ud' & m' & H & _).
    revert H. unfold IdentifyNewInlineComments.
    destruct (decide _); [by intros [= <- _]|].
    destruct (Query_inline_comment_ids _ _); [by intros [= <- _]|].
    destruct (decide _); [by intros [= <- _]|].
    unfold Exec_upsert_inline_comments. rewrite Hopen. by intros [= <- _].
Qed.

Lemma perform_cacheAgrees (maxAge days : Z) (AddDate : Time -> Z -> Z -> Z -> Time)
    (ud : PersistentDB) (c : call) :
  cacheAgrees ud -> cacheAgrees (perform maxAge days AddDate ud c).
Proof.
  destruct c as [u|u chatID|u when|m|env p cn pn hs|key value|now|]; cbn [perform].
  - apply Lookup_cacheAgrees.
  - apply Associate_cacheAgrees.
  - apply UpdateLastReportTime_cacheAgrees.
  - destruct (Identify_users ud m) as [Hc Hu]. by apply cacheAgrees_same_users.
  - destruct (Record_users ud env p cn pn hs) as [Hc Hu]. by apply cacheAgrees_same_users.
  - apply cacheAgrees_same_users.
    + unfold SetConfig. by destruct (Exec_upsert_team_config _ _ _).
    + unfold SetConfig, Exec_upsert_team_config. by destruct (closed (db ud)).
  - apply cacheAgrees_same_users.
    + unfold Prune. destruct (Delete_InlineComment_By_UpdatedAt_Less _ _) as [d' [e|]];
        [done|]. by destruct (Delete_PatchsetAnnouncement_By_Ts_Less _ _).
    + unfold Prune, Delete_InlineComment_By_UpdatedAt_Less,
        Delete_PatchsetAnnouncement_By_Ts_Less.
      destruct (closed (db ud)) eqn:Hopen; [done|]. cbn. by rewrite Hopen.
  - by apply cacheAgrees_same_users.
Qed.

Lemma fold_perform_cacheAgrees (maxAge days : Z) (AddDate : Time -> Z -> Z -> Z -> Time)
    (calls : list call) (ud : PersistentDB) :
  cacheAgrees ud -> cacheAgrees (fold_left (perform maxAge days AddDate) calls ud).
Proof.
  revert ud. induction calls as [|c calls IH]; intros ud Hagree; [done|].
  cbn [fold_left]. by apply IH, perform_cacheAgrees.
Qed.

End CacheFacts.

(** X19.  The cache of chat IDs stays true to the table.  After any
    sequence of calls on a new [PersistentDB] (lookups, associations,
    report times, inline comments, announcements, config items, prunes,
    and [Close]), whether they succeed or fail, a
    [LookupChatIDForGerritUser] that returns without error returns the
    chat ID of the user's row, also when it is answered from the
    cache. *)
Theorem lookup_returns_the_stored_chat_ID (maxAge days : Z)
    (AddDate : PersistentDB.Time -> Z -> Z -> Z -> PersistentDB.Time)
    (d : PersistentDB.DB) (calls : list PersistentDB.call) (u c : string) :
  let ud := fold_left (PersistentDB.perform maxAge days AddDate) calls
              (PersistentDB.NewPersistentDB d) in
  (PersistentDB.LookupChatIDForGerritUser ud u).2 = (c, None) ->
  exists r, PersistentDB.userRow (PersistentDB.db ud) u = Some r
            /\ PersistentDB.chat_id r = c.
Proof.
  intros ud.
  assert (Hagree : PersistentDB.cacheAgrees ud).
  { apply fold_perform_cacheAgrees, cacheAgrees_cold. }
  unfold PersistentDB.LookupChatIDForGerritUser.
  destruct (PersistentDB.cache ud !! u) as [c'|] eqn:Hc.
  - intros [= <-]. by apply Hagree.
  - unfold PersistentDB.LookupGerritUser, PersistentDB.Get_GerritUser_By_GerritUsername.
    destruct (PersistentDB.closed (PersistentDB.db ud)); [done|].
    destruct (PersistentDB.userRow (PersistentDB.db ud) u) as [r|]; [|done].
    intros [= <-]. by exists r.
Qed.

Lemma lookup_returns_the_stored_chat_ID_witness :
  let addDate := fun (t : PersistentDB.Time) (_ _ days : Z) => t + days * 86400000000000 in
  let calls := [PersistentDB.CallAssociateChatIDWithGerritUser "alice" "U1";
                PersistentDB.CallUpdateLastReportTime "alice" 100;
                PersistentDB.CallAssociateChatIDWithGerritUser "alice" "U2";
                PersistentDB.CallClose] in
  let ud := fold_left (PersistentDB.perform 3600000000000 7 addDate) calls
              (PersistentDB.NewPersistentDB PersistentDB.emptyDB) in
  (PersistentDB.LookupChatIDForGerritUser ud "alice").2 = ("U1"%string, None)
  /\ exists r, PersistentDB.userRow (PersistentDB.db ud) "alice" = Some r
               /\ PersistentDB.chat_id r = "U1"%string.
Proof.
  intros addDate calls ud. split; [reflexivity|].
  exact (lookup_returns_the_stored_chat_ID 3600000000000 7 addDate PersistentDB.emptyDB
           calls "alice" "U1" eq_refl).
Defined.

(** ** The database of a team *)

Section SearchPathFacts.
Import Strings Governor.

Lemma substring_all (s : string) : String.substring 0 (String.length s) s = s.
Proof. induction s as [|c s IH]; [done|]. simpl. by rewrite IH. Qed.

Lemma substring_split (s : string) (n m : nat) :
  (n + m)%nat = String.length s ->
  String.substring 0 n s +:+ String.substring n m s = s.
Proof.
  revert n. induction s as [|c s IH]; intros n Hlen.
  - destruct n, m; done.
  - destruct n as [|n].
    + simpl in Hlen. subst m. rewrite append_empty_l.
      exact (substring_all (String c s)).
    + simpl in *. rewrite append_cons, IH; [done|lia].
Qed.

Lemma HasSuffix_split (s suffix : string) :
  HasSuffix s suffix = true ->
  String.substring 0 (String.length s - String.length suffix) s +:+ suffix = s.
Proof.
  unfold HasSuffix. intros H. apply andb_true_iff in H as [Hlen Heq].
  apply Nat.leb_le in Hlen. apply String.eqb_eq in Heq.
  etransitivity; [|apply (substring_split s (String.length s - String.length suffix)
                          (String.length suffix)); lia].
  by rewrite Heq.
Qed.

Lemma append_cancel_l (a x y : string) : a +:+ x = a +:+ y -> x = y.
Proof.
  induction a as [|c a IH]; [done|]. rewrite !append_cons. intros [= H]. by apply IH.
Qed.

Lemma append_cancel_r (x y b : string) : x +:+ b = y +:+ b -> x = y.
Proof.
  intros H.
  assert (Hlen : String.length x = String.length y).
  { apply (f_equal String.length) in H. rewrite !length_append in H. lia. }
  revert y H Hlen. induction x as [|c x IH]; intros [|d y] H Hlen; try done.
  rewrite !append_cons in H. injection H as -> H. f_equal. apply IH; [done|].
  simpl in Hlen. lia.
Qed.

End SearchPathFacts.

(** X20.  The opaque part of the sqlite URL of a team.  On a parsed
    URL whose scheme is [sqlite] or [sqlite3], the [switch] of
    [addSearchPath] puts the schema name, after a dot, at the end of
    the opaque part, before a final [.db] if there is one: with [base]
    the opaque part without that [.db], the new opaque part is
    [base.NAME.db], or [base.NAME] when there was no [.db].  For one
    URL, two schema names give the same opaque part only when they are
    the same name.  (What [u.String()] and the driver make of the
    opaque part is not part of the statement.) *)
Theorem addSearchPath_sqlite (searchPathQuery : string -> string -> string)
    (u : Governor.URL) :
  Governor.Scheme u = "sqlite"%string \/ Governor.Scheme u = "sqlite3"%string ->
  (exists base suffix,
      Governor.Opaque u = base +:+ suffix
      /\ (suffix = ".db"%string
          \/ suffix = EmptyString /\ Governor.HasSuffix (Governor.Opaque u) ".db" = false)
      /\ forall schemaName,
           Governor.addSearchPath_switch searchPathQuery u schemaName
           = inr (Governor.set_Opaque u (base +:+ "." +:+ schemaName +:+ suffix)))
  /\ forall name1 name2 u1 u2,
       Governor.addSearchPath_switch searchPathQuery u name1 = inr u1 ->
       Governor.addSearchPath_switch searchPathQuery u name2 = inr u2 ->
       Governor.Opaque u1 = Governor.Opaque u2 ->
       name1 = name2.
Proof.
  intros Hscheme.
  assert (Hswitch : forall schemaName,
            Governor.addSearchPath_switch searchPathQuery u schemaName
            = inr (Governor.set_Opaque u
                     ((if Governor.HasSuffix (Governor.Opaque u) ".db"
                       then String.substring 0 (String.length (Governor.Opaque u) - 3)
                              (Governor.Opaque u)
                       else Governor.Opaque u)
                      +:+ "." +:+ schemaName +:+
                      (if Governor.HasSuffix (Governor.Opaque u) ".db"
                       then ".db"%string else EmptyString)))).
  { intros schemaName. unfold Governor.addSearchPath_switch.
    by destruct Hscheme as [-> | ->]. }
  split.
  - destruct (Governor.HasSuffix (Governor.Opaque u) ".db") eqn:Hdb.
    + eexists _, ".db"%string. split; [|split; [by left|exact Hswitch]].
      symmetry. exact (HasSuffix_split _ _ Hdb).
    + exists (Governor.Opaque u), EmptyString.
      split; [by rewrite append_empty_r|]. split; [by right|exact Hswitch].
  - intros name1 name2 u1 u2. rewrite !Hswitch. intros [= <-] [= <-].
    cbn [Governor.Opaque Governor.set_Opaque]. intros H.
    apply append_cancel_l in H.
    rewrite !append_cons, !append_empty_l in H.
    injection H as H. by apply append_cancel_r in H.
Qed.

Lemma addSearchPath_sqlite_witness :
  let u := Governor.mkURL "sqlite" "chihuahua.db" None "" "" "" false "" "" "" in
  (Governor.Scheme u = "sqlite"%string \/ Governor.Scheme u = "sqlite3"%string)
  /\ forall name1 name2 u1 u2,
       Governor.addSearchPath_switch (fun q _ => q) u name1 = inr u1 ->
       Governor.addSearchPath_switch (fun q _ => q) u name2 = inr u2 ->
       Governor.Opaque u1 = Governor.Opaque u2 ->
       name1 = name2.
Proof.
  intros u. split; [by left|].
  exact (proj2 (addSearchPath_sqlite (fun q _ => q) u (or_introl eq_refl))).
Defined.

(** ** The keys of the tables over sequences of calls *)

Section KeyFacts.
Import PersistentDB.

Lemma NoDup_map_filter {A B} (f : A -> B) (p : A -> bool) (l : list A) :
  NoDup (List.map f l) -> NoDup (List.map f (List.filter p l)).
Proof.
  induction l as [|x l IH]; simpl; [done|].
  intros [Hx Hnd]%NoDup_cons. destruct (p x); simpl; [|by apply IH].
  apply NoDup_cons. split; [|by apply IH].
  intros Hin. apply Hx. apply list_elem_of_In, in_map_iff in Hin as (y & Hy & Hin).
  apply filter_In in Hin as [Hin _].
  apply list_elem_of_In, in_map_iff. by exists y.
Qed.

Lemma Associate_tables (ud : PersistentDB) (u c : string) :
  let d' := db (AssociateChatIDWithGerritUser ud u c).1 in
  NoDup (usernames (db ud)) ->
  NoDup (usernames d')
  /\ inline_comments d' = inline_comments (db ud)
  /\ team_configs d' = team_configs (db ud).
Proof.
  intros d' Hnd. subst d'.
  unfold AssociateChatIDWithGerritUser, CreateNoReturn_GerritUser.
  destruct (closed (db ud)); [done|].
  destruct (userRow (db ud) u) as [r|] eqn:Hrow; [done|].
  cbn. split; [|done]. unfold usernames in *. cbn. rewrite List.map_app. cbn.
  apply NoDup_app. split; [done|]. split; [|apply NoDup_singleton].
  intros k Hk ->%list_elem_of_singleton.
  apply list_elem_of_In, in_map_iff in Hk as (r & Hname & Hin).
  unfold userRow in Hrow. apply (find_none _ _ Hrow) in Hin.
  apply String.eqb_neq in Hin. done.
Qed.

Lemma UpdateLastReportTime_tables (ud : PersistentDB) (u : string) (when : Time) :
  let d' := db (UpdateLastReportTime ud u when).1 in
  usernames d' = usernames (db ud)
  /\ inline_comments d' = inline_comments (db ud)
  /\ team_configs d' = team_configs (db ud).
Proof.
  intros d'. subst d'.
  unfold UpdateLastReportTime, UpdateNoReturn_GerritUser_By_GerritUsername.
  destruct (closed (db ud)); [done|]. cbn. split; [|done].
  unfold usernames. cbn. rewrite List.map_map. apply List.map_ext.
  intros r. apply update_last_report_username.
Qed.

Lemma Identify_tables (ud : PersistentDB) (m : gmap string Time) :
  let d' := db (IdentifyNewInlineComments ud m).1.1 in
  gerrit_users d' = gerrit_users (db ud) /\ team_configs d' = team_configs (db ud).
Proof.
  intros d'. subst d'. unfold IdentifyNewInlineComments.
  destruct (decide _); [done|].
  destruct (Query_inline_comment_ids _ _); [done|].
  destruct (decide _); [done|].
  unfold Exec_upsert_inline_comments. by destruct (closed (db ud)).
Qed.

Lemma Record_tables (ud : PersistentDB) (env : nat -> Z * Time) (p : string) (c n : Z)
    (hs : list string) :
  let d' := db (RecordPatchSetAnnouncements ud env p c n hs).1 in
  gerrit_users d' = gerrit_users (db ud)
  /\ inline_comments d' = inline_comments (db ud)
  /\ team_configs d' = team_configs (db ud).
Proof.
  unfold RecordPatchSetAnnouncements.
  destruct (closed (db ud)) eqn:Hopen.
  - by rewrite (Record_loop_closed _ _ _ _ _ _ _ _ Hopen).
  - by destruct (Record_loop_open env p c n hs (db ud) 0%nat [] Hopen) as (rows & -> & _).
Qed.

Lemma SetConfig_tables (ud : PersistentDB) (key value : string) :
  let d' := db (SetConfig ud key value).1 in
  NoDup (configKeys (db ud)) ->
  NoDup (configKeys d')
  /\ gerrit_users d' = gerrit_users (db ud)
  /\ inline_comments d' = inline_comments (db ud).
Proof.
  intros d' Hnd. subst d'. unfold SetConfig, Exec_upsert_team_config.
  destruct (closed (db ud)); [done|]. cbn. split; [|done].
  unfold configKeys in *. cbn. rewrite configKeys_upsert.
  destruct (decide _) as [Hin|Hn]; [done|].
  apply NoDup_app. split; [done|]. split; [|apply NoDup_singleton].
  by intros k Hk ->%list_elem_of_singleton.
Qed.

Lemma Prune_tables (maxAge days : Z) (AddDate : Time -> Z -> Z -> Z -> Time)
    (ud : PersistentDB) (now : Time) :
  let d' := db (Prune maxAge days AddDate ud now).1 in
  NoDup (commentIDs (db ud)) ->
  NoDup (commentIDs d')
  /\ gerrit_users d' = gerrit_users (db ud)
  /\ team_configs d' = team_configs (db ud).
Proof.
  intros d' Hnd. subst d'.
  unfold Prune, Delete_InlineComment_By_UpdatedAt_Less,
    Delete_PatchsetAnnouncement_By_Ts_Less.
  destruct (closed (db ud)) eqn:Hopen; [done|]. cbn. rewrite Hopen. cbn.
  split; [|done]. by apply NoDup_map_filter.
Qed.

Lemma perform_keysDistinct (maxAge days : Z) (AddDate : Time -> Z -> Z -> Z -> Time)
    (ud : PersistentDB) (c : call) :
  keysDistinct (db ud) -> keysDistinct (db (perform maxAge days AddDate ud c)).
Proof.
  unfold keysDistinct, usernames, commentIDs, configKeys.
  intros (Hu & Hc & Hk).
  destruct c as [u|u chatID|u when|m|env p cn pn hs|key value|now|]; cbn [perform].
  - unfold LookupChatIDForGerritUser. destruct (cache ud !! u); [done|].
    by destruct (LookupGerritUser ud u).
  - destruct (Associate_tables ud u chatID Hu) as (H1 & -> & ->). done.
  - destruct (UpdateLastReportTime_tables ud u when) as (H1 & -> & ->).
    unfold usernames in H1. by rewrite H1.
  - destruct (Identify_tables ud m) as (-> & ->).
    split; [done|]. split; [|done]. by apply Identify_keeps_keys_distinct.
  - by destruct (Record_tables ud env p cn pn hs) as (-> & -> & ->).
  - destruct (SetConfig_tables ud key value Hk) as (H1 & -> & ->). done.
  - destruct (Prune_tables maxAge days AddDate ud now Hc) as (H1 & -> & ->). done.
  - done.
Qed.

End KeyFacts.

(** X21.  The keys of the tables stay distinct.  When no user name, no
    comment ID and no config key is twice in its table (as in an empty
    database), then after any sequence of calls on a new
    [PersistentDB], successful or not, none is. *)
Theorem keys_stay_distinct (maxAge days : Z)
    (AddDate : PersistentDB.Time -> Z -> Z -> Z -> PersistentDB.Time)
    (d : PersistentDB.DB) (calls : list PersistentDB.call) :
  PersistentDB.keysDistinct d ->
  PersistentDB.keysDistinct
    (PersistentDB.db
       (fold_left (PersistentDB.perform maxAge days AddDate) calls
          (PersistentDB.NewPersistentDB d))).
Proof.
  intros Hd.
  change d with (PersistentDB.db (PersistentDB.NewPersistentDB d)) in Hd.
  revert Hd. generalize (PersistentDB.NewPersistentDB d).
  induction calls as [|c calls IH]; intros ud Hud; [done|].
  cbn [fold_left]. by apply IH, perform_keysDistinct.
Qed.

Lemma keys_stay_distinct_witness :
  let addDate := fun (t : PersistentDB.Time) (_ _ days : Z) => t + days * 86400000000000 in
  let calls := [PersistentDB.CallSetConfig "a" "1";
                PersistentDB.CallAssociateChatIDWithGerritUser "alice" "U1";
                PersistentDB.CallSetConfig "a" "2";
                PersistentDB.CallAssociateChatIDWithGerritUser "alice" "U2";
                PersistentDB.CallPrune 1000] in
  PersistentDB.keysDistinct PersistentDB.emptyDB
  /\ PersistentDB.keysDistinct
       (PersistentDB.db
          (fold_left (PersistentDB.perform 3600000000000 7 addDate) calls
             (PersistentDB.NewPersistentDB PersistentDB.emptyDB))).
Proof.
  intros addDate calls.
  assert (Hempty : PersistentDB.keysDistinct PersistentDB.emptyDB).
  { split; [|split]; apply NoDup_nil_2. }
  split; [exact Hempty|].
  exact (keys_stay_distinct 3600000000000 7 addDate PersistentDB.emptyDB calls Hempty).
Defined.

(** ** Announcements and pruning *)

Section AnnouncementPruneFacts.
Import PersistentDB.

(** The rows that [RecordPatchSetAnnouncements] adds carry clock
    readings of the call. *)
Lemma Record_loop_rows (env : nat -> Z * Time) (p : string) (c n : Z)
    (hs : list string) (d : DB) (i : nat) (errs : list error) :
  closed d = false ->
  exists rows,
    RecordPatchSetAnnouncements_loop d env i p c n hs errs
    = (set_patchset_announcements d (patchset_announcements d ++ rows), errs)
    /\ List.map message_handle rows = hs
    /\ Forall (fun r => announces p c n r = true /\ exists j, ts r = (env j).2) rows.
Proof.
  intros Hopen. revert d i Hopen.
  induction hs as [|h hs IH]; intros d i Hopen; simpl.
  - exists []. rewrite app_nil_r. by destruct d.
  - unfold CreateNoReturn_PatchsetAnnouncement. rewrite Hopen. simpl.
    edestruct (IH (set_patchset_announcements d
                     (patchset_announcements d ++
                      [mkPatchsetAnnouncement (env i).1 p c n h (env i).2])) (S i))
      as (rows & -> & Hh & Hall); [done|].
    eexists (_ :: rows). simpl. rewrite <- app_assoc. simpl.
    split; [done|]. split; [by rewrite Hh|]. constructor; [|done].
    split; [|by exists i]. apply announces_spec. done.
Qed.

Lemma Prune_announcements (maxAge days : Z) (AddDate : Time -> Z -> Z -> Z -> Time)
    (ud : PersistentDB) (now : Time) :
  closed (db ud) = false ->
  closed (db (Prune maxAge days AddDate ud now).1) = false
  /\ patchset_announcements (db (Prune maxAge days AddDate ud now).1)
     = List.filter (fun r => negb (ts r <? AddDate now 0 0 (Strconv.wrap64 (- days))))
         (patchset_announcements (db ud)).
Proof.
  intros Hopen.
  unfold Prune, Delete_InlineComment_By_UpdatedAt_Less,
    Delete_PatchsetAnnouncement_By_Ts_Less.
  rewrite Hopen. cbn. by rewrite Hopen.
Qed.

Lemma Get_open (ud : PersistentDB) (p : string) (c n : Z) :
  closed (db ud) = false ->
  GetPatchSetAnnouncements ud p c n
  = inr (List.map message_handle
           (List.filter (announces p c n) (patchset_announcements (db ud)))).
Proof.
  intros Hopen.
  unfold GetPatchSetAnnouncements,
    All_PatchsetAnnouncement_MessageHandle_By_ProjectName_And_ChangeNum_And_PatchsetNum.
  rewrite Hopen. by rewrite List.map_map.
Qed.

End AnnouncementPruneFacts.

(** X22.  An announcement is found until it is pruned.  On an open
    database, record handles for a patch set and then prune at [now],
    and let [limit] be [now] moved back by [buildLifetimeDays] days.
    When the clock readings at the INSERTs are not before [limit],
    [GetPatchSetAnnouncements] finds what it would find after the prune
    alone, followed by the recorded handles; when they are all before
    [limit], it finds none of the recorded handles. *)
Theorem announcements_found_until_pruned (maxAge days : Z)
    (AddDate : PersistentDB.Time -> Z -> Z -> Z -> PersistentDB.Time)
    (ud : PersistentDB.PersistentDB) (env : nat -> Z * PersistentDB.Time)
    (p : string) (c n : Z) (hs : list string) (now : PersistentDB.Time) :
  PersistentDB.closed (PersistentDB.db ud) = false ->
  let limit := AddDate now 0 0 (Strconv.wrap64 (- days)) in
  let recorded := (PersistentDB.RecordPatchSetAnnouncements ud env p c n hs).1 in
  let pruned := (PersistentDB.Prune maxAge days AddDate recorded now).1 in
  exists old,
    PersistentDB.GetPatchSetAnnouncements
      (PersistentDB.Prune maxAge days AddDate ud now).1 p c n = inr old
    /\ ((forall i, limit <= (env i).2) ->
        PersistentDB.GetPatchSetAnnouncements pruned p c n = inr (old ++ hs))
    /\ ((forall i, (env i).2 < limit) ->
        PersistentDB.GetPatchSetAnnouncements pruned p c n = inr old).
Proof.
  intros Hopen limit recorded pruned. subst recorded pruned.
  destruct (Prune_announcements maxAge days AddDate ud now Hopen) as [Hopen1 Hrows1].
  rewrite (Get_open _ _ _ _ Hopen1), Hrows1. eexists. split; [reflexivity|].
  unfold PersistentDB.RecordPatchSetAnnouncements.
  destruct (Record_loop_rows env p c n hs (PersistentDB.db ud) 0%nat [] Hopen)
    as (rows & -> & Hh & Hall).
  cbn [fst].
  destruct (Prune_announcements maxAge days AddDate
              (PersistentDB.set_db ud
                 (PersistentDB.set_patchset_announcements (PersistentDB.db ud)
                    (PersistentDB.patchset_announcements (PersistentDB.db ud) ++ rows)))
              now Hopen) as [Hopen2 Hrows2].
  rewrite (Get_open _ _ _ _ Hopen2), Hrows2. cbn.
  rewrite !List.filter_app, List.map_app. fold limit. split.
  - intros Hkept. do 2 f_equal. rewrite <- Hh. f_equal.
    rewrite (filter_all _ rows).
    + rewrite (filter_all _ rows); [done|].
      eapply Forall_impl; [exact Hall|]. by intros r [Hr _].
    + eapply Forall_impl; [exact Hall|]. intros r [_ [j Hj]]. cbn.
      rewrite Hj. specialize (Hkept j). lia.
  - intros Hgone. rewrite (filter_none _ rows); [cbn [List.filter List.map]; by rewrite app_nil_r|].
    eapply Forall_impl; [exact Hall|]. intros r [_ [j Hj]]. cbn.
    rewrite Hj. specialize (Hgone j). lia.
Qed.

Lemma announcements_found_until_pruned_witness :
  let day := 86400000000000 in
  let addDate := fun (t : PersistentDB.Time) (_ _ days : Z) => t + days * day in
  let ud := PersistentDB.NewPersistentDB PersistentDB.emptyDB in
  let env := fun i : nat => (Z.of_nat i + 1, 100 * day) in
  let recorded := (PersistentDB.RecordPatchSetAnnouncements ud env "proj" 7 2
                     ["h1"; "h2"]%string).1 in
  PersistentDB.closed (PersistentDB.db ud) = false
  /\ (forall i : nat, addDate (106 * day) 0 0 (Strconv.wrap64 (- 7)) <= (env i).2)
  /\ PersistentDB.GetPatchSetAnnouncements
       (PersistentDB.Prune 3600000000000 7 addDate recorded (106 * day)).1 "proj" 7 2
     = inr ["h1"; "h2"]%string.
Proof.
  intros day addDate ud env recorded.
  assert (Hkept : forall i : nat,
            addDate (106 * day) 0 0 (Strconv.wrap64 (- 7)) <= (env i).2).
  { intros i. vm_compute. discriminate. }
  split; [reflexivity|]. split; [exact Hkept|].
  destruct (announcements_found_until_pruned 3600000000000 7 addDate ud env
              "proj" 7 2 ["h1"; "h2"]%string (106 * day) eq_refl)
    as (old & Hold & Hfound & _).
  injection Hold as <-. exact (Hfound Hkept).
Defined.

(** ** Block quotes *)

Section QuoteFacts.
Import Strings Slack.
Local Arguments Ascii.eqb : simpl never.

Lemma Cut_byte_at (c : ascii) (a b : string) :
  IndexByte c a = false -> Cut (a +:+ String c b) (String c EmptyString) = Some (a, b).
Proof.
  induction a as [|x a IH]; intros Ha.
  - rewrite append_empty_l. simpl. by rewrite Ascii.eqb_refl.
  - simpl in Ha. apply orb_false_elim in Ha as [Hx Ha].
    rewrite append_cons. simpl. rewrite (Ascii.eqb_sym x c), Hx. simpl.
    by rewrite (IH Ha).
Qed.

Lemma Cut_byte_absent (c : ascii) (s : string) :
  IndexByte c s = false -> Cut s (String c EmptyString) = None.
Proof.
  induction s as [|x s IH]; intros Hs; [done|].
  simpl in Hs. apply orb_false_elim in Hs as [Hx Hs].
  simpl. rewrite (Ascii.eqb_sym x c), Hx. simpl. by rewrite (IH Hs).
Qed.

(** With enough fuel, the count does not depend on the fuel. *)
Lemma countFrom_fuel (c : ascii) (fuel1 fuel2 : nat) (s : string) :
  (String.length s <= fuel1)%nat ->
  (String.length s <= fuel2)%nat ->
  countFrom fuel1 s (String c EmptyString) = countFrom fuel2 s (String c EmptyString).
Proof.
  revert fuel2 s. induction fuel1 as [|fuel1 IH]; intros fuel2 s Hlen1 Hlen2.
  - destruct s; [by destruct fuel2|simpl in Hlen1; lia].
  - destruct fuel2 as [|fuel2].
    { destruct s; [done|simpl in Hlen2; lia]. }
    cbn [countFrom].
    destruct (Cut s (String c EmptyString)) as [[a b]|] eqn:E; [|done].
    apply Cut_byte_Some in E as [E _].
    assert (Hb : (S (String.length b) <= String.length s)%nat).
    { apply (f_equal String.length) in E. rewrite length_append in E.
      simpl in E. lia. }
    f_equal. apply IH; lia.
Qed.

Lemma SplitN_more (s sep : string) (n : nat) :
  SplitN s sep (S (S n))
  = match Cut s sep with
    | Some (a, b) => a :: SplitN b sep (S n)
    | None => [s]
    end.
Proof. reflexivity. Qed.

(** [Split] at a byte, one separator at a time. *)
Lemma Split_byte (c : ascii) (s : string) :
  Split s (String c EmptyString)
  = match Cut s (String c EmptyString) with
    | Some (a, b) => a :: Split b (String c EmptyString)
    | None => [s]
    end.
Proof.
  unfold Split, Count.
  destruct s as [|x s]; [done|]. cbn [String.length countFrom].
  destruct (Cut (String x s) (String c EmptyString)) as [[a b]|] eqn:E; [|done].
  rewrite SplitN_more, E.
  apply Cut_byte_Some in E as [E _].
  apply (f_equal String.length) in E. rewrite length_append in E. simpl in E.
  rewrite (countFrom_fuel c (String.length s) (String.length b) b); [done|lia|lia].
Qed.

Lemma Split_not_nil (c : ascii) (s : string) : Split s (String c EmptyString) <> [].
Proof. rewrite Split_byte. by destruct (Cut _ _) as [[a b]|]. Qed.

Lemma Join_cons (a : string) (rest : list string) (sep : string) :
  rest <> [] -> Join (a :: rest) sep = a +:+ sep +:+ Join rest sep.
Proof. by destruct rest. Qed.

Lemma quote_lines (n : nat) (msg : string) :
  (String.length msg <= n)%nat ->
  Split (FormatBlockQuote msg) (String LF EmptyString)
  = List.map (fun line => "> " +:+ line) (Split msg (String LF EmptyString)).
Proof.
  revert msg. induction n as [|n IH]; intros msg Hlen.
  - destruct msg; [reflexivity|simpl in Hlen; lia].
  - unfold FormatBlockQuote. cbv zeta.
    rewrite (Split_byte LF msg).
    destruct (Cut msg (String LF EmptyString)) as [[a b]|] eqn:E.
    + apply Cut_byte_Some in E as [E Ha].
      rewrite Join_cons by apply Split_not_nil.
      replace ("> " +:+ a +:+ String LF "> " +:+ Join (Split b (String LF EmptyString)) (String LF "> "))
        with (("> " +:+ a) +:+ String LF (FormatBlockQuote b))
        by (unfold FormatBlockQuote; by rewrite !append_assoc).
      rewrite Split_byte, Cut_byte_at.
      * cbn [List.map]. f_equal. apply IH.
        apply (f_equal String.length) in E. rewrite length_append in E.
        simpl in E. lia.
      * rewrite IndexByte_append, Ha. reflexivity.
    + cbn [Join List.map]. apply Cut_byte_None in E.
      rewrite Split_byte, Cut_byte_absent; [done|].
      by rewrite IndexByte_append, E.
Qed.

End QuoteFacts.

(** X23.  [FormatBlockQuote] quotes every line: the lines of the
    result are the lines of the message, in their order, each after
    the quote sign and a space; so the result has as many lines as the
    message, and no line of the message is left without the sign. *)
Theorem FormatBlockQuote_quotes_every_line (msg : string) :
  Slack.Split (Slack.FormatBlockQuote msg) (String Strings.LF EmptyString)
  = List.map (fun line => "> " +:+ line) (Slack.Split msg (String Strings.LF EmptyString)).
Proof. exact (quote_lines (String.length msg) msg (Nat.le_refl _)). Qed.

(** ** Integers in the config, in general *)

Section IntFacts.
Import Strconv.

(** The base-32 digits, as the decimal parser reads them. *)
Lemma digit_parsed (d : Z) :
  0 <= d <= 31 ->
  let c := digit d in
  Ascii.eqb c "_" = false
  /\ (if ((48 <=? byte c) && (byte c <=? 57))%bool then Some (byte c - 48)
      else if ((97 <=? lower c) && (lower c <=? 122))%bool
           then Some (lower c - 97 + 10)
           else None) = Some d
  /\ (1 <= d -> Ascii.eqb c "0" = false /\ Ascii.eqb c "+" = false
                /\ Ascii.eqb c "-" = false).
Proof.
  intros Hd.
  replace d with (Z.of_nat (Z.to_nat d)) by lia.
  assert (Hn : (Z.to_nat d < 32)%nat) by lia.
  revert Hn. generalize (Z.to_nat d). intros n Hn.
  do 32 (destruct n as [|n]; [vm_compute; repeat split; (done || lia)|]). lia.
Qed.

Lemma parseDigits_digit (maxVal d n0 : Z) (s : string) (underscores : bool) :
  0 <= d <= 31 ->
  parseDigits true 10 maxVal (String (digit d) s) underscores n0
  = if 10 <=? d then inl ErrSyntax
    else if maxUint64 / 10 + 1 <=? n0 then inl ErrRange
    else if ((maxUint64 <? n0 * 10 + d) || (maxVal <? n0 * 10 + d))%bool
         then inl ErrRange
         else parseDigits true 10 maxVal s underscores (n0 * 10 + d).
Proof.
  intros Hd. destruct (digit_parsed d Hd) as (Hu & Hval & _).
  cbn [parseDigits]. cbv zeta in Hu, Hval. rewrite Hu. cbn [andb]. by rewrite Hval.
Qed.

Lemma reads_empty (maxVal : Z) : reads maxVal EmptyString 0 0.
Proof.
  intros n0 n und0 und [= <- <-]. exists 0. lia.
Qed.

Lemma reads_digit (maxVal d : Z) (a : string) (k V : Z) :
  0 <= d <= 31 -> 0 <= k ->
  reads maxVal a k V ->
  reads maxVal (String (digit d) a) (k + 1) (d * 32 ^ k + V).
Proof.
  intros Hd Hk Ha n0 n und0 und. rewrite parseDigits_digit by done.
  destruct (10 <=? d) eqn:Hten; [done|]. apply Z.leb_gt in Hten.
  destruct (_ <=? n0); [done|]. destruct (_ || _)%bool; [done|].
  intros Hparse. destruct (Ha _ _ _ _ Hparse) as (dec & -> & Hdec).
  exists (d * 10 ^ k + dec). split.
  - rewrite Z.pow_add_r by lia. lia.
  - assert (10 ^ k <= 32 ^ k) by (apply Z.pow_le_mono_l; lia).
    assert (0 < 10 ^ k) by (apply Z.pow_pos_nonneg; lia).
    nia.
Qed.

(** The digits that [formatShift] puts before [a], for a shift of 5
    bits: read as decimals they give less than the number formatted,
    once there are two digits or more. *)
Lemma formatShift_reads_less (maxVal : Z) (fuel : nat) (u : Z) (a : string) (k V : Z) :
  1 <= u -> 1 <= k ->
  reads maxVal a k V ->
  forall n und,
    parseDigits true 10 maxVal (formatShift fuel u 5 a) false 0 = inr (n, und) ->
    n < u * 32 ^ k + V.
Proof.
  revert u a k V. induction fuel as [|fuel IH]; intros u a k V Hu Hk Ha n und.
  - cbn [formatShift]. intros Hparse.
    destruct (Ha _ _ _ _ Hparse) as (dec & -> & Hdec).
    assert (0 < 32 ^ k) by (apply Z.pow_pos_nonneg; lia). nia.
  - cbn [formatShift]. change (Z.shiftl 1 5) with 32.
    destruct (u <? 32) eqn:Hlt.
    + apply Z.ltb_lt in Hlt. rewrite parseDigits_digit by lia.
      destruct (10 <=? u); [done|]. destruct (_ <=? 0); [done|].
      destruct (_ || _)%bool; [done|].
      intros Hparse. destruct (Ha _ _ _ _ Hparse) as (dec & -> & Hdec).
      assert (10 ^ k < 32 ^ k) by (apply Z.pow_lt_mono_l; lia).
      assert (0 < 10 ^ k) by (apply Z.pow_pos_nonneg; lia).
      nia.
    + apply Z.ltb_ge in Hlt. change (32 - 1) with (Z.ones 5).
      rewrite Z.land_ones, Z.shiftr_div_pow2 by lia. change (2 ^ 5) with 32.
      intros Hparse.
      pose proof (Z.mod_pos_bound u 32 ltac:(lia)) as Hmod.
      pose proof (Z.div_mod u 32 ltac:(lia)) as Hdiv.
      assert (Hq : 1 <= u / 32) by (apply Z.div_le_lower_bound; lia).
      pose proof (IH (u / 32) (String (digit (u mod 32)) a) (k + 1)
                    (u mod 32 * 32 ^ k + V) Hq ltac:(lia)
                    (reads_digit maxVal (u mod 32) a k V ltac:(lia) ltac:(lia) Ha)
                    n und Hparse) as Hless.
      rewrite Z.pow_add_r in Hless by lia. nia.
Qed.

(** The first digit of a positive number is not the digit zero. *)
Lemma formatShift_first (fuel : nat) (u : Z) (a : string) :
  1 <= u < 32 ^ Z.of_nat fuel ->
  exists d rest, 1 <= d <= 31 /\ formatShift fuel u 5 a = String (digit d) rest.
Proof.
  revert u a. induction fuel as [|fuel IH]; intros u a Hu.
  - simpl in Hu. lia.
  - cbn [formatShift]. change (Z.shiftl 1 5) with 32.
    destruct (u <? 32) eqn:Hlt.
    + apply Z.ltb_lt in Hlt. exists u, a. split; [lia|done].
    + apply Z.ltb_ge in Hlt. rewrite Z.shiftr_div_pow2 by lia. change (2 ^ 5) with 32.
      apply IH. split.
      * apply Z.div_le_lower_bound; lia.
      * apply Z.div_lt_upper_bound; [lia|].
        rewrite Nat2Z.inj_succ, Z.pow_succ_r in Hu by lia. lia.
Qed.

(** [ParseUint] and [ParseInt] with base 0 on a text that starts with
    a digit other than zero: the base is 10 and there is no sign. *)
Lemma ParseUint_digit (d : Z) (rest : string) :
  1 <= d <= 31 ->
  ParseUint (String (digit d) rest) 0 32
  = match parseDigits true 10 (2 ^ 32 - 1) (String (digit d) rest) false 0 with
    | inl e => inl e
    | inr (n, underscores) =>
        if (underscores && negb (underscoreOK (String (digit d) rest)))%bool
        then inl ErrSyntax
        else inr n
    end.
Proof.
  intros Hd.
  replace d with (Z.of_nat (Z.to_nat d)) by lia.
  assert (Hn : (1 <= Z.to_nat d < 32)%nat) by lia.
  revert Hn. generalize (Z.to_nat d). intros n Hn.
  destruct n as [|n]; [lia|].
  do 31 (destruct n as [|n]; [reflexivity|]). lia.
Qed.

Lemma ParseInt_digit (d : Z) (rest : string) :
  1 <= d <= 31 ->
  ParseInt (String (digit d) rest) 0 32
  = match ParseUint (String (digit d) rest) 0 32 with
    | inl e => inl e
    | inr un => if 2 ^ (32 - 1) <=? un then inl ErrRange else inr un
    end.
Proof.
  intros Hd.
  replace d with (Z.of_nat (Z.to_nat d)) by lia.
  assert (Hn : (1 <= Z.to_nat d < 32)%nat) by lia.
  revert Hn. generalize (Z.to_nat d). intros n Hn.
  destruct n as [|n]; [lia|].
  do 31 (destruct n as [|n]; [reflexivity|]). lia.
Qed.

(** The magnitudes of two base-32 digits or more: what [ParseUint]
    reads from the text is less than the magnitude. *)
Lemma ParseUint_formatBits (u : Z) :
  32 <= u < 2 ^ 64 ->
  exists d rest,
    1 <= d <= 31 /\ formatBits u 32 = String (digit d) rest
    /\ forall n, ParseUint (formatBits u 32) 0 32 = inr n -> n < u.
Proof.
  intros Hu.
  change (formatBits u 32) with (formatShift 64 u 5 EmptyString).
  destruct (formatShift_first 64 u EmptyString) as (d & rest & Hd & Hfirst).
  { change (32 ^ Z.of_nat 64) with (2 ^ 320). split; [lia|].
    apply Z.lt_trans with (2 ^ 64); [lia|]. by apply Z.pow_lt_mono_r. }
  exists d, rest. split; [done|]. split; [done|].
  intros n. rewrite Hfirst, (ParseUint_digit d rest Hd), <- Hfirst.
  destruct (parseDigits _ _ _ _ _ _) as [e|[n' und]] eqn:Hparse; [done|].
  intros Hn. assert (n' = n) as -> by (by destruct (_ && _)%bool; [|injection Hn]).
  revert Hparse. cbn [formatShift]. change (Z.shiftl 1 5) with 32.
  destruct (u <? 32) eqn:Hlt; [apply Z.ltb_lt in Hlt; lia|].
  change (32 - 1) with (Z.ones 5).
  rewrite Z.land_ones, Z.shiftr_div_pow2 by lia. change (2 ^ 5) with 32.
  intros Hparse.
  pose proof (Z.mod_pos_bound u 32 ltac:(lia)) as Hmod.
  pose proof (Z.div_mod u 32 ltac:(lia)) as Hdiv.
  assert (Hq : 1 <= u / 32) by (apply Z.div_le_lower_bound; lia).
  pose proof (formatShift_reads_less (2 ^ 32 - 1) 63 (u / 32)
                (String (digit (u mod 32)) EmptyString) (0 + 1) (u mod 32 * 32 ^ 0 + 0)
                Hq ltac:(lia)
                (reads_digit _ (u mod 32) EmptyString 0 0 ltac:(lia) ltac:(lia)
                   (reads_empty _))
                n und Hparse) as Hless.
  change (32 ^ (0 + 1)) with 32 in Hless. change (32 ^ 0) with 1 in Hless. lia.
Qed.

(** The values that come back: those of one decimal digit. *)
Lemma ParseInt_FormatInt_identity (v : Z) :
  minInt64 <= v <= maxInt64 ->
  FormatInt v 32 <> EmptyString
  /\ (ParseInt (FormatInt v 32) 0 32 = inr v <-> -9 <= v <= 9).
Proof.
  intros Hv. unfold minInt64, maxInt64 in Hv.
  destruct (decide (-31 <= v <= 31)) as [Hsmall|Hfar].
  { destruct (ParseInt_FormatInt_32 v Hsmall) as [Hne ->]. split; [done|].
    destruct (Z.abs v <=? 9) eqn:Habs.
    - apply Z.leb_le in Habs. split; [lia|done].
    - apply Z.leb_gt in Habs. split; [done|lia]. }
  unfold FormatInt. destruct (v <? 0) eqn:Hneg.
  - apply Z.ltb_lt in Hneg. split; [done|]. split; [|lia].
    destruct (ParseUint_formatBits (- v)) as (d & rest & Hd & Hfirst & Hless); [lia|].
    cbn [ParseInt]. change (Ascii.eqb "-" "+") with false.
    change (Ascii.eqb "-" "-") with true. cbv iota beta.
    destruct (ParseUint (formatBits (- v) 32) 0 32) as [e|un] eqn:Hparse; [done|].
    specialize (Hless un eq_refl). cbn [negb andb].
    destruct (_ <? un); [done|]. intros [= H]. lia.
  - apply Z.ltb_ge in Hneg.
    destruct (ParseUint_formatBits v) as (d & rest & Hd & Hfirst & Hless); [lia|].
    split; [by rewrite Hfirst|]. split; [|lia].
    rewrite Hfirst, (ParseInt_digit d rest Hd), <- Hfirst.
    destruct (ParseUint (formatBits v 32) 0 32) as [e|un] eqn:Hparse; [done|].
    specialize (Hless un eq_refl).
    destruct (_ <=? un); [done|]. intros [= H]. lia.
Qed.

End IntFacts.

(** X24.  [SetConfigInt] followed by [GetConfigInt] gives the value
    back exactly for the values from -9 to 9: for every other [int]
    the text stored, in base 32, is read with base 0 as another number
    or is refused, and [GetConfigInt] returns a number other than the
    one that was set, or the default with an error. *)
Theorem SetConfigInt_then_GetConfigInt_identity (ud : PersistentDB.PersistentDB)
    (key : string) (v def : Z) :
  PersistentDB.closed (PersistentDB.db ud) = false ->
  Strconv.minInt64 <= v <= Strconv.maxInt64 ->
  PersistentDB.GetConfigInt (PersistentDB.SetConfigInt ud key v).1 key def = (v, None)
  <-> -9 <= v <= 9.
Proof.
  intros Hopen Hv.
  destruct (ParseInt_FormatInt_identity v Hv) as [Hne Hiff].
  unfold PersistentDB.GetConfigInt, PersistentDB.SetConfigInt.
  rewrite (GetConfig_SetConfig _ _ _ _ Hopen).
  destruct (Strconv.FormatInt v 32) as [|c s] eqn:E; [done|].
  destruct (Strconv.ParseInt (String c s) 0 32) as [e|n] eqn:Hparse.
  - split; [done|]. intros Hsmall. apply Hiff in Hsmall. done.
  - rewrite <- Hiff. split; intros [= ->]; done.
Qed.

Lemma SetConfigInt_then_GetConfigInt_identity_witness :
  let ud := PersistentDB.NewPersistentDB PersistentDB.emptyDB in
  PersistentDB.closed (PersistentDB.db ud) = false
  /\ Strconv.minInt64 <= 1000 <= Strconv.maxInt64
  /\ PersistentDB.GetConfigInt (PersistentDB.SetConfigInt ud "n" 1000).1 "n" 5
     <> (1000, None).
Proof.
  intros ud.
  assert (Hrange : Strconv.minInt64 <= 1000 <= Strconv.maxInt64) by (by vm_compute).
  split; [reflexivity|]. split; [exact Hrange|].
  intros H.
  apply (SetConfigInt_then_GetConfigInt_identity ud "n" 1000 5 eq_refl Hrange) in H.
  lia.
Defined.
